(** * Trade-Agent: the live price cache, its refreshers, the SSE streams
      and the indicator arithmetic of [app.py]

    The development embeds the cache and streaming core of [app.py]
    ([live_cache], [_bg_update_ticker], [_bg_update_chart],
    [get_live_chart], [stream_ticker], [stream_chart]) and the indicator
    part of [get_strategy], and proves the properties the design document
    states about them.

    Modelling conventions.
    - Numbers.  Prices coming from the provider are rationals ([Q]); every
      computed value is a [num]: a rational or one of the IEEE special
      values the Python code can produce ([inf], [-inf], [nan]).  Arithmetic
      on finite values is exact, so binary floating-point rounding error is
      abstracted away; signed zeros are not distinguished.
    - [round(x, n)] rounds half to even at [n] decimals, exactly; on
      binary floats the program's [round] can differ by one unit of the
      last decimal when the value is within float error of a tie.
    - Rolling means and exponential averages are exact as well; where the
      program compares two unrounded averages, values that are equal here
      may differ by float error there.
    - Text.  Symbols are byte strings; [upper] and [strip] act on the ASCII
      range, where they are [str.upper] and [str.strip]; the statements
      about normalisation are made for symbols of that range.
    - Effects.  The provider ([yfinance]) and the clock are oracles of an
      environment; the calls made to the provider are logged in the world.
      Exceptions are outcomes of a small state-and-exception monad.
    - The square root used by [rolling(20).std()] is a parameter. *)

From Stdlib Require Import QArith Qround Qabs ZArith Lia Lqa Ascii String.
From stdpp Require Import base option list strings gmap.

Set Default Proof Using "Type".

(** ** Numbers *)

Inductive num : Type :=
  | Fin (q : Q)
  | PInf
  | NInf
  | NaN.

Definition is_nan (x : num) : bool :=
  match x with NaN => true | _ => false end.

(** Equality of values: rational equality on finite values. *)
Definition num_eq (x y : num) : Prop :=
  match x, y with
  | Fin a, Fin b => (a == b)%Q
  | PInf, PInf => True
  | NInf, NInf => True
  | NaN, NaN => True
  | _, _ => False
  end.

Definition nneg (x : num) : num :=
  match x with
  | Fin a => Fin (- a)
  | PInf => NInf
  | NInf => PInf
  | NaN => NaN
  end.

Definition nadd (x y : num) : num :=
  match x, y with
  | NaN, _ | _, NaN => NaN
  | Fin a, Fin b => Fin (a + b)
  | PInf, NInf | NInf, PInf => NaN
  | PInf, _ | _, PInf => PInf
  | NInf, _ | _, NInf => NInf
  end.

Definition nsub (x y : num) : num := nadd x (nneg y).

Definition sign_inf (c : comparison) (pos : bool) : num :=
  match c with
  | Eq => NaN
  | Gt => if pos then PInf else NInf
  | Lt => if pos then NInf else PInf
  end.

Definition nmul (x y : num) : num :=
  match x, y with
  | NaN, _ | _, NaN => NaN
  | Fin a, Fin b => Fin (a * b)
  | Fin a, PInf | PInf, Fin a => sign_inf (a ?= 0)%Q true
  | Fin a, NInf | NInf, Fin a => sign_inf (a ?= 0)%Q false
  | PInf, PInf | NInf, NInf => PInf
  | PInf, NInf | NInf, PInf => NInf
  end.

(** Division as numpy's float64 does it: a division by zero raises nothing,
    it yields an infinity, or [nan] for [0/0]. *)
Definition ndiv (x y : num) : num :=
  match x, y with
  | NaN, _ | _, NaN => NaN
  | Fin a, Fin b =>
      match (b ?= 0)%Q with
      | Eq => match (a ?= 0)%Q with Eq => NaN | Gt => PInf | Lt => NInf end
      | _ => Fin (a / b)
      end
  | Fin _, (PInf | NInf) => Fin 0
  | PInf, Fin b => match (b ?= 0)%Q with Lt => NInf | _ => PInf end
  | NInf, Fin b => match (b ?= 0)%Q with Lt => PInf | _ => NInf end
  | (PInf | NInf), (PInf | NInf) => NaN
  end.

(** Comparisons: every comparison with [nan] is false. *)
Definition ncompare (x y : num) : option comparison :=
  match x, y with
  | NaN, _ | _, NaN => None
  | Fin a, Fin b => Some (a ?= b)%Q
  | PInf, PInf | NInf, NInf => Some Eq
  | PInf, _ | _, NInf => Some Gt
  | NInf, _ | _, PInf => Some Lt
  end.

Definition ngt (x y : num) : bool :=
  match ncompare x y with Some Gt => true | _ => false end.
Definition nlt (x y : num) : bool :=
  match ncompare x y with Some Lt => true | _ => false end.
Definition nge (x y : num) : bool :=
  match ncompare x y with Some (Gt | Eq) => true | _ => false end.
Definition nle (x y : num) : bool :=
  match ncompare x y with Some (Lt | Eq) => true | _ => false end.

(** [round(x, n)]: round half to even at [n] decimals. *)
Definition round_half_even (q : Q) : Z :=
  let f := Qfloor q in
  match (q - inject_Z f ?= 1 # 2)%Q with
  | Lt => f
  | Gt => (f + 1)%Z
  | Eq => if Z.even f then f else (f + 1)%Z
  end.

Definition Qround_to (n : nat) (q : Q) : Q :=
  (inject_Z (round_half_even (q * inject_Z (10 ^ Z.of_nat n)))
   / inject_Z (10 ^ Z.of_nat n))%Q.

Definition round (x : num) (n : nat) : num :=
  match x with
  | Fin q => Fin (Qround_to n q)
  | _ => x
  end.

Definition num_of_Z (z : Z) : num := Fin (inject_Z z).

(** ** Text: [str.upper] and [str.strip] on the ASCII range *)

Definition upper_ascii (c : ascii) : ascii :=
  let n := nat_of_ascii c in
  if (97 <=? n)%nat && (n <=? 122)%nat then ascii_of_nat (n - 32) else c.

Fixpoint upper (s : string) : string :=
  match s with
  | EmptyString => EmptyString
  | String c r => String (upper_ascii c) (upper r)
  end.

(** The ASCII characters for which [str.isspace] holds. *)
Definition isspace (c : ascii) : bool :=
  let n := nat_of_ascii c in
  ((9 <=? n)%nat && (n <=? 13)%nat) || ((28 <=? n)%nat && (n <=? 32)%nat).

Fixpoint lstrip (s : string) : string :=
  match s with
  | EmptyString => EmptyString
  | String c r => if isspace c then lstrip r else s
  end.

Fixpoint rstrip (s : string) : string :=
  match s with
  | EmptyString => EmptyString
  | String c r =>
      match rstrip r with
      | EmptyString => if isspace c then EmptyString else String c EmptyString
      | r' => String c r'
      end
  end.

Definition strip (s : string) : string := rstrip (lstrip s).

(** [symbol.upper().strip()], the normalisation every route applies. *)
Definition normalize (s : string) : string := strip (upper s).

(** Truthiness of a [str]: [if not symbol], [if sym]. *)
Definition truthy (s : string) : bool :=
  match s with EmptyString => false | _ => true end.

(** ** The clock: [datetime.now()] and [strftime] *)

Record datetime : Type := mk_datetime {
  year : nat; month : nat; day : nat;
  hour : nat; minute : nat; second : nat
}.

Definition digit (n : nat) : ascii := ascii_of_nat (48 + n mod 10).

Definition two_digits (n : nat) : string :=
  String (digit (n / 10)) (String (digit n) EmptyString).

Definition four_digits (n : nat) : string :=
  String (digit (n / 1000)) (String (digit (n / 100))
    (String (digit (n / 10)) (String (digit n) EmptyString))).

Definition month_abbr (m : nat) : string :=
  nth (m - 1)
    ["Jan"; "Feb"; "Mar"; "Apr"; "May"; "Jun";
     "Jul"; "Aug"; "Sep"; "Oct"; "Nov"; "Dec"]%string "Jan"%string.

(** The directives the program uses: %Y %m %d %b %H %M %S.  Any other
    character is copied. *)
Definition directive (c : ascii) (d : datetime) : string :=
  if decide (c = "Y"%char) then four_digits (year d)
  else if decide (c = "m"%char) then two_digits (month d)
  else if decide (c = "d"%char) then two_digits (day d)
  else if decide (c = "b"%char) then month_abbr (month d)
  else if decide (c = "H"%char) then two_digits (hour d)
  else if decide (c = "M"%char) then two_digits (minute d)
  else if decide (c = "S"%char) then two_digits (second d)
  else String "%"%char (String c EmptyString).

Fixpoint strftime (fmt : string) (d : datetime) : string :=
  match fmt with
  | EmptyString => EmptyString
  | String c r =>
      if decide (c = "%"%char) then
        match r with
        | String k r' => (directive k d ++ strftime r' d)%string
        | EmptyString => String c EmptyString
        end
      else String c (strftime r d)
  end.

(** ** The provider's data *)

(** One row of the frame [Ticker.history] returns: the index label and the
    OHLC columns. *)
Record row : Type := mk_row {
  index : datetime; Open : Q; High : Q; Low : Q; Close : Q
}.

(** [h[name].iloc[i]] with Python's negative indices; [None] is the
    [IndexError]. *)
Definition iloc {A} (l : list A) (i : Z) : option A :=
  let n := Z.of_nat (length l) in
  let j := if (i <? 0)%Z then (n + i)%Z else i in
  if (j <? 0)%Z then None else l !! Z.to_nat j.

(** [Series.max()] and [Series.min()]; [nan] on an empty column. *)
Definition series_max (l : list Q) : num :=
  match l with
  | [] => NaN
  | x :: r => Fin (foldl (fun m y => if Qle_bool m y then y else m) x r)
  end.

Definition series_min (l : list Q) : num :=
  match l with
  | [] => NaN
  | x :: r => Fin (foldl (fun m y => if Qle_bool y m then y else m) x r)
  end.

(** A request [yf.Ticker(sym).history(period=..., interval=...)]. *)
Record call : Type := mk_call {
  c_symbol : string; c_period : string; c_interval : string
}.

Inductive fetched : Type :=
  | Raised
  | Frame (h : list row).

(** ** The cache: [live_cache] *)

Module Quote.
Record t : Type := mk {
  symbol : string; price : num; change : num; changePct : num
}.
End Quote.

Module Chart.
Record t : Type := mk {
  prices : list Q; times : list string;
  price : num; open : num; change : num; changePct : num;
  high : num; low : num; date : string; timestamp : string
}.
End Chart.

Record live_cache : Type := mk_cache {
  ticker : list Quote.t;
  charts : gmap string Chart.t;
  timestamp : string;
  ticker_symbols : list string;
  chart_symbol : option string
}.

Definition initial_cache : live_cache :=
  {| ticker := [];
     charts := ∅;
     timestamp := "";
     ticker_symbols :=
       ["AAPL"; "TSLA"; "GOOGL"; "MSFT"; "AMZN"; "META"; "NVDA"; "NFLX"]%string;
     chart_symbol := None |}.

Definition set_ticker (results : list Quote.t) (ts : string)
    (lc : live_cache) : live_cache :=
  {| ticker := results; charts := charts lc; timestamp := ts;
     ticker_symbols := ticker_symbols lc; chart_symbol := chart_symbol lc |}.

Definition set_chart (sym : string) (c : Chart.t) (lc : live_cache) : live_cache :=
  {| ticker := ticker lc; charts := <[sym := c]> (charts lc);
     timestamp := timestamp lc;
     ticker_symbols := ticker_symbols lc; chart_symbol := chart_symbol lc |}.

Definition set_chart_symbol (sym : string) (lc : live_cache) : live_cache :=
  {| ticker := ticker lc; charts := charts lc; timestamp := timestamp lc;
     ticker_symbols := ticker_symbols lc; chart_symbol := Some sym |}.

(** ** The world and the monad of the handlers *)

(** The environment: the provider answers a call knowing the calls made
    before it; the clock answers the n-th reading. *)
Record env : Type := mk_env {
  yf : list call -> call -> fetched;
  clock : nat -> datetime
}.

Record world : Type := mk_world {
  cache : live_cache;
  calls : list call;
  ticks : nat
}.

Definition initial_world : world :=
  {| cache := initial_cache; calls := []; ticks := 0 |}.

Inductive outcome (A : Type) : Type :=
  | Ret (a : A)
  | Exc.
Arguments Ret {A} a.
Arguments Exc {A}.

Definition M (A : Type) : Type := world -> outcome A * world.

Definition ret {A} (a : A) : M A := fun w => (Ret a, w).
Definition raise {A} : M A := fun w => (Exc, w).

Definition bind {A B} (m : M A) (k : A -> M B) : M B :=
  fun w =>
    match m w with
    | (Ret a, w') => k a w'
    | (Exc, w') => (Exc, w')
    end.

(** [try: m  except: handler]; what [m] wrote before raising stays. *)
Definition try_except {A} (m : M A) (handler : M A) : M A :=
  fun w =>
    match m w with
    | (Ret a, w') => (Ret a, w')
    | (Exc, w') => handler w'
    end.

Global Instance M_ret : MRet M := @ret.
Global Instance M_bind : MBind M := fun A B k m => bind m k.

Definition lift_opt {A} (o : option A) : M A :=
  match o with Some a => ret a | None => raise end.

Definition read_cache : M live_cache := fun w => (Ret (cache w), w).

Definition write_cache (f : live_cache -> live_cache) : M unit :=
  fun w => (Ret tt, {| cache := f (cache w); calls := calls w; ticks := ticks w |}).

(** What a route answers: a body, or an error status. *)
Inductive response (A : Type) : Type :=
  | Ok (body : A)
  | Error (status : nat).
Arguments Ok {A} body.
Arguments Error {A} status.

Section Handlers.

Variable E : env.

(** [yf.Ticker(sym).history(period, interval)]: logged, may raise. *)
Definition history (sym period interval : string) : M (list row) :=
  fun w =>
    let c := mk_call sym period interval in
    let w' := {| cache := cache w; calls := calls w ++ [c]; ticks := ticks w |} in
    match yf E (calls w) c with
    | Raised => (Exc, w')
    | Frame h => (Ret h, w')
    end.

(** [datetime.now()] *)
Definition now : M datetime :=
  fun w => (Ret (clock E (ticks w)),
            {| cache := cache w; calls := calls w; ticks := S (ticks w) |}).

(** *** [_bg_update_ticker] *)

(** The body of the [for sym in ...] loop: the quote to append, or [None]
    where the code runs [continue]. *)
Definition ticker_quote (sym : string) : M (option Quote.t) :=
  try_except
    (h ← history sym "2d" "1d";
     if decide (2 <= length h)%nat then
       c1 ← lift_opt (iloc (map Close h) (-1));
       let cur := round (Fin c1) 2 in
       c2 ← lift_opt (iloc (map Close h) (-2));
       let prev := round (Fin c2) 2 in
       let chg := round (nsub cur prev) 2 in
       let pct := round (nmul (ndiv chg prev) (num_of_Z 100)) 2 in
       ret (Some (Quote.mk sym cur chg pct))
     else if decide (length h = 1)%nat then
       c1 ← lift_opt (iloc (map Close h) (-1));
       let cur := round (Fin c1) 2 in
       ret (Some (Quote.mk sym cur (num_of_Z 0) (num_of_Z 0)))
     else ret None)
    (ret None).

Fixpoint ticker_for (syms : list string) (results : list Quote.t)
    : M (list Quote.t) :=
  match syms with
  | [] => ret results
  | sym :: rest =>
      q ← ticker_quote sym;
      ticker_for rest (match q with Some q => results ++ [q] | None => results end)
  end.

(** One iteration of the [while True] loop, without the [time.sleep(2)]. *)
Definition _bg_update_ticker : M unit :=
  try_except
    (lc ← read_cache;
     results ← ticker_for (ticker_symbols lc) [];
     t ← now;
     write_cache (set_ticker results (strftime "%H:%M:%S" t)))
    (ret tt).

(** *** [_bg_update_chart] *)

Definition is_empty (h : list row) : bool :=
  match h with [] => true | _ => false end.

(** The body of [if sym:], lines 67-92: it reads the provider and the
    clock, and writes the cache once, under [sym]. *)
Definition refresh_chart (sym : string) : M unit :=
  try_except
    (h ← history sym "1d" "1m";
     h ← (if is_empty h then history sym "5d" "5m" else ret h);
     if negb (is_empty h) then
       c ← lift_opt (iloc (map Close h) (-1));
       let cur := round (Fin c) 2 in
       o ← lift_opt (iloc (map Open h) 0);
       let opn := round (Fin o) 2 in
       let chg := round (nsub cur opn) 2 in
       let pct := round (nmul (ndiv chg opn) (num_of_Z 100)) 2 in
       let hi := round (series_max (map High h)) 2 in
       let lo := round (series_min (map Low h)) 2 in
       d ← now;
       let today := strftime "%b %d, %Y" d in
       t ← now;
       write_cache (set_chart sym
         {| Chart.prices := map Close h;
            Chart.times := map (strftime "%Y-%m-%d %H:%M") (map index h);
            Chart.price := cur; Chart.open := opn;
            Chart.change := chg; Chart.changePct := pct;
            Chart.high := hi; Chart.low := lo;
            Chart.date := today;
            Chart.timestamp := strftime "%H:%M:%S" t |})
     else ret tt)
    (ret tt).

(** One iteration of the [while True] loop, without the [time.sleep(3)]. *)
Definition _bg_update_chart : M unit :=
  lc ← read_cache;
  match chart_symbol lc with
  | Some sym => if truthy sym then refresh_chart sym else ret tt
  | None => ret tt
  end.

(** *** The routes that read or write the cache *)

(** [/api/live] *)
Definition get_live_price : M (list Quote.t * string) :=
  lc ← read_cache; ret (ticker lc, timestamp lc).

(** The body of [if not cached:], lines 339-367: the first request for a
    symbol fetches and writes the entry itself. *)
Definition bootstrap_chart (symbol : string) : M (response Chart.t) :=
  try_except
    (hist ← history symbol "1d" "1m";
     hist ← (if is_empty hist then history symbol "5d" "5m" else ret hist);
     if is_empty hist then ret (Error 404)
     else
       c ← lift_opt (iloc (map Close hist) (-1));
       let cur := round (Fin c) 2 in
       o ← lift_opt (iloc (map Open hist) 0);
       let opn := round (Fin o) 2 in
       let chg := round (nsub cur opn) 2 in
       let pct := round (nmul (ndiv chg opn) (num_of_Z 100)) 2 in
       d ← now;
       let today := strftime "%b %d, %Y" d in
       t ← now;
       let cached :=
         {| Chart.prices := map Close hist;
            Chart.times := map (strftime "%Y-%m-%d %H:%M") (map index hist);
            Chart.price := cur; Chart.open := opn;
            Chart.change := chg; Chart.changePct := pct;
            Chart.high := round (series_max (map High hist)) 2;
            Chart.low := round (series_min (map Low hist)) 2;
            Chart.date := today;
            Chart.timestamp := strftime "%H:%M:%S" t |} in
       write_cache (set_chart symbol cached) ;;
       ret (Ok cached))
    (ret (Error 500)).

(** [/api/livechart]: the body answered is read from the cached entry. *)
Definition get_live_chart (req : string) : M (response Chart.t) :=
  let symbol := normalize req in
  if negb (truthy symbol) then ret (Error 400)
  else
    write_cache (set_chart_symbol symbol) ;;
    lc ← read_cache;
    match charts lc !! symbol with
    | Some cached => ret (Ok cached)
    | None => bootstrap_chart symbol
    end.

(** [/stream/chart/<symbol>]: what the route does before it hands the
    generator over; the result is the symbol the generator polls. *)
Definition stream_chart (req : string) : M string :=
  let symbol := normalize req in
  write_cache (set_chart_symbol symbol) ;;
  ret symbol.

End Handlers.

(** *** The generators of the two streams *)

(** One iteration of [generate] in [stream_ticker], without the
    [time.sleep(1)]: the event yielded, if any, and the new [last_ts]. *)
Definition ticker_poll (last_ts : string) (lc : live_cache)
    : option (list Quote.t * string) * string :=
  let ts := timestamp lc in
  let data := ticker lc in
  if bool_decide (ts ≠ last_ts) && negb (bool_decide (data = [])) then
    (Some (data, ts), ts)
  else (None, last_ts).

(** One iteration of [generate] in [stream_chart]. *)
Definition chart_poll (symbol : string) (last_ts : string) (lc : live_cache)
    : option Chart.t * string :=
  match charts lc !! symbol with
  | Some cached =>
      if bool_decide (Chart.timestamp cached ≠ last_ts) then
        (Some cached, Chart.timestamp cached)
      else (None, last_ts)
  | None => (None, last_ts)
  end.

(** ** The indicator arithmetic of [get_strategy] *)

(** [Series.diff()]: [nan] first, then the successive differences. *)
Definition diff (close : list Q) : list num :=
  match close with
  | [] => []
  | _ :: r => NaN :: zip_with (fun a b => Fin (b - a)) close r
  end.

(** [s.where(cond, other)]: the value is kept where [cond] holds. *)
Definition where_ (cond : num -> bool) (other : num) (s : list num) : list num :=
  map (fun d => if cond d then d else other) s.

(** The [w] samples that end at position [i]. *)
Definition window {A} (w i : nat) (s : list A) : list A :=
  take w (drop (S i - w) s).

(** [s.rolling(w).agg()], [min_periods = w]: no value before the window
    is filled, nor when it holds a [nan]. *)
Definition rolling (w : nat) (agg : list num -> num) (s : list num) : list num :=
  map (fun i =>
         if decide (S i < w)%nat then NaN
         else if existsb is_nan (window w i s) then NaN
         else agg (window w i s))
      (seq 0 (length s)).

Definition nsum (l : list num) : num := foldr nadd (Fin 0) l.

Definition mean (l : list num) : num :=
  ndiv (nsum l) (num_of_Z (Z.of_nat (length l))).

Definition rolling_mean (w : nat) (s : list num) : list num := rolling w mean s.

(** [close.ewm(span=span, adjust=False).mean()] *)
Fixpoint ewm_go (alpha prev : Q) (xs : list Q) : list Q :=
  match xs with
  | [] => []
  | x :: r =>
      let y := (alpha * x + (1 - alpha) * prev)%Q in
      y :: ewm_go alpha y r
  end.

Definition ewm_mean (span : Z) (xs : list Q) : list Q :=
  match xs with
  | [] => []
  | x0 :: r => x0 :: ewm_go (2 / (inject_Z span + 1))%Q x0 r
  end.

(** The RSI series, lines 465-469. *)
Definition rsi_gain (close : list Q) : list num :=
  rolling_mean 14 (where_ (fun d => ngt d (Fin 0)) (Fin 0) (diff close)).

Definition rsi_loss (close : list Q) : list num :=
  rolling_mean 14 (map nneg (where_ (fun d => nlt d (Fin 0)) (Fin 0) (diff close))).

Definition rsi_of (gain loss : num) : num :=
  let rs := ndiv gain loss in
  nsub (num_of_Z 100) (ndiv (num_of_Z 100) (nadd (num_of_Z 1) rs)).

Definition rsi_series (close : list Q) : list num :=
  zip_with rsi_of (rsi_gain close) (rsi_loss close).

(** The MACD series, lines 480-484. *)
Definition macd_line (close : list Q) : list Q :=
  zip_with Qminus (ewm_mean 12 close) (ewm_mean 26 close).

Definition signal_line (close : list Q) : list Q :=
  ewm_mean 9 (macd_line close).

Definition macd_hist (close : list Q) : list Q :=
  zip_with Qminus (macd_line close) (signal_line close).

Inductive rsi_class : Type := RsiOverbought | RsiOversold | RsiNeutral.
Inductive macd_class : Type := Bullish | Bearish.
Inductive bb_class : Type := BbOverbought | BbOversold | BbNormal.
Inductive ma_class : Type := GoldenCross | DeathCross | NoMA200.
Inductive overall_class : Type := BUY | SELL | HOLD.

(** Lines 472-477. *)
Definition classify_rsi (current_rsi : num) : rsi_class :=
  if ngt current_rsi (num_of_Z 70) then RsiOverbought
  else if nlt current_rsi (num_of_Z 30) then RsiOversold
  else RsiNeutral.

(** Lines 490-493. *)
Definition classify_macd (current_macd current_signal : num) : macd_class :=
  if ngt current_macd current_signal then Bullish else Bearish.

(** Lines 505-510. *)
Definition classify_bb (current_price curr_upper curr_lower : num) : bb_class :=
  if nge current_price curr_upper then BbOverbought
  else if nle current_price curr_lower then BbOversold
  else BbNormal.

(** Lines 546-551. *)
Definition classify_overall (buy_signals sell_signals : nat) : overall_class :=
  if decide (sell_signals < buy_signals)%nat then BUY
  else if decide (buy_signals < sell_signals)%nat then SELL
  else HOLD.

Record strategy : Type := mk_strategy {
  s_symbol : string;
  s_price : num;
  s_rsi : num; s_rsi_signal : rsi_class;
  s_macd : num; s_signal : num; s_histogram : num; s_macd_signal : macd_class;
  s_upper : num; s_lower : num; s_sma : num; s_bb_signal : bb_class;
  s_support : num; s_resistance : num;
  s_ma_cross : ma_class;
  s_overall : overall_class;
  (* the series handed to the three chart builders *)
  s_rsi_chart : list num;
  s_macd_chart : list Q * list Q * list Q;
  s_bb_chart : list num * list num * list num
}.

Section Strategy.

(** The square root of [rolling(20).std()]. *)
Variable sqrt : Q -> Q.

Definition nsqrt (x : num) : num :=
  match x with
  | Fin q => Fin (sqrt q)
  | PInf => PInf
  | NInf | NaN => NaN
  end.

(** The sample standard deviation ([ddof = 1]) of a window. *)
Definition std (l : list num) : num :=
  let m := mean l in
  nsqrt (ndiv (nsum (map (fun x => nmul (nsub x m) (nsub x m)) l))
              (num_of_Z (Z.of_nat (length l) - 1))).

Definition rolling_std (w : nat) (s : list num) : list num := rolling w std s.

(** The Bollinger series, lines 496-499. *)
Definition sma20 (close : list Q) : list num := rolling_mean 20 (map Fin close).
Definition std20 (close : list Q) : list num := rolling_std 20 (map Fin close).

Definition upper_band (close : list Q) : list num :=
  zip_with nadd (sma20 close) (map (fun s => nmul s (num_of_Z 2)) (std20 close)).

Definition lower_band (close : list Q) : list num :=
  zip_with nsub (sma20 close) (map (fun s => nmul s (num_of_Z 2)) (std20 close)).

(** The analysis of a series of closes, lines 461-585; [None] stands for
    an exception raised on the way.  The three figures are represented by
    the series they are drawn from. *)
Definition analyse (symbol : string) (close : list Q) : option strategy :=
  c ← iloc close (-1);
  let current_price := round (Fin c) 2 in
  (* RSI *)
  let rsi := rsi_series close in
  r ← iloc rsi (-1);
  let current_rsi := round r 2 in
  let rsi_signal := classify_rsi current_rsi in
  (* MACD *)
  m ← iloc (macd_line close) (-1);
  let current_macd := round (Fin m) 4 in
  s ← iloc (signal_line close) (-1);
  let current_signal := round (Fin s) 4 in
  g ← iloc (macd_hist close) (-1);
  let current_histogram := round (Fin g) 4 in
  let macd_signal := classify_macd current_macd current_signal in
  (* Bollinger *)
  u ← iloc (upper_band close) (-1);
  let curr_upper := round u 2 in
  l ← iloc (lower_band close) (-1);
  let curr_lower := round l 2 in
  a ← iloc (sma20 close) (-1);
  let curr_sma := round a 2 in
  let bb_signal := classify_bb current_price curr_upper curr_lower in
  (* support and resistance: close.tail(60) *)
  let recent := drop (length close - 60) close in
  let support := round (series_min recent) 2 in
  let resistance := round (series_max recent) 2 in
  (* moving average crossover *)
  let ma50 := rolling_mean 50 (map Fin close) in
  let ma200 :=
    if decide (200 <= length close)%nat
    then Some (rolling_mean 200 (map Fin close)) else None in
  cross ←
    match ma200 with
    | Some ma200 =>
        x ← iloc ma50 (-1);
        y ← iloc ma200 (-1);
        Some (if negb (is_nan x) && negb (is_nan y)
              then Some (ngt x y) else None)
    | None => Some None
    end;
  let ma_cross_signal :=
    match cross with
    | Some true => GoldenCross
    | Some false => DeathCross
    | None => NoMA200
    end in
  (* overall recommendation *)
  let b1 := if nlt current_rsi (num_of_Z 30) then 1%nat else 0%nat in
  let s1 := if nlt current_rsi (num_of_Z 30) then 0%nat
            else if ngt current_rsi (num_of_Z 70) then 1%nat else 0%nat in
  let b2 := if ngt current_macd current_signal then 1%nat else 0%nat in
  let s2 := if ngt current_macd current_signal then 0%nat else 1%nat in
  let b3 := if nle current_price curr_lower then 1%nat else 0%nat in
  let s3 := if nle current_price curr_lower then 0%nat
            else if nge current_price curr_upper then 1%nat else 0%nat in
  let b4 := match cross with Some true => 1%nat | _ => 0%nat end in
  let s4 := match cross with Some false => 1%nat | _ => 0%nat end in
  let buy_signals := (b1 + b2 + b3 + b4)%nat in
  let sell_signals := (s1 + s2 + s3 + s4)%nat in
  Some
    {| s_symbol := symbol; s_price := current_price;
       s_rsi := current_rsi; s_rsi_signal := rsi_signal;
       s_macd := current_macd; s_signal := current_signal;
       s_histogram := current_histogram; s_macd_signal := macd_signal;
       s_upper := curr_upper; s_lower := curr_lower; s_sma := curr_sma;
       s_bb_signal := bb_signal;
       s_support := support; s_resistance := resistance;
       s_ma_cross := ma_cross_signal;
       s_overall := classify_overall buy_signals sell_signals;
       s_rsi_chart := rsi;
       s_macd_chart := (macd_line close, signal_line close, macd_hist close);
       s_bb_chart := (sma20 close, upper_band close, lower_band close) |}.

Variable E : env.

(** [/api/strategy], lines 446-588. *)
Definition get_strategy (req : string) : M (response strategy) :=
  let symbol := normalize req in
  if negb (truthy symbol) then ret (Error 400)
  else
    try_except
      (hist ← history E symbol "1y" "1d";
       if is_empty hist || bool_decide (length hist < 30)%nat then ret (Error 404)
       else
         s ← lift_opt (analyse symbol (map Close hist));
         ret (Ok s))
      (ret (Error 500)).

End Strategy.

(** ** Specification-level definitions *)

Definition with_calls (w : world) (l : list call) : world :=
  {| cache := cache w; calls := l; ticks := ticks w |}.

Definition daily (sym : string) : call := mk_call sym "2d" "1d".

(** What the provider answers to the fetches of one ticker cycle, symbol
    by symbol, starting from the log [log]. *)
Fixpoint ticker_trace (E : env) (syms : list string) (log : list call)
    : list (string * fetched) :=
  match syms with
  | [] => []
  | sym :: rest =>
      (sym, yf E log (daily sym)) :: ticker_trace E rest (log ++ [daily sym])
  end.

(** A fetch that fails or returns no row. *)
Definition no_data (r : fetched) : Prop := r = Raised \/ r = Frame [].

Definition has_data (r : fetched) : bool :=
  match r with Frame (_ :: _) => true | _ => false end.

(** The quote of a symbol as the design document words it, on the closes
    rounded to cents: [cur] is the last close, [prev] the one before. *)
Definition spec_quote (sym : string) (r : fetched) : option Quote.t :=
  match r with
  | Raised => None
  | Frame h =>
      match reverse (map Close h) with
      | c1 :: c2 :: _ =>
          let cur := round (Fin c1) 2 in
          let prev := round (Fin c2) 2 in
          let change := round (nsub cur prev) 2 in
          let changePercent := round (nmul (ndiv change prev) (num_of_Z 100)) 2 in
          Some (Quote.mk sym cur change changePercent)
      | [c1] => Some (Quote.mk sym (round (Fin c1) 2) (num_of_Z 0) (num_of_Z 0))
      | [] => None
      end
  end.

Definition traced_quote (p : string * fetched) : option Quote.t :=
  spec_quote (fst p) (snd p).

(** The world a ticker cycle leaves behind. *)
Definition after_ticker (E : env) (w : world) : world :=
  snd (_bg_update_ticker E w).

(** C1 as the document states it: when no symbol yields data, the cycle
    keeps the quotes and the timestamp. *)
Definition stale_kept (E : env) (w : world) : Prop :=
  (forall sym log, In sym (ticker_symbols (cache w)) -> no_data (yf E log (daily sym))) ->
  ticker (cache (after_ticker E w)) = ticker (cache w) /\
  timestamp (cache (after_ticker E w)) = timestamp (cache w).

(** C2 as the document states it, [cur] and [prev] being the closes the
    provider returned. *)
Definition change_of_returned_closes (E : env) (w : world) : Prop :=
  forall sym h pre prev cur,
    In (sym, Frame h) (ticker_trace E (ticker_symbols (cache w)) (calls w)) ->
    map Close h = pre ++ [prev; cur] ->
    exists q,
      In q (ticker (cache (after_ticker E w))) /\
      Quote.symbol q = sym /\
      num_eq (Quote.change q) (round (nsub (Fin cur) (Fin prev)) 2) /\
      num_eq (Quote.changePct q)
             (round (nmul (ndiv (Quote.change q) (Fin prev)) (num_of_Z 100)) 2).

(** The streams over a run of polls: [obs] lists the cache as each poll
    finds it; the result is the events yielded and the final [last_ts]. *)
Fixpoint ticker_stream (last_ts : string) (obs : list live_cache)
    : list (list Quote.t * string) * string :=
  match obs with
  | [] => ([], last_ts)
  | lc :: rest =>
      let '(ev, ts) := ticker_poll last_ts lc in
      let '(evs, ts') := ticker_stream ts rest in
      (match ev with Some e => e :: evs | None => evs end, ts')
  end.

Fixpoint chart_stream (symbol last_ts : string) (obs : list live_cache)
    : list Chart.t * string :=
  match obs with
  | [] => ([], last_ts)
  | lc :: rest =>
      let '(ev, ts) := chart_poll symbol last_ts lc in
      let '(evs, ts') := chart_stream symbol ts rest in
      (match ev with Some e => e :: evs | None => evs end, ts')
  end.

(** *** Concrete worlds used by the examples *)

Definition at_time (h m s : nat) : datetime := mk_datetime 2024 3 5 h m s.

Definition flat_row (c : Q) : row := mk_row (at_time 9 30 0) c c c c.

(** The provider is down: every call raises. *)
Definition E_down : env :=
  mk_env (fun _ _ => Raised) (fun _ => at_time 10 0 2).

(** A world whose cache holds one quote, committed at 10:00:00. *)
Definition w_stale : world :=
  {| cache :=
       set_ticker [Quote.mk "AAPL" (Fin 190) (Fin 1) (Fin (1 # 2))] "10:00:00"
                  initial_cache;
     calls := []; ticks := 0 |}.

(** AAPL closed at 100.006 and then at 100.014; nothing else answers. *)
Definition E_cents : env :=
  mk_env (fun _ c =>
            if decide (c_symbol c = "AAPL"%string)
            then Frame [flat_row (100006 # 1000); flat_row (100014 # 1000)]
            else Raised)
         (fun _ => at_time 10 0 2).

(** *** The chart table and the focus *)

(** [len(prices) == len(times)] *)
Definition aligned (c : Chart.t) : Prop :=
  length (Chart.prices c) = length (Chart.times c).

(** A symbol that [upper().strip()] leaves as it is. *)
Definition normalized (s : string) : Prop := normalize s = s.

(** A string that does not start with a space. *)
Definition no_lead (s : string) : Prop :=
  match s with
  | EmptyString => True
  | String c _ => isspace c = false
  end.

(** What a writer of the chart table does to the cache: nothing, or one
    aligned entry put under [sym]. *)
Definition chart_effect (sym : string) (lc lc' : live_cache) : Prop :=
  lc' = lc \/ exists c, aligned c /\ lc' = set_chart sym c lc.

(** A computation that leaves the cache alone. *)
Definition keeps_cache {A} (m : M A) : Prop :=
  forall w, cache (snd (m w)) = cache w.

(** The steps of the system: a cycle of either refresher, or a request
    served by one of the routes that touch the world. *)
Inductive step (E : env) (w : world) : world -> Prop :=
  | step_ticker : step E w (snd (_bg_update_ticker E w))
  | step_chart : step E w (snd (_bg_update_chart E w))
  | step_live_price : step E w (snd (get_live_price w))
  | step_live_chart (req : string) : step E w (snd (get_live_chart E req w))
  | step_stream_chart (req : string) : step E w (snd (stream_chart req w))
  | step_strategy (sqrt : Q -> Q) (req : string) :
      step E w (snd (get_strategy sqrt E req w)).

(** The worlds the process can be in, from its start.  The refreshers
    and the routes run side by side: the chart refresher may write under a
    focus it read in an earlier world, and a live-chart request may write
    the entry it found missing earlier. *)
Inductive reachable (E : env) : world -> Prop :=
  | reach_init : reachable E initial_world
  | reach_step w w' : reachable E w -> step E w w' -> reachable E w'
  | reach_refresh_late w0 w sym :
      reachable E w0 -> chart_symbol (cache w0) = Some sym -> truthy sym = true ->
      reachable E w ->
      reachable E (snd (refresh_chart E sym w))
  | reach_bootstrap_late w req :
      reachable E w -> truthy (normalize req) = true ->
      reachable E (snd (bootstrap_chart E (normalize req) w)).

(** The calls a step added to the log. *)
Definition new_calls (w w' : world) : list call :=
  drop (length (calls w)) (calls w').

(** A provider that has three one-minute bars for TSLA and two for MSFT,
    and nothing for any other symbol. *)
Definition bar (h m : nat) (o hi lo c : Q) : row :=
  mk_row (at_time h m 0) o hi lo c.

Definition E_chart : env :=
  mk_env (fun _ c =>
            if decide (c_symbol c = "TSLA"%string) then
              Frame [bar 9 30 180 182 179 181; bar 9 31 181 183 180 182;
                     bar 9 32 182 184 181 (18325 # 100)]
            else if decide (c_symbol c = "MSFT"%string) then
              Frame [bar 9 30 410 411 409 410; bar 9 31 410 412 410 411]
            else Frame [])
         (fun n => at_time 10 0 n).

(** TSLA is requested, refreshed once, and then MSFT is focused. *)
Definition w_tsla : world :=
  snd (_bg_update_chart E_chart
         (snd (get_live_chart E_chart " tsla" initial_world))).

Definition w_msft : world := snd (stream_chart "msft" w_tsla).

(** The invariant of the cache: every key of the chart table and the
    focus are normalized symbols, and every entry is aligned. *)
Definition cache_inv (lc : live_cache) : Prop :=
  (forall k c, charts lc !! k = Some c -> normalized k /\ aligned c) /\
  (forall s, chart_symbol lc = Some s -> normalized s).

(** *** The indicators in the words of the design document *)

Definition Qsum (l : list Q) : Q := foldr Qplus 0%Q l.

(** The arithmetic mean of a list of samples. *)
Definition average (l : list Q) : Q :=
  (Qsum l / inject_Z (Z.of_nat (length l)))%Q.

(** The price changes from one sample to the next. *)
Definition deltas (close : list Q) : list Q :=
  zip_with (fun a b => (b - a)%Q) close (tail close).

(** The positive changes and the negated negative changes, position by
    position; the first position, which has no change, counts as 0. *)
Definition gains (close : list Q) : list Q :=
  match close with
  | [] => []
  | _ => 0%Q :: map (fun d => match (d ?= 0)%Q with Gt => d | _ => 0%Q end)
                    (deltas close)
  end.

Definition losses (close : list Q) : list Q :=
  match close with
  | [] => []
  | _ => map Qopp
           (0%Q :: map (fun d => match (d ?= 0)%Q with Lt => d | _ => 0%Q end)
                       (deltas close))
  end.

(** A strictly increasing series. *)
Fixpoint increasing (l : list Q) : bool :=
  match l with
  | [] => true
  | a :: r =>
      match r with
      | [] => true
      | b :: _ => match (a ?= b)%Q with Lt => increasing r | _ => false end
      end
  end.

(** C7 as the document states it: no RSI at the first 14 positions. *)
Definition rsi_undefined_first_14 (close : list Q) : Prop :=
  forall i, (i < 14)%nat -> (i < length close)%nat -> rsi_series close !! i = Some NaN.

(** The series 1, 2, ..., 30. *)
Definition rising : list Q := map (fun n => inject_Z (Z.of_nat n)) (seq 1 30).

(** A square root to run the examples with: the root truncated to twelve
    decimals. *)
Definition sqrt_approx (q : Q) : Q :=
  (Z.sqrt (Qnum q * 10 ^ 24 / Z.pos (Qden q)) # 10 ^ 12)%Q.

(** Thirty closes whose last RSI is 70.001: one rise of 70.001 and one
    fall of 29.999 in the last fourteen changes. *)
Definition near_70 : list Q :=
  replicate 17 100%Q ++ [(170001 # 1000)%Q] ++ replicate 12 (140002 # 1000)%Q.

Definition E_near_70 : env :=
  mk_env (fun _ _ => Frame (map flat_row near_70)) (fun n => at_time 10 0 n).

(** The request the strategy route sends for [req]. *)
Definition yearly (req : string) : call := mk_call (normalize req) "1y" "1d".

(** C8 as the document states it: the boundaries hold of the indicator
    values themselves, that is of the last RSI [r], the last MACD and
    signal values [m] and [sg], the last price [c] and the last bands
    [u] and [l]. *)
Definition classifies_values (sqrt : Q -> Q) (E : env) (req : string) (w : world)
    : Prop :=
  forall s hist r m sg c u l,
    fst (get_strategy sqrt E req w) = Ret (Ok s) ->
    yf E (calls w) (yearly req) = Frame hist ->
    iloc (rsi_series (map Close hist)) (-1) = Some r ->
    iloc (macd_line (map Close hist)) (-1) = Some m ->
    iloc (signal_line (map Close hist)) (-1) = Some sg ->
    iloc (map Close hist) (-1) = Some c ->
    iloc (upper_band sqrt (map Close hist)) (-1) = Some u ->
    iloc (lower_band sqrt (map Close hist)) (-1) = Some l ->
    (s_rsi_signal s =
       if ngt r (num_of_Z 70) then RsiOverbought
       else if nlt r (num_of_Z 30) then RsiOversold else RsiNeutral)
    /\ (s_macd_signal s = if ngt (Fin m) (Fin sg) then Bullish else Bearish)
    /\ (s_bb_signal s =
          if nge (Fin c) u then BbOverbought
          else if nle (Fin c) l then BbOversold else BbNormal).

(** The sample standard deviation of a list of samples, for the square
    root [sqrt]. *)
Definition deviation (sqrt : Q -> Q) (l : list Q) : Q :=
  sqrt (Qsum (map (fun x => (x - average l) * (x - average l)) l)
        / inject_Z (Z.of_nat (length l) - 1))%Q.

(** *** One cycle of the ticker refresher in which nothing is fetched *)

(** Every fetch of the cycle that starts in [w] fails or returns no row;
    what the provider would answer at any other time does not matter. *)
Definition cycle_all_fail (E : env) (w : world) : Prop :=
  Forall (fun p => no_data (snd p))
         (ticker_trace E (ticker_symbols (cache w)) (calls w)).

(** A short outage: the provider raises for the first eight calls it
    receives and answers from then on. *)
Definition E_outage : env :=
  mk_env (fun log _ =>
            if (length log <? 8)%nat then Raised else Frame [flat_row 100])
         (fun _ => at_time 10 0 2).

(** *** A cycle of the chart refresher that is under way when the focus moves *)

(** C4 as the document states it, for a cycle that read the focus [S]
    (line 65) before the focus moved and fetches and writes (lines 67-92)
    after it: the entry of [S] stays what it was. *)
Definition refocus_freezes_entry (E : env) : Prop :=
  forall w req S c,
    reachable E w ->
    chart_symbol (cache w) = Some S -> truthy S = true ->
    charts (cache w) !! S = Some c ->
    normalize req <> S ->
    charts (cache (snd (refresh_chart E S (snd (stream_chart req w))))) !! S
    = Some c.

(** *** The form of a normalized symbol *)

Definition is_lower (c : ascii) : bool :=
  let n := nat_of_ascii c in (97 <=? n)%nat && (n <=? 122)%nat.

(** No letter from [a] to [z]. *)
Fixpoint no_lower (s : string) : Prop :=
  match s with
  | EmptyString => True
  | String c r => is_lower c = false /\ no_lower r
  end.

Fixpoint last_char (s : string) : option ascii :=
  match s with
  | EmptyString => None
  | String c r =>
      match r with
      | EmptyString => Some c
      | _ => last_char r
      end
  end.

(** A string that does not end with a space. *)
Definition no_trail (s : string) : Prop :=
  match last_char s with
  | Some c => isspace c = false
  | None => True
  end.

(** A string of spaces only. *)
Fixpoint all_space (s : string) : Prop :=
  match s with
  | EmptyString => True
  | String c r => isspace c = true /\ all_space r
  end.

(** A string of the ASCII range, on which [upper] and [strip] are
    [str.upper] and [str.strip]. *)
Fixpoint is_ascii (s : string) : Prop :=
  match s with
  | EmptyString => True
  | String c r => (nat_of_ascii c < 128)%nat /\ is_ascii r
  end.

(** Upper case, with no space at either end. *)
Definition symbol_form (s : string) : Prop :=
  no_lead s /\ no_trail s /\ no_lower s.

(** The worlds the process can be in when every symbol that is requested
    is in the ASCII range. *)
Inductive ascii_reachable (E : env) : world -> Prop :=
  | areach_init : ascii_reachable E initial_world
  | areach_ticker w :
      ascii_reachable E w -> ascii_reachable E (snd (_bg_update_ticker E w))
  | areach_chart w :
      ascii_reachable E w -> ascii_reachable E (snd (_bg_update_chart E w))
  | areach_live_price w :
      ascii_reachable E w -> ascii_reachable E (snd (get_live_price w))
  | areach_live_chart w req :
      ascii_reachable E w -> is_ascii req ->
      ascii_reachable E (snd (get_live_chart E req w))
  | areach_stream_chart w req :
      ascii_reachable E w -> is_ascii req ->
      ascii_reachable E (snd (stream_chart req w))
  | areach_strategy w sqrt req :
      ascii_reachable E w -> is_ascii req ->
      ascii_reachable E (snd (get_strategy sqrt E req w))
  | areach_refresh_late w0 w sym :
      ascii_reachable E w0 -> chart_symbol (cache w0) = Some sym ->
      truthy sym = true -> ascii_reachable E w ->
      ascii_reachable E (snd (refresh_chart E sym w))
  | areach_bootstrap_late w req :
      ascii_reachable E w -> is_ascii req -> truthy (normalize req) = true ->
      ascii_reachable E (snd (bootstrap_chart E (normalize req) w)).

(** Every key of the chart table and the focus satisfy [P]. *)
Definition keys_satisfy (P : string -> Prop) (lc : live_cache) : Prop :=
  (forall k c, charts lc !! k = Some c -> P k) /\
  (forall s, chart_symbol lc = Some s -> P s).

(** ** Further specification-level definitions: the cache and the streams *)

(** The frame a chart fetch ends with, and the calls it made: the
    one-minute bars of the day or, when there are none, the five-minute
    bars of the last five days. *)
Definition fetch_intraday (E : env) (sym : string) (log : list call)
    : fetched * list call :=
  let c1 := mk_call sym "1d" "1m" in
  let c2 := mk_call sym "5d" "5m" in
  match yf E log c1 with
  | Raised => (Raised, [c1])
  | Frame [] => (yf E (log ++ [c1]) c2, [c1; c2])
  | Frame h => (Frame h, [c1])
  end.

(** The chart entry built from a frame and two readings of the clock. *)
Definition chart_entry (h : list row) (d t : datetime) : option Chart.t :=
  c ← iloc (map Close h) (-1);
  o ← iloc (map Open h) 0;
  let cur := round (Fin c) 2 in
  let opn := round (Fin o) 2 in
  let chg := round (nsub cur opn) 2 in
  Some {| Chart.prices := map Close h;
          Chart.times := map (strftime "%Y-%m-%d %H:%M") (map index h);
          Chart.price := cur; Chart.open := opn;
          Chart.change := chg;
          Chart.changePct := round (nmul (ndiv chg opn) (num_of_Z 100)) 2;
          Chart.high := round (series_max (map High h)) 2;
          Chart.low := round (series_min (map Low h)) 2;
          Chart.date := strftime "%b %d, %Y" d;
          Chart.timestamp := strftime "%H:%M:%S" t |}.

Definition with_focus (sym : string) (w : world) : world :=
  {| cache := set_chart_symbol sym (cache w); calls := calls w; ticks := ticks w |}.

(** No two neighbours of the list are equal. *)
Fixpoint adjacent_distinct (l : list string) : Prop :=
  match l with
  | [] => True
  | a :: r =>
      match r with
      | [] => True
      | b :: _ => a <> b /\ adjacent_distinct r
      end
  end.

(** A timestamp as [strftime("%H:%M:%S")] writes it: eight characters. *)
Definition stamp (s : string) : Prop := String.length s = 8%nat.

(** The timestamps of the cache are stamps; only a cache that never
    committed quotes has the empty timestamp. *)
Definition stamps_inv (lc : live_cache) : Prop :=
  ((timestamp lc = ""%string /\ ticker lc = []) \/ stamp (timestamp lc)) /\
  (forall k c, charts lc !! k = Some c -> stamp (Chart.timestamp c)).

(** ** Further specification-level definitions: the indicators *)

(** A strictly decreasing series. *)
Fixpoint decreasing (l : list Q) : bool :=
  match l with
  | [] => true
  | a :: r =>
      match r with
      | [] => true
      | b :: _ => match (a ?= b)%Q with Gt => decreasing r | _ => false end
      end
  end.

(** A value of the RSI scale: [nan], or a number from 0 to 100. *)
Definition rsi_value (v : num) : Prop :=
  v = NaN \/ exists q, v = Fin q /\ (0 <= q <= 100)%Q.

(** The moving-average crossover of [analyse]: [None] without 200 samples
    or when an average is [nan], else whether MA50 > MA200. *)
Definition cross_of (close : list Q) : option (option bool) :=
  if decide (200 <= length close)%nat then
    x ← iloc (rolling_mean 50 (map Fin close)) (-1);
    y ← iloc (rolling_mean 200 (map Fin close)) (-1);
    Some (if negb (is_nan x) && negb (is_nan y) then Some (ngt x y) else None)
  else Some None.

(** The votes of the overall recommendation, lines 530-544: bullish and
    bearish counts. *)
Definition votes (rsi macd sig price lower upper : num) (cross : option bool)
    : nat * nat :=
  let b1 := if nlt rsi (num_of_Z 30) then 1%nat else 0%nat in
  let s1 := if nlt rsi (num_of_Z 30) then 0%nat
            else if ngt rsi (num_of_Z 70) then 1%nat else 0%nat in
  let b2 := if ngt macd sig then 1%nat else 0%nat in
  let s2 := if ngt macd sig then 0%nat else 1%nat in
  let b3 := if nle price lower then 1%nat else 0%nat in
  let s3 := if nle price lower then 0%nat
            else if nge price upper then 1%nat else 0%nat in
  let b4 := match cross with Some true => 1%nat | _ => 0%nat end in
  let s4 := match cross with Some false => 1%nat | _ => 0%nat end in
  ((b1 + b2 + b3 + b4)%nat, (s1 + s2 + s3 + s4)%nat).

(** Thirty closes that only fall, and providers that return the rising
    and the falling series. *)
Definition falling : list Q := rev rising.

Definition E_rising : env :=
  mk_env (fun _ _ => Frame (map flat_row rising)) (fun n => at_time 10 0 n).

Definition E_falling : env :=
  mk_env (fun _ _ => Frame (map flat_row falling)) (fun n => at_time 10 0 n).

(** The mean of the last [w] closes. *)
Definition last_mean (w : nat) (close : list Q) : Q :=
  average (drop (length close - w) close).

(** A provider that returns [n] rows at the one price 100. *)
Definition E_flat (n : nat) : env :=
  mk_env (fun _ _ => Frame (replicate n (flat_row 100))) (fun k => at_time 10 0 k).

(** Every value of a series lies between [lo] and [hi]. *)
Definition within (lo hi : Q) (l : list Q) : Prop :=
  Forall (fun x => (lo <= x <= hi)%Q) l.

(** ** The news route: [get_news_sentiment], lines 221-301 *)

Module News.

(** An item of [ticker.news], read with [item.get]: a key that is missing
    is [None]. *)
Record item : Type := mk_item {
  title : option string; publisher : option string; link : option string
}.

Inductive sentiment : Type := Positive | Negative | Neutral.

Inductive mood : Type := OverallBullish | OverallBearish | OverallNeutral.

(** A row of the answer.  Its date, which is read off the local time
    zone, is left out. *)
Record entry : Type := mk_entry {
  e_title : string; e_publisher : string; e_link : string;
  e_sentiment : sentiment; e_score : Q
}.

Record summary : Type := mk_summary {
  news : list entry;
  positive : nat; negative : nat; neutral : nat;
  overall : mood; overallScore : Q
}.

(** What [ticker.news] gives: it raises, or it is a list of items (the
    empty list when the attribute is missing). *)
Inductive feed : Type :=
  | FeedRaised
  | Feed (items : list item).

(** The variables of the loop, lines 233-236. *)
Record counts : Type := mk_counts {
  results : list entry; pos : nat; neg : nat; neu : nat
}.

End News.

Section Sentiment.

(** [analyzer.polarity_scores(title)["compound"]] *)
Variable compound : string -> Q.

(** Lines 253-261. *)
Definition news_classify (c : Q) : News.sentiment :=
  if Qle_bool (5 # 100) c then News.Positive
  else if Qle_bool c (- (5 # 100)) then News.Negative
  else News.Neutral.

(** Lines 239-270, the row appended for an item. *)
Definition news_entry (it : News.item) : News.entry :=
  let title := default ""%string (News.title it) in
  let c := compound title in
  News.mk_entry title
    (default "Unknown"%string (News.publisher it))
    (default "#"%string (News.link it))
    (news_classify c) (Qround_to 3 c).

(** One turn of the loop. *)
Definition news_visit (st : News.counts) (it : News.item) : News.counts :=
  let e := news_entry it in
  match News.e_sentiment e with
  | News.Positive =>
      News.mk_counts (News.results st ++ [e])
        (S (News.pos st)) (News.neg st) (News.neu st)
  | News.Negative =>
      News.mk_counts (News.results st ++ [e])
        (News.pos st) (S (News.neg st)) (News.neu st)
  | News.Neutral =>
      News.mk_counts (News.results st ++ [e])
        (News.pos st) (News.neg st) (S (News.neu st))
  end.

(** [for item in news_items[:15]] *)
Definition news_tally (items : list News.item) : News.counts :=
  foldl news_visit (News.mk_counts [] 0 0 0) (take 15 items).

(** Lines 272-283. *)
Definition news_score (positive negative total : nat) : Q :=
  if decide (0 < total)%nat
  then Qround_to 2 ((inject_Z (Z.of_nat positive) - inject_Z (Z.of_nat negative))
                    / inject_Z (Z.of_nat total))
  else 0%Q.

Definition news_mood (overall_score : Q) : News.mood :=
  match (overall_score ?= 2 # 10)%Q with
  | Gt => News.OverallBullish
  | _ =>
      match (overall_score ?= - (2 # 10))%Q with
      | Lt => News.OverallBearish
      | _ => News.OverallNeutral
      end
  end.

Definition news_summary (items : list News.item) : News.summary :=
  let st := news_tally items in
  let total := (News.pos st + News.neg st + News.neu st)%nat in
  let overall_score := news_score (News.pos st) (News.neg st) total in
  News.mk_summary (News.results st)
    (News.pos st) (News.neg st) (News.neu st)
    (news_mood overall_score) overall_score.

(** [/api/news]: the provider is asked for the items of the normalized
    symbol. *)
Definition get_news_sentiment (provider : string -> News.feed) (req : string)
    : response News.summary :=
  let symbol := normalize req in
  if negb (truthy symbol) then Error 400
  else
    match provider symbol with
    | News.FeedRaised => Error 500
    | News.Feed items => Ok (news_summary items)
    end.

End Sentiment.

(** The number of rows labelled [s]. *)
Definition sentiment_eqb (a b : News.sentiment) : bool :=
  match a, b with
  | News.Positive, News.Positive
  | News.Negative, News.Negative
  | News.Neutral, News.Neutral => true
  | _, _ => false
  end.

Definition labelled (s : News.sentiment) (l : list News.entry) : nat :=
  length (List.filter (fun e => sentiment_eqb (News.e_sentiment e) s) l).

(** ** The stock route: the metrics of [get_stock_data], lines 132-136,
    and the series of [_build_roi_chart], lines 773-774 *)

Record metrics : Type := mk_metrics {
  currentPrice : num; startPrice : num; roi : num;
  high52w : num; low52w : num
}.

Definition stock_metrics (close : list Q) : option metrics :=
  c ← iloc close (-1);
  s ← iloc close 0;
  let current_price := round (Fin c) 2 in
  let start_price := round (Fin s) 2 in
  let roi :=
    round (nmul (ndiv (nsub current_price start_price) start_price)
                (num_of_Z 100)) 2 in
  let high_52w := round (series_max close) 2 in
  let low_52w := round (series_min close) 2 in
  Some (mk_metrics current_price start_price roi high_52w low_52w).

Definition roi_series (close : list Q) : option (list num) :=
  start ← iloc close 0;
  Some (map (fun c => nmul (ndiv (nsub (Fin c) (Fin start)) (Fin start))
                           (num_of_Z 100))
            close).

(** ** The options route: [get_options], lines 633-711, and the payoff
    of [_build_iron_condor_chart], lines 919-945 *)

(** A row of [chain.calls] or [chain.puts].  A volume or an open interest
    that is missing ([nan]) is [None]; the columns themselves are there. *)
Record contract : Type := mk_contract {
  strike : Q; lastPrice : num; volume : option N; openInterest : option N
}.

(** [int(table[col].sum())]: missing values are skipped. *)
Definition column_sum (col : contract -> option N) (table : list contract) : Z :=
  Z.of_N (foldr (fun c acc => (default 0 (col c) + acc)%N) 0%N table).

Inductive pc_class : Type := PcBearish | PcBullish | PcNeutral.

Record put_call : Type := mk_put_call {
  callVolume : Z; putVolume : Z; callOI : Z; putOI : Z;
  ratioVolume : Q; ratioOI : Q; pc_signal : pc_class
}.

(** [round(put / call, 3) if call > 0 else 0] *)
Definition pc_ratio (put call : Z) : Q :=
  if (0 <? call)%Z then Qround_to 3 (inject_Z put / inject_Z call) else 0%Q.

(** Lines 634-647. *)
Definition put_call_ratio (calls puts : list contract) : put_call :=
  let call_vol := column_sum volume calls in
  let put_vol := column_sum volume puts in
  let call_oi := column_sum openInterest calls in
  let put_oi := column_sum openInterest puts in
  let pc_ratio_vol := pc_ratio put_vol call_vol in
  let pc_ratio_oi := pc_ratio put_oi call_oi in
  let signal :=
    match (pc_ratio_oi ?= 12 # 10)%Q with
    | Gt => PcBearish
    | _ => match (pc_ratio_oi ?= 7 # 10)%Q with
           | Lt => PcBullish
           | _ => PcNeutral
           end
    end in
  mk_put_call call_vol put_vol call_oi put_oi pc_ratio_vol pc_ratio_oi signal.

(** [sort_values]: an insertion sort for the order [le].  Rows that are
    equal for [le] keep the order of the table. *)
Fixpoint insert_by {A} (le : A -> A -> bool) (x : A) (l : list A) : list A :=
  match l with
  | [] => [x]
  | y :: r => if le x y then x :: l else y :: insert_by le x r
  end.

Definition sort_by {A} (le : A -> A -> bool) (l : list A) : list A :=
  foldr (insert_by le) [] l.

(** [puts[puts["strike"] < current_price].sort_values("strike", ascending=False)] *)
Definition otm_puts (current_price : Q) (puts : list contract) : list contract :=
  sort_by (fun a b => Qle_bool (strike b) (strike a))
          (List.filter (fun c => negb (Qle_bool current_price (strike c))) puts).

(** [calls[calls["strike"] > current_price].sort_values("strike", ascending=True)] *)
Definition otm_calls (current_price : Q) (calls : list contract) : list contract :=
  sort_by (fun a b => Qle_bool (strike a) (strike b))
          (List.filter (fun c => negb (Qle_bool (strike c) current_price)) calls).

Inductive condor_class : Type := NetCredit | NetDebit | NotEnough.

Record condor : Type := mk_condor {
  sellPut : Q; buyPut : Q; sellCall : Q; buyCall : Q;
  netCredit : num; maxLoss : num; ic_signal : condor_class
}.

(** [t.iloc[3] if len(t) > 3 else t.iloc[-1]] *)
Definition further_otm (t : list contract) : option contract :=
  if decide (3 < length t)%nat then iloc t 3 else iloc t (-1).

(** Python's [max(a, b)] on two numbers. *)
Definition pymax (a b : Q) : Q := if Qle_bool b a then a else b.

(** Lines 665-711; [None] stands for an exception. *)
Definition iron_condor (current_price : Q) (calls puts : list contract)
    : option condor :=
  let otm_p := otm_puts current_price puts in
  let otm_c := otm_calls current_price calls in
  if bool_decide (2 <= length otm_p)%nat && bool_decide (2 <= length otm_c)%nat then
    sell_put ← iloc otm_p 1;
    buy_put ← further_otm otm_p;
    sell_call ← iloc otm_c 1;
    buy_call ← further_otm otm_c;
    let sell_put_strike := Qround_to 2 (strike sell_put) in
    let buy_put_strike := Qround_to 2 (strike buy_put) in
    let sell_call_strike := Qround_to 2 (strike sell_call) in
    let buy_call_strike := Qround_to 2 (strike buy_call) in
    let sp_prem := round (lastPrice sell_put) 2 in
    let bp_prem := round (lastPrice buy_put) 2 in
    let sc_prem := round (lastPrice sell_call) 2 in
    let bc_prem := round (lastPrice buy_call) 2 in
    let net_credit := round (nsub (nadd sp_prem sc_prem) (nadd bp_prem bc_prem)) 2 in
    let put_width := Qround_to 2 (sell_put_strike - buy_put_strike) in
    let call_width := Qround_to 2 (buy_call_strike - sell_call_strike) in
    let max_width := pymax put_width call_width in
    let max_loss :=
      if ngt (Fin max_width) net_credit
      then round (nsub (Fin max_width) net_credit) 2 else Fin 0 in
    let signal := if ngt net_credit (Fin 0) then NetCredit else NetDebit in
    Some (mk_condor sell_put_strike buy_put_strike sell_call_strike buy_call_strike
                    net_credit max_loss signal)
  else
    Some (mk_condor 0 0 0 0 (Fin 0) (Fin 0) NotEnough).

(** The profit or loss at expiry for the price [p], lines 937-944. *)
Definition condor_payoff (ic : condor) (p : Q) : num :=
  let lp := pymax (buyPut ic - p) 0 in
  let spt := (- pymax (sellPut ic - p) 0)%Q in
  let sct := (- pymax (p - sellCall ic) 0)%Q in
  let lc := pymax (p - buyCall ic) 0 in
  round (nadd (Fin (lp + spt + sct + lc)) (netCredit ic)) 2.

(** [np.linspace(a, b, n)] *)
Definition linspace (a b : Q) (n : nat) : list Q :=
  map (fun i => (a + inject_Z (Z.of_nat i) * ((b - a) / inject_Z (Z.of_nat n - 1)))%Q)
      (seq 0 n).

(** The points of the payoff diagram; no diagram when [sellPut] is 0. *)
Definition iron_condor_chart (ic : condor) : option (list (Q * num)) :=
  if Qeq_bool (sellPut ic) 0 then None
  else
    Some (map (fun p => (p, condor_payoff ic p))
              (linspace (buyPut ic * (9 # 10)) (buyCall ic * (11 # 10)) 300)).

(** Every premium of a table is a number. *)
Definition priced (table : list contract) : Prop :=
  Forall (fun c => exists q, lastPrice c = Fin q) table.

(** An option chain to run the examples with, around a price of 100. *)
Definition chain_puts : list contract :=
  [mk_contract 85 (Fin (3 # 10)) (Some 10%N) (Some 100%N);
   mk_contract 90 (Fin (6 # 10)) (Some 20%N) (Some 200%N);
   mk_contract 95 (Fin (15 # 10)) None (Some 300%N);
   mk_contract 105 (Fin 6) (Some 5%N) None].

Definition chain_calls : list contract :=
  [mk_contract 95 (Fin 7) (Some 4%N) (Some 50%N);
   mk_contract 105 (Fin (14 # 10)) (Some 30%N) (Some 250%N);
   mk_contract 110 (Fin (5 # 10)) (Some 15%N) (Some 150%N);
   mk_contract 115 (Fin (2 # 10)) None (Some 80%N)].

(** A list in the order [le]: every element is [le] all the later ones. *)
Fixpoint sorted_by {A} (le : A -> A -> bool) (l : list A) : Prop :=
  match l with
  | [] => True
  | x :: r => Forall (fun y => le x y = true) r /\ sorted_by le r
  end.

(** A chain with exactly two strikes out of the money on each side of
    100. *)
Definition thin_puts : list contract :=
  [mk_contract 90 (Fin (6 # 10)) (Some 20%N) (Some 200%N);
   mk_contract 95 (Fin (15 # 10)) None (Some 300%N)].

Definition thin_calls : list contract :=
  [mk_contract 105 (Fin (14 # 10)) (Some 30%N) (Some 250%N);
   mk_contract 110 (Fin (5 # 10)) (Some 15%N) (Some 150%N)].

(** * Proofs *)

(** ** Running the monad *)

Ltac run :=
  unfold try_except, lift_opt, read_cache, write_cache, history, now,
    mbind, M_bind, bind, mret, M_ret, ret, raise in *; simpl in *.

(** ** Indexing from the end *)

Lemma iloc_last {A} (l : list A) : iloc l (-1) = head (reverse l).
Proof.
  unfold iloc. simpl.
  destruct l as [|x l] using rev_ind; [reflexivity|].
  rewrite reverse_snoc. simpl. rewrite length_app. simpl.
  replace (Z.of_nat (length l + 1) + -1)%Z with (Z.of_nat (length l)) by lia.
  destruct (Z.ltb_spec (Z.of_nat (length l)) 0); [lia|].
  rewrite Nat2Z.id. rewrite lookup_app_r by lia.
  replace (length l - length l)%nat with 0%nat by lia. reflexivity.
Qed.

Lemma iloc_last_but_one {A} (l : list A) : iloc l (-2) = reverse l !! 1%nat.
Proof.
  unfold iloc. simpl.
  destruct l as [|x l _] using rev_ind; [reflexivity|].
  rewrite reverse_snoc. simpl.
  destruct l as [|y l _] using rev_ind; [reflexivity|].
  rewrite reverse_snoc. simpl. rewrite !length_app. simpl.
  replace (Z.of_nat (length l + 1 + 1) + -2)%Z with (Z.of_nat (length l)) by lia.
  destruct (Z.ltb_spec (Z.of_nat (length l)) 0); [lia|].
  rewrite Nat2Z.id. rewrite <- app_assoc. rewrite lookup_app_r by lia.
  replace (length l - length l)%nat with 0%nat by lia. reflexivity.
Qed.

Lemma iloc_first {A} (l : list A) : iloc l 0 = head l.
Proof. unfold iloc. simpl. destruct l; reflexivity. Qed.

(** ** The ticker refresher *)

Lemma ticker_quote_run E sym w :
  ticker_quote E sym w =
  (Ret (spec_quote sym (yf E (calls w) (daily sym))),
   with_calls w (calls w ++ [daily sym])).
Proof.
  unfold ticker_quote, spec_quote, with_calls, daily. run.
  destruct (yf E (calls w) _) as [|h]; [reflexivity|].
  rewrite iloc_last, iloc_last_but_one.
  assert (Hlen : length (reverse (map Close h)) = length h)
    by (rewrite length_reverse, length_map; reflexivity).
  destruct (reverse (map Close h)) as [|c1 [|c2 r]]; simpl in *.
  - destruct (decide (2 <= length h)%nat); [lia|].
    destruct (decide (length h = 1%nat)); [lia|]. reflexivity.
  - destruct (decide (2 <= length h)%nat); [lia|].
    destruct (decide (length h = 1%nat)); [|lia]. reflexivity.
  - destruct (decide (2 <= length h)%nat); [|lia]. reflexivity.
Qed.

Lemma ticker_for_run E syms : forall results w,
  ticker_for E syms results w =
  (Ret (results ++ omap traced_quote (ticker_trace E syms (calls w))),
   with_calls w (calls w ++ map daily syms)).
Proof.
  induction syms as [|sym rest IH]; intros results w; simpl.
  - unfold with_calls. rewrite !app_nil_r. destruct w; reflexivity.
  - unfold mbind, M_bind, bind. rewrite ticker_quote_run.
    rewrite IH. simpl. unfold traced_quote at 2. simpl.
    rewrite <- !app_assoc. simpl.
    destruct (spec_quote sym _); simpl; rewrite <- ?app_assoc; reflexivity.
Qed.

Lemma bg_update_ticker_run E w :
  _bg_update_ticker E w =
  (Ret tt,
   {| cache := set_ticker
                 (omap traced_quote
                       (ticker_trace E (ticker_symbols (cache w)) (calls w)))
                 (strftime "%H:%M:%S" (clock E (ticks w))) (cache w);
      calls := calls w ++ map daily (ticker_symbols (cache w));
      ticks := S (ticks w) |}).
Proof.
  unfold _bg_update_ticker, try_except, mbind, M_bind, bind, read_cache.
  rewrite ticker_for_run. reflexivity.
Qed.

Lemma ticker_trace_symbols E syms : forall log,
  map fst (ticker_trace E syms log) = syms.
Proof. induction syms; intros; simpl; f_equal; auto. Qed.

Lemma ticker_trace_responses E syms : forall log p,
  In p (ticker_trace E syms log) ->
  exists log', snd p = yf E log' (daily (fst p)) /\ In (fst p) syms.
Proof.
  induction syms as [|s r IH]; intros log p; simpl; [tauto|].
  intros [<-|H]; simpl; [eauto|].
  destruct (IH _ _ H) as (log' & ? & ?); eauto.
Qed.

Lemma spec_quote_symbol sym r q : spec_quote sym r = Some q -> Quote.symbol q = sym.
Proof.
  unfold spec_quote. destruct r as [|h]; [discriminate|].
  destruct (reverse (map Close h)) as [|? [|? ?]]; intros [= <-]; reflexivity.
Qed.

Lemma spec_quote_has_data sym r : is_Some (spec_quote sym r) <-> has_data r = true.
Proof.
  unfold spec_quote, has_data. destruct r as [|h].
  - split; [intros [? [=]]|discriminate].
  - destruct h as [|x h]; simpl.
    + split; [intros [? [=]]|discriminate].
    + rewrite reverse_cons.
      destruct (reverse (map Close h)) as [|? [|? ?]]; simpl; split; eauto.
Qed.

Lemma spec_quote_no_data sym r : no_data r -> spec_quote sym r = None.
Proof. intros [->| ->]; reflexivity. Qed.

(** ** The facts about the ticker refresher *)

(** C1, as stated, fails: with the provider down, the cycle replaces the
    cached quotes by the empty list and stamps the cache with the time of
    the cycle. *)
Lemma C1_all_fail_overwrites : ~ stale_kept E_down w_stale.
Proof.
  unfold stale_kept. intros H.
  destruct H as [H _].
  - intros sym log _. left. reflexivity.
  - vm_compute in H. discriminate H.
Qed.

(** C1, amended: when every fetch of a cycle fails or returns no row,
    the cycle commits the empty quote list and the clock reading of the
    cycle as timestamp; the watchlist, the chart table and the focus are
    left as they were.  Only the fetches of this cycle matter: the
    provider may answer before and after. *)
Theorem C1_all_fail_commits_empty (E : env) (w : world) :
  cycle_all_fail E w ->
  cache (after_ticker E w) =
    set_ticker [] (strftime "%H:%M:%S" (clock E (ticks w))) (cache w).
Proof.
  unfold cycle_all_fail. intros Hdown.
  unfold after_ticker. rewrite bg_update_ticker_run. simpl.
  f_equal.
  induction Hdown as [|p l Hp _ IH]; [reflexivity|].
  simpl. unfold traced_quote at 1.
  rewrite (spec_quote_no_data _ _ Hp). exact IH.
Qed.

Lemma C1_all_fail_commits_empty_witness :
  cycle_all_fail E_outage w_stale /\
  (yf E_outage (calls (after_ticker E_outage w_stale)) (daily "AAPL")
   = Frame [flat_row 100]) /\
  (cache (after_ticker E_outage w_stale)
   = set_ticker [] "10:00:02" (cache w_stale)).
Proof.
  assert (H : cycle_all_fail E_outage w_stale).
  { unfold cycle_all_fail. simpl.
    repeat (apply List.Forall_cons; [left; reflexivity|]). apply List.Forall_nil. }
  split; [exact H|]. split; [reflexivity|].
  apply (C1_all_fail_commits_empty E_outage w_stale H).
Defined.

(** C2, as stated, fails: AAPL closes at 100.006 and then at 100.014; the
    committed change is 0.00, while the rounded difference of the two
    closes is 0.01. *)
Lemma C2_change_is_not_of_returned_closes :
  ~ change_of_returned_closes E_cents initial_world.
Proof.
  intros H.
  destruct (H "AAPL"%string
              [flat_row (100006 # 1000); flat_row (100014 # 1000)]
              [] (100006 # 1000)%Q (100014 # 1000)%Q) as (q & Hin & _ & Hchg & _).
  - vm_compute. left. reflexivity.
  - reflexivity.
  - vm_compute in Hin. destruct Hin as [<-|[]].
    vm_compute in Hchg. discriminate Hchg.
Qed.

(** C2, amended: the quotes a cycle commits are those of [spec_quote] over
    the answers of the provider, in which [cur] and [prev] are the last
    two closes each rounded to two decimals: [price = cur],
    [change = round(cur - prev, 2)],
    [changePct = round(change / prev * 100, 2)]; one close gives change
    and changePct 0; a fetch that raises or returns no row adds no quote. *)
Theorem C2_committed_quotes (E : env) (w : world) :
  ticker (cache (after_ticker E w)) =
  omap traced_quote (ticker_trace E (ticker_symbols (cache w)) (calls w))
  /\ (forall sym h pre c2 c1,
        map Close h = pre ++ [c2; c1] ->
        let cur := round (Fin c1) 2 in
        let prev := round (Fin c2) 2 in
        let change := round (nsub cur prev) 2 in
        spec_quote sym (Frame h) =
        Some (Quote.mk sym cur change
                (round (nmul (ndiv change prev) (num_of_Z 100)) 2)))
  /\ (forall sym h c1,
        map Close h = [c1] ->
        spec_quote sym (Frame h) =
        Some (Quote.mk sym (round (Fin c1) 2) (num_of_Z 0) (num_of_Z 0)))
  /\ (forall sym r, no_data r -> spec_quote sym r = None).
Proof.
  split; [|split; [|split]].
  - unfold after_ticker. rewrite bg_update_ticker_run. reflexivity.
  - intros sym h pre c2 c1 Hc. unfold spec_quote. rewrite Hc.
    rewrite reverse_app. reflexivity.
  - intros sym h c1 Hc. unfold spec_quote. rewrite Hc. reflexivity.
  - apply spec_quote_no_data.
Qed.

Lemma C2_committed_quotes_witness :
  map Quote.symbol (ticker (cache (after_ticker E_cents initial_world))) =
    ["AAPL"%string] /\
  spec_quote "AAPL" (Frame [flat_row (100006 # 1000); flat_row (100014 # 1000)]) =
    Some (Quote.mk "AAPL" (round (Fin (100014 # 1000)) 2)
            (round (nsub (round (Fin (100014 # 1000)) 2)
                         (round (Fin (100006 # 1000)) 2)) 2)
            (round (nmul (ndiv (round (nsub (round (Fin (100014 # 1000)) 2)
                                            (round (Fin (100006 # 1000)) 2)) 2)
                               (round (Fin (100006 # 1000)) 2))
                         (num_of_Z 100)) 2)).
Proof.
  destruct (C2_committed_quotes E_cents initial_world) as (Hq & Htwo & _).
  split.
  - rewrite Hq. vm_compute. reflexivity.
  - apply (Htwo "AAPL"%string
             [flat_row (100006 # 1000); flat_row (100014 # 1000)] []).
    reflexivity.
Defined.

(** C6: the committed quotes follow the watchlist order: their symbols
    are the watchlist symbols whose fetch returned at least one row, in
    the order of the watchlist, whatever the provider answered. *)
Theorem C6_watchlist_order (E : env) (w : world) :
  let trace := ticker_trace E (ticker_symbols (cache w)) (calls w) in
  map fst trace = ticker_symbols (cache w) /\
  map Quote.symbol (ticker (cache (after_ticker E w))) =
    map fst (filter (fun p => has_data (snd p) = true) trace) /\
  sublist (map Quote.symbol (ticker (cache (after_ticker E w))))
          (ticker_symbols (cache w)).
Proof.
  intros trace.
  assert (Hsym : map fst trace = ticker_symbols (cache w))
    by apply ticker_trace_symbols.
  assert (Hq : map Quote.symbol (ticker (cache (after_ticker E w))) =
               map fst (filter (fun p => has_data (snd p) = true) trace)).
  { unfold after_ticker. rewrite bg_update_ticker_run. simpl. fold trace.
    clear Hsym. induction trace as [|[sym r] l IH]; [reflexivity|].
    simpl. rewrite filter_cons. simpl. unfold traced_quote at 1. simpl.
    destruct (spec_quote sym r) as [q|] eqn:Hs.
    - assert (has_data r = true) by (apply (spec_quote_has_data sym); eauto).
      destruct (decide (has_data r = true)); [|contradiction].
      simpl. rewrite (spec_quote_symbol _ _ _ Hs). f_equal. apply IH.
    - assert (has_data r <> true).
      { intros Hd. apply (spec_quote_has_data sym) in Hd.
        rewrite Hs in Hd. destruct Hd as [? [=]]. }
      destruct (decide (has_data r = true)); [contradiction|]. apply IH. }
  split; [exact Hsym|]. split; [exact Hq|].
  rewrite Hq, <- Hsym. apply (fmap_sublist fst), sublist_filter.
Qed.

(** ** The streams *)

Lemma ticker_poll_cases last_ts lc :
  (timestamp lc <> last_ts /\ ticker lc <> [] /\
   ticker_poll last_ts lc = (Some (ticker lc, timestamp lc), timestamp lc))
  \/ ((timestamp lc = last_ts \/ ticker lc = []) /\
      ticker_poll last_ts lc = (None, last_ts)).
Proof.
  unfold ticker_poll.
  destruct (decide (timestamp lc = last_ts)) as [He|Hn].
  - right. rewrite bool_decide_eq_false_2 by (intros Hc; apply Hc, He). auto.
  - rewrite (bool_decide_eq_true_2 _ Hn).
    destruct (decide (ticker lc = [])) as [Hd|Hd].
    + right. rewrite (bool_decide_eq_true_2 _ Hd). auto.
    + left. rewrite (bool_decide_eq_false_2 _ Hd). auto.
Qed.

Lemma chart_poll_cases symbol last_ts lc :
  (exists c, charts lc !! symbol = Some c /\ Chart.timestamp c <> last_ts /\
             chart_poll symbol last_ts lc = (Some c, Chart.timestamp c))
  \/ ((forall c, charts lc !! symbol = Some c -> Chart.timestamp c = last_ts) /\
      chart_poll symbol last_ts lc = (None, last_ts)).
Proof.
  unfold chart_poll. destruct (charts lc !! symbol) as [c|].
  - destruct (decide (Chart.timestamp c = last_ts)) as [He|Hn].
    + right. rewrite bool_decide_eq_false_2 by (intros Hc; apply Hc, He).
      split; [|reflexivity]. intros ? [= <-]. exact He.
    + left. rewrite (bool_decide_eq_true_2 _ Hn). eauto.
  - right. split; [discriminate|reflexivity].
Qed.

Lemma default_last_cons {A} (d a : A) (l : list A) :
  default d (last (a :: l)) = default a (last l).
Proof.
  revert d a. induction l as [|b l IH]; intros d a; [reflexivity|].
  change (last (a :: b :: l)) with (last (b :: l)).
  rewrite (IH d b), (IH a b). reflexivity.
Qed.

Lemma ticker_stream_last ts0 obs :
  snd (ticker_stream ts0 obs) =
  default ts0 (last (map snd (fst (ticker_stream ts0 obs)))).
Proof.
  revert ts0. induction obs as [|lc rest IH]; intros ts0; [reflexivity|].
  simpl.
  destruct (ticker_poll_cases ts0 lc) as [(_ & _ & ->)|(_ & ->)];
    [specialize (IH (timestamp lc))|specialize (IH ts0)];
    destruct (ticker_stream _ rest) as [evs ts']; simpl in *.
  - rewrite IH. symmetry. apply default_last_cons.
  - exact IH.
Qed.

Lemma chart_stream_last symbol ts0 obs :
  snd (chart_stream symbol ts0 obs) =
  default ts0 (last (map Chart.timestamp (fst (chart_stream symbol ts0 obs)))).
Proof.
  revert ts0. induction obs as [|lc rest IH]; intros ts0; [reflexivity|].
  simpl.
  destruct (chart_poll_cases symbol ts0 lc) as [(c & _ & _ & ->)|(_ & ->)];
    [specialize (IH (Chart.timestamp c))|specialize (IH ts0)];
    destruct (chart_stream symbol _ rest) as [evs ts']; simpl in *.
  - rewrite IH. symmetry. apply default_last_cons.
  - exact IH.
Qed.

Lemma ticker_stream_snoc ts0 pre lc :
  ticker_stream ts0 (pre ++ [lc]) =
  (fst (ticker_stream ts0 pre)
     ++ match fst (ticker_poll (snd (ticker_stream ts0 pre)) lc) with
        | Some e => [e]
        | None => []
        end,
   snd (ticker_poll (snd (ticker_stream ts0 pre)) lc)).
Proof.
  revert ts0. induction pre as [|x pre IH]; intros ts0; simpl.
  - destruct (ticker_poll ts0 lc) as [[e|] ts]; reflexivity.
  - destruct (ticker_poll ts0 x) as [ev ts]. rewrite (IH ts).
    destruct (ticker_stream ts pre) as [evs ts']. simpl.
    destruct ev; reflexivity.
Qed.

Lemma chart_stream_snoc symbol ts0 pre lc :
  chart_stream symbol ts0 (pre ++ [lc]) =
  (fst (chart_stream symbol ts0 pre)
     ++ match fst (chart_poll symbol (snd (chart_stream symbol ts0 pre)) lc) with
        | Some e => [e]
        | None => []
        end,
   snd (chart_poll symbol (snd (chart_stream symbol ts0 pre)) lc)).
Proof.
  revert ts0. induction pre as [|x pre IH]; intros ts0; simpl.
  - destruct (chart_poll symbol ts0 lc) as [[e|] ts]; reflexivity.
  - destruct (chart_poll symbol ts0 x) as [ev ts]. rewrite (IH ts).
    destruct (chart_stream symbol ts pre) as [evs ts']. simpl.
    destruct ev; reflexivity.
Qed.

(** The poll that follows the polls [pre] on a connection: it is judged
    against the timestamp of the last event sent on that connection, or
    the initial [last_ts] when none was sent. *)
Lemma ticker_stream_next ts0 pre lc :
  let evs := fst (ticker_stream ts0 pre) in
  let sent := default ts0 (last (map snd evs)) in
  (timestamp lc <> sent /\ ticker lc <> [] /\
   fst (ticker_stream ts0 (pre ++ [lc])) = evs ++ [(ticker lc, timestamp lc)])
  \/ ((timestamp lc = sent \/ ticker lc = []) /\
      fst (ticker_stream ts0 (pre ++ [lc])) = evs).
Proof.
  cbn zeta. rewrite ticker_stream_snoc, <- ticker_stream_last. cbn [fst].
  destruct (ticker_poll_cases (snd (ticker_stream ts0 pre)) lc)
    as [(H1 & H2 & ->)|(H & ->)]; cbn [fst].
  - left. auto.
  - right. rewrite app_nil_r. auto.
Qed.

Lemma chart_stream_next symbol ts0 pre lc :
  let evs := fst (chart_stream symbol ts0 pre) in
  let sent := default ts0 (last (map Chart.timestamp evs)) in
  (exists c, charts lc !! symbol = Some c /\ Chart.timestamp c <> sent /\
             fst (chart_stream symbol ts0 (pre ++ [lc])) = evs ++ [c])
  \/ ((forall c, charts lc !! symbol = Some c -> Chart.timestamp c = sent) /\
      fst (chart_stream symbol ts0 (pre ++ [lc])) = evs).
Proof.
  cbn zeta. rewrite chart_stream_snoc, <- chart_stream_last. cbn [fst].
  destruct (chart_poll_cases symbol (snd (chart_stream symbol ts0 pre)) lc)
    as [(c & H1 & H2 & ->)|(H & ->)]; cbn [fst].
  - left. eauto.
  - right. rewrite app_nil_r. auto.
Qed.

(** C3: a poll of the ticker stream yields an event exactly when the
    cached timestamp differs from [last_ts] and the quote list is not
    empty; a poll of a chart stream yields one exactly when the symbol has
    an entry whose timestamp differs from [last_ts].  The event carries
    the cached value and [last_ts] becomes its timestamp, so [last_ts] is
    the timestamp last sent.  Over a run of polls on one connection the
    events are those of the polls, in order: the poll that follows any
    polls adds one event exactly when the cached timestamp differs from
    the timestamp of the last event sent on that connection (the initial
    [last_ts] when none was sent) and the cached value is not empty, and
    adds none otherwise.  Polling again a cache that did not change
    yields nothing, a second poll that finds the timestamp of the first
    yields nothing, and no run of polls that finds the timestamp equal to
    [last_ts] yields an event. *)
Theorem C3_streams_push_on_change :
  (forall last_ts lc,
      is_Some (fst (ticker_poll last_ts lc)) <->
      timestamp lc <> last_ts /\ ticker lc <> [])
  /\ (forall symbol last_ts lc,
      is_Some (fst (chart_poll symbol last_ts lc)) <->
      exists c, charts lc !! symbol = Some c /\ Chart.timestamp c <> last_ts)
  /\ (forall last_ts lc ev,
      fst (ticker_poll last_ts lc) = Some ev ->
      ev = (ticker lc, timestamp lc) /\
      snd (ticker_poll last_ts lc) = timestamp lc)
  /\ (forall symbol last_ts lc ev,
      fst (chart_poll symbol last_ts lc) = Some ev ->
      charts lc !! symbol = Some ev /\
      snd (chart_poll symbol last_ts lc) = Chart.timestamp ev)
  /\ (forall last_ts lc,
      fst (ticker_poll last_ts lc) = None ->
      snd (ticker_poll last_ts lc) = last_ts)
  /\ (forall symbol last_ts lc,
      fst (chart_poll symbol last_ts lc) = None ->
      snd (chart_poll symbol last_ts lc) = last_ts)
  /\ (forall last_ts lc,
      fst (ticker_poll (snd (ticker_poll last_ts lc)) lc) = None)
  /\ (forall symbol last_ts lc,
      fst (chart_poll symbol (snd (chart_poll symbol last_ts lc)) lc) = None)
  /\ (forall last_ts obs,
      Forall (fun lc => timestamp lc = last_ts) obs ->
      ticker_stream last_ts obs = ([], last_ts))
  /\ (forall symbol last_ts obs,
      Forall (fun lc => forall c, charts lc !! symbol = Some c ->
                                  Chart.timestamp c = last_ts) obs ->
      chart_stream symbol last_ts obs = ([], last_ts))
  /\ (forall obs,
      snd (ticker_stream "" obs) =
      default ""%string (last (map snd (fst (ticker_stream "" obs)))))
  /\ (forall symbol obs,
      snd (chart_stream symbol "" obs) =
      default ""%string
        (last (map Chart.timestamp (fst (chart_stream symbol "" obs)))))
  /\ (forall ts0 pre lc,
      let evs := fst (ticker_stream ts0 pre) in
      let sent := default ts0 (last (map snd evs)) in
      (timestamp lc <> sent /\ ticker lc <> [] /\
       fst (ticker_stream ts0 (pre ++ [lc])) = evs ++ [(ticker lc, timestamp lc)])
      \/ ((timestamp lc = sent \/ ticker lc = []) /\
          fst (ticker_stream ts0 (pre ++ [lc])) = evs))
  /\ (forall symbol ts0 pre lc,
      let evs := fst (chart_stream symbol ts0 pre) in
      let sent := default ts0 (last (map Chart.timestamp evs)) in
      (exists c, charts lc !! symbol = Some c /\ Chart.timestamp c <> sent /\
                 fst (chart_stream symbol ts0 (pre ++ [lc])) = evs ++ [c])
      \/ ((forall c, charts lc !! symbol = Some c -> Chart.timestamp c = sent) /\
          fst (chart_stream symbol ts0 (pre ++ [lc])) = evs))
  /\ (forall last_ts lc1 lc2,
      timestamp lc2 = timestamp lc1 -> ticker lc1 <> [] ->
      fst (ticker_poll (snd (ticker_poll last_ts lc1)) lc2) = None)
  /\ (forall symbol last_ts lc1 lc2 c1 c2,
      charts lc1 !! symbol = Some c1 -> charts lc2 !! symbol = Some c2 ->
      Chart.timestamp c2 = Chart.timestamp c1 ->
      fst (chart_poll symbol (snd (chart_poll symbol last_ts lc1)) lc2) = None).
Proof.
  repeat apply conj.
  - intros last_ts lc.
    destruct (ticker_poll_cases last_ts lc) as [(H1 & H2 & ->)|(H & ->)]; simpl.
    + split; eauto.
    + split; [intros [? [=]]|]. intros [H1 H2]. destruct H; contradiction.
  - intros symbol last_ts lc.
    destruct (chart_poll_cases symbol last_ts lc) as [(c & H1 & H2 & ->)|(H & ->)];
      simpl.
    + split; eauto.
    + split; [intros [? [=]]|]. intros (c & H1 & H2). destruct H2. eauto.
  - intros last_ts lc ev.
    destruct (ticker_poll_cases last_ts lc) as [(_ & _ & ->)|(_ & ->)]; simpl;
      [intros [= <-]; auto|discriminate].
  - intros symbol last_ts lc ev.
    destruct (chart_poll_cases symbol last_ts lc) as [(c & H1 & _ & ->)|(_ & ->)];
      simpl; [intros [= <-]; auto|discriminate].
  - intros last_ts lc.
    destruct (ticker_poll_cases last_ts lc) as [(_ & _ & ->)|(_ & ->)]; simpl;
      [discriminate|reflexivity].
  - intros symbol last_ts lc.
    destruct (chart_poll_cases symbol last_ts lc) as [(c & _ & _ & ->)|(_ & ->)];
      simpl; [discriminate|reflexivity].
  - intros last_ts lc.
    destruct (ticker_poll_cases last_ts lc) as [(_ & _ & ->)|(H & ->)]; simpl.
    + destruct (ticker_poll_cases (timestamp lc) lc) as [(H & _)|(_ & ->)];
        [contradiction|reflexivity].
    + destruct (ticker_poll_cases last_ts lc) as [(H1 & H2 & _)|(_ & ->)];
        [destruct H; contradiction|reflexivity].
  - intros symbol last_ts lc.
    destruct (chart_poll_cases symbol last_ts lc) as [(c & H1 & _ & ->)|(H & ->)];
      simpl.
    + destruct (chart_poll_cases symbol (Chart.timestamp c) lc)
        as [(c' & H1' & H2' & _)|(_ & ->)]; [|reflexivity].
      rewrite H1 in H1'. injection H1' as <-. contradiction.
    + destruct (chart_poll_cases symbol last_ts lc)
        as [(c' & H1' & H2' & _)|(_ & ->)]; [|reflexivity].
      destruct H2'. eauto.
  - intros last_ts obs Hobs. induction Hobs as [|lc rest Hlc _ IH]; [reflexivity|].
    simpl. destruct (ticker_poll_cases last_ts lc) as [(H & _)|(_ & ->)];
      [contradiction|]. rewrite IH. reflexivity.
  - intros symbol last_ts obs Hobs.
    induction Hobs as [|lc rest Hlc _ IH]; [reflexivity|].
    simpl. destruct (chart_poll_cases symbol last_ts lc)
      as [(c & H1 & H2 & _)|(_ & ->)]; [destruct H2; eauto|].
    rewrite IH. reflexivity.
  - intros obs. apply ticker_stream_last.
  - intros symbol obs. apply chart_stream_last.
  - apply ticker_stream_next.
  - apply chart_stream_next.
  - intros last_ts lc1 lc2 Hts Hd.
    assert (Hs : snd (ticker_poll last_ts lc1) = timestamp lc1).
    { destruct (ticker_poll_cases last_ts lc1) as [(_ & _ & ->)|([H|H] & ->)];
        simpl; [reflexivity|symmetry; exact H|contradiction]. }
    rewrite Hs.
    destruct (ticker_poll_cases (timestamp lc1) lc2) as [(H & _)|(_ & ->)];
      [contradiction|reflexivity].
  - intros symbol last_ts lc1 lc2 c1 c2 H1 H2 Hts.
    assert (Hs : snd (chart_poll symbol last_ts lc1) = Chart.timestamp c1).
    { destruct (chart_poll_cases symbol last_ts lc1)
        as [(c & Hc & _ & ->)|(H & ->)]; simpl.
      - rewrite H1 in Hc. injection Hc as <-. reflexivity.
      - symmetry. apply H, H1. }
    rewrite Hs.
    destruct (chart_poll_cases symbol (Chart.timestamp c1) lc2)
      as [(c & Hc & Hne & _)|(_ & ->)]; [|reflexivity].
    rewrite H2 in Hc. injection Hc as <-. contradiction.
Qed.

Lemma C3_streams_push_on_change_witness :
  fst (ticker_poll "" (cache w_stale)) =
    Some (ticker (cache w_stale), "10:00:00"%string) /\
  fst (ticker_stream "" [cache w_stale]) =
    [(ticker (cache w_stale), "10:00:00"%string)] /\
  fst (ticker_stream "" [cache w_stale; cache w_stale]) =
    [(ticker (cache w_stale), "10:00:00"%string)] /\
  ticker_stream "10:00:00" [cache w_stale; cache w_stale] =
    ([], "10:00:00"%string).
Proof.
  destruct C3_streams_push_on_change
    as (Hiff & _ & Hev & _ & _ & _ & _ & _ & Hrun & _ & _ & _ & Hnext & _).
  assert (H1 : fst (ticker_stream "" [cache w_stale]) =
               [(ticker (cache w_stale), "10:00:00"%string)]).
  { destruct (Hnext ""%string [] (cache w_stale)) as [(_ & _ & H)|([H|H] & _)];
      [exact H|discriminate H|discriminate H]. }
  split; [|split; [exact H1|split]].
  - destruct (fst (ticker_poll "" (cache w_stale))) as [ev|] eqn:Hp.
    + destruct (Hev _ _ _ Hp) as [-> _]. reflexivity.
    + assert (Hs : is_Some (fst (ticker_poll "" (cache w_stale)))).
      { apply Hiff. split; discriminate. }
      rewrite Hp in Hs. destruct Hs as [? Hs]. discriminate Hs.
  - destruct (Hnext ""%string [cache w_stale] (cache w_stale))
      as [(Hne & _)|(_ & H)].
    + exfalso. apply Hne. cbn zeta. rewrite H1. reflexivity.
    + cbn zeta in H. rewrite H1 in H. exact H.
  - apply Hrun. repeat constructor.
Defined.

(** ** The chart refresher and the chart routes *)

Lemma stream_chart_run req w :
  stream_chart req w =
  (Ret (normalize req),
   {| cache := set_chart_symbol (normalize req) (cache w);
      calls := calls w; ticks := ticks w |}).
Proof. reflexivity. Qed.

Lemma truthy_nonempty s : truthy s = true <-> s <> ""%string.
Proof. destruct s; simpl; split; congruence. Qed.

Lemma aligned_entry (h : list row) p o c cp hi lo d t :
  aligned {| Chart.prices := map Close h;
             Chart.times := map (strftime "%Y-%m-%d %H:%M") (map index h);
             Chart.price := p; Chart.open := o; Chart.change := c;
             Chart.changePct := cp; Chart.high := hi; Chart.low := lo;
             Chart.date := d; Chart.timestamp := t |}.
Proof. unfold aligned. simpl. rewrite !length_map. reflexivity. Qed.

Local Hint Resolve aligned_entry : core.

Lemma refresh_chart_cache E sym w :
  chart_effect sym (cache w) (cache (snd (refresh_chart E sym w))).
Proof.
  unfold refresh_chart, chart_effect. run.
  repeat (case_match; simpl in *; simplify_eq; eauto).
Qed.

Lemma refresh_chart_calls E sym w :
  exists new,
    calls (snd (refresh_chart E sym w)) = calls w ++ new /\
    Forall (fun c => c_symbol c = sym) new /\
    head new = Some (mk_call sym "1d" "1m").
Proof.
  unfold refresh_chart. run.
  repeat (case_match; simpl in *; simplify_eq);
    first [ exists [mk_call sym "1d" "1m"];
            split; [reflexivity|]; split; [repeat constructor|reflexivity]
          | exists [mk_call sym "1d" "1m"; mk_call sym "5d" "5m"];
            split; [simpl; rewrite <- app_assoc; reflexivity|];
            split; [repeat constructor|reflexivity] ].
Qed.

Lemma bootstrap_chart_cache E sym w :
  chart_effect sym (cache w) (cache (snd (bootstrap_chart E sym w))).
Proof.
  unfold bootstrap_chart, chart_effect. run.
  repeat (case_match; simpl in *; simplify_eq; eauto).
Qed.

Lemma bg_update_chart_cache E w :
  match chart_symbol (cache w) with
  | Some sym => chart_effect sym (cache w) (cache (snd (_bg_update_chart E w)))
  | None => cache (snd (_bg_update_chart E w)) = cache w
  end.
Proof.
  unfold _bg_update_chart, mbind, M_bind, bind, read_cache.
  destruct (chart_symbol (cache w)) as [sym|]; [|reflexivity].
  destruct (truthy sym); [apply refresh_chart_cache|left; reflexivity].
Qed.

Lemma bg_update_chart_calls E w :
  exists new,
    calls (snd (_bg_update_chart E w)) = calls w ++ new /\
    Forall (fun c => chart_symbol (cache w) = Some (c_symbol c)) new /\
    (forall sym, chart_symbol (cache w) = Some sym -> sym <> ""%string ->
                 head new = Some (mk_call sym "1d" "1m")).
Proof.
  unfold _bg_update_chart, mbind, M_bind, bind, read_cache.
  destruct (chart_symbol (cache w)) as [sym|];
    [|exists []; rewrite app_nil_r; repeat split; [constructor|discriminate]].
  destruct (truthy sym) eqn:Ht.
  2:{ exists []. rewrite app_nil_r. repeat split; [constructor|].
      intros ? [= <-] Hne. apply truthy_nonempty in Hne. congruence. }
  destruct (refresh_chart_calls E sym w) as (new & Hc & Hall & Hhd).
  exists new. split; [exact Hc|]. split.
  - eapply Forall_impl; [exact Hall|]. simpl. intros c ->. reflexivity.
  - intros ? [= <-] _. exact Hhd.
Qed.

Lemma get_live_chart_cache E req w :
  (normalize req = ""%string /\ snd (get_live_chart E req w) = w) \/
  (normalize req <> ""%string /\
   chart_effect (normalize req)
     (set_chart_symbol (normalize req) (cache w))
     (cache (snd (get_live_chart E req w)))).
Proof.
  unfold get_live_chart.
  destruct (truthy (normalize req)) eqn:Ht; simpl.
  2:{ left. destruct (normalize req); [auto|discriminate]. }
  right. split; [apply truthy_nonempty; assumption|].
  unfold mbind, M_bind, bind, read_cache, write_cache. simpl.
  destruct (charts (cache w) !! normalize req); [left; reflexivity|].
  apply (bootstrap_chart_cache E (normalize req)
           {| cache := set_chart_symbol (normalize req) (cache w);
              calls := calls w; ticks := ticks w |}).
Qed.

Lemma bg_update_ticker_cache E w :
  exists results ts,
    cache (snd (_bg_update_ticker E w)) = set_ticker results ts (cache w).
Proof. rewrite bg_update_ticker_run. simpl. eauto. Qed.

Lemma keeps_ret {A} (a : A) : keeps_cache (mret a).
Proof. intros w. reflexivity. Qed.

Lemma keeps_bind {A B} (m : M A) (k : A -> M B) :
  keeps_cache m -> (forall a, keeps_cache (k a)) -> keeps_cache (m ≫= k).
Proof.
  intros Hm Hk w. unfold mbind, M_bind, bind. specialize (Hm w).
  destruct (m w) as [[a|] w']; simpl in *; [rewrite Hk|]; assumption.
Qed.

Lemma keeps_try {A} (m h : M A) :
  keeps_cache m -> keeps_cache h -> keeps_cache (try_except m h).
Proof.
  intros Hm Hh w. unfold try_except. specialize (Hm w).
  destruct (m w) as [[a|] w']; simpl in *; [|rewrite Hh]; assumption.
Qed.

Lemma keeps_lift {A} (o : option A) : keeps_cache (lift_opt o).
Proof. intros w. destruct o; reflexivity. Qed.

Lemma keeps_history E s p i : keeps_cache (history E s p i).
Proof. intros w. unfold history. destruct (yf E _ _); reflexivity. Qed.

Lemma get_strategy_cache sqrt E req : keeps_cache (get_strategy sqrt E req).
Proof.
  unfold get_strategy.
  destruct (negb (truthy (normalize req))); [apply (keeps_ret (A := response strategy))|].
  apply keeps_try; [|apply (keeps_ret (A := response strategy))].
  apply keeps_bind; [apply keeps_history|]. intros hist.
  destruct (is_empty hist || bool_decide (length hist < 30)%nat);
    [apply (keeps_ret (A := response strategy))|].
  apply keeps_bind; [apply keeps_lift|].
  intros s. apply (keeps_ret (A := response strategy)).
Qed.

(** ** Normalisation of symbols *)

Lemma upper_ascii_idem c : upper_ascii (upper_ascii c) = upper_ascii c.
Proof. destruct c as [[] [] [] [] [] [] [] []]; reflexivity. Qed.

Lemma isspace_upper_ascii c : isspace (upper_ascii c) = isspace c.
Proof. destruct c as [[] [] [] [] [] [] [] []]; reflexivity. Qed.

Lemma upper_idem s : upper (upper s) = upper s.
Proof. induction s as [|c s IH]; simpl; [|rewrite upper_ascii_idem, IH]; reflexivity. Qed.

Lemma upper_lstrip s : upper (lstrip s) = lstrip (upper s).
Proof.
  induction s as [|c s IH]; simpl; [reflexivity|].
  rewrite isspace_upper_ascii. destruct (isspace c); [exact IH|reflexivity].
Qed.

Lemma upper_rstrip s : upper (rstrip s) = rstrip (upper s).
Proof.
  induction s as [|c s IH]; simpl; [reflexivity|].
  rewrite <- IH, isspace_upper_ascii.
  destruct (rstrip s); simpl; [destruct (isspace c)|]; reflexivity.
Qed.

Lemma upper_strip s : upper (strip s) = strip (upper s).
Proof. unfold strip. rewrite upper_rstrip, upper_lstrip. reflexivity. Qed.

Lemma rstrip_idem s : rstrip (rstrip s) = rstrip s.
Proof.
  induction s as [|c s IH]; simpl; [reflexivity|].
  destruct (rstrip s) as [|d r] eqn:Hr.
  - destruct (isspace c) eqn:Hc; simpl; [|rewrite Hc]; reflexivity.
  - simpl in *. destruct (rstrip r) as [|e r'] eqn:Hr'.
    + destruct (isspace d); [discriminate|]. injection IH as <-. reflexivity.
    + injection IH as <-. reflexivity.
Qed.

Lemma lstrip_no_lead s : no_lead (lstrip s).
Proof.
  induction s as [|c s IH]; simpl; [exact I|].
  destruct (isspace c) eqn:Hc; [exact IH|exact Hc].
Qed.

Lemma rstrip_no_lead s : no_lead s -> no_lead (rstrip s).
Proof.
  destruct s as [|c s]; simpl; [auto|]. intros Hc.
  destruct (rstrip s); simpl; [rewrite Hc|]; exact Hc.
Qed.

Lemma lstrip_fixed s : no_lead s -> lstrip s = s.
Proof. destruct s as [|c s]; simpl; [auto|]. intros ->. reflexivity. Qed.

Lemma strip_idem s : strip (strip s) = strip s.
Proof.
  unfold strip.
  rewrite (lstrip_fixed (rstrip (lstrip s)))
    by apply rstrip_no_lead, lstrip_no_lead.
  apply rstrip_idem.
Qed.

Lemma normalize_idem s : normalized (normalize s).
Proof.
  unfold normalized, normalize.
  rewrite upper_strip, upper_idem. apply strip_idem.
Qed.

(** ** The invariant of the cache *)

Lemma cache_inv_set_ticker results ts lc :
  cache_inv lc -> cache_inv (set_ticker results ts lc).
Proof. intros H. exact H. Qed.

Lemma cache_inv_set_chart_symbol s lc :
  normalized s -> cache_inv lc -> cache_inv (set_chart_symbol s lc).
Proof.
  intros Hs [Hk Hf]. split; [exact Hk|].
  simpl. intros ? [= <-]. exact Hs.
Qed.

Lemma cache_inv_chart_effect sym lc lc' :
  normalized sym -> chart_effect sym lc lc' -> cache_inv lc -> cache_inv lc'.
Proof.
  intros Hs [->|(c & Hc & ->)] [Hk Hf]; [split; assumption|].
  split; [|exact Hf]. simpl. intros k c'.
  rewrite lookup_insert. case_decide as Heq.
  - intros [= <-]. subst k. auto.
  - apply Hk.
Qed.

Lemma step_inv E w w' : step E w w' -> cache_inv (cache w) -> cache_inv (cache w').
Proof.
  intros Hstep Hinv. destruct Hstep.
  - destruct (bg_update_ticker_cache E w) as (results & ts & ->).
    apply cache_inv_set_ticker, Hinv.
  - pose proof (bg_update_chart_cache E w) as H.
    destruct (chart_symbol (cache w)) as [sym|] eqn:Hsym.
    + eapply cache_inv_chart_effect; [|exact H|exact Hinv].
      destruct Hinv as [_ Hf]. auto.
    + rewrite H. exact Hinv.
  - exact Hinv.
  - destruct (get_live_chart_cache E req w) as [(_ & ->)|(_ & H)]; [exact Hinv|].
    eapply cache_inv_chart_effect; [apply normalize_idem|exact H|].
    apply cache_inv_set_chart_symbol; [apply normalize_idem|exact Hinv].
  - rewrite stream_chart_run. simpl.
    apply cache_inv_set_chart_symbol; [apply normalize_idem|exact Hinv].
  - rewrite get_strategy_cache. exact Hinv.
Qed.

Lemma reachable_inv E w : reachable E w -> cache_inv (cache w).
Proof.
  induction 1 as [|w w' _ IH Hstep|w0 w sym _ IH0 Hsym _ _ IH|w req _ IH _].
  - split; simpl; [intros k c; rewrite lookup_empty|]; discriminate.
  - eapply step_inv; eassumption.
  - eapply cache_inv_chart_effect; [|apply refresh_chart_cache|exact IH].
    destruct IH0 as [_ Hf]. apply Hf, Hsym.
  - eapply cache_inv_chart_effect;
      [apply normalize_idem|apply bootstrap_chart_cache|exact IH].
Qed.

Lemma chart_effect_other sym S lc lc' :
  sym <> S -> chart_effect sym lc lc' -> charts lc' !! S = charts lc !! S.
Proof.
  intros Hne [->|(c & _ & ->)]; [reflexivity|].
  simpl. apply lookup_insert_ne. exact Hne.
Qed.

Lemma chart_effect_focus sym lc lc' :
  chart_effect sym lc lc' -> chart_symbol lc' = chart_symbol lc.
Proof. intros [->|(c & _ & ->)]; reflexivity. Qed.

Lemma reachable_w_tsla : reachable E_chart w_tsla.
Proof.
  unfold w_tsla.
  eapply reach_step; [|apply step_chart].
  eapply reach_step; [apply reach_init|].
  apply (step_live_chart E_chart initial_world " tsla").
Defined.

(** ** What normalisation does *)

Lemma upper_ascii_spec c :
  (is_lower c = true -> nat_of_ascii (upper_ascii c) = (nat_of_ascii c - 32)%nat) /\
  (is_lower c = false -> upper_ascii c = c).
Proof.
  destruct c as [[] [] [] [] [] [] [] []];
    split; intros H; first [discriminate H|reflexivity].
Qed.

Lemma is_lower_upper_ascii c : is_lower (upper_ascii c) = false.
Proof. destruct c as [[] [] [] [] [] [] [] []]; reflexivity. Qed.

Lemma is_lower_bound c : is_lower c = true -> (97 <= nat_of_ascii c)%nat.
Proof.
  unfold is_lower. intros H. apply andb_true_iff in H as [H _].
  apply Nat.leb_le in H. exact H.
Qed.

Lemma upper_ascii_range c :
  (nat_of_ascii c < 128)%nat -> (nat_of_ascii (upper_ascii c) < 128)%nat.
Proof.
  intros H. destruct (upper_ascii_spec c) as [H1 H2].
  destruct (is_lower c) eqn:Hl.
  - rewrite (H1 eq_refl). lia.
  - rewrite (H2 eq_refl). exact H.
Qed.

Lemma upper_app a b : upper (a ++ b) = (upper a ++ upper b)%string.
Proof. induction a as [|c a IH]; simpl; [|rewrite IH]; reflexivity. Qed.

Lemma upper_get s : forall n,
  String.get n (upper s) = option_map upper_ascii (String.get n s).
Proof.
  induction s as [|c s IH]; intros n; [reflexivity|].
  destruct n as [|n]; simpl; [reflexivity|apply IH].
Qed.

Lemma upper_length s : String.length (upper s) = String.length s.
Proof. induction s as [|c s IH]; simpl; [|rewrite IH]; reflexivity. Qed.

Lemma upper_no_lower s : no_lower (upper s).
Proof.
  induction s as [|c s IH]; simpl; [exact I|].
  split; [apply is_lower_upper_ascii|exact IH].
Qed.

Lemma lstrip_no_lower s : no_lower s -> no_lower (lstrip s).
Proof.
  induction s as [|c s IH]; simpl; [auto|]. intros [Hc Hs].
  destruct (isspace c); [apply IH, Hs|split; assumption].
Qed.

Lemma rstrip_no_lower s : no_lower s -> no_lower (rstrip s).
Proof.
  induction s as [|c s IH]; simpl; [auto|]. intros [Hc Hs].
  specialize (IH Hs). destruct (rstrip s) as [|d r].
  - destruct (isspace c); simpl; auto.
  - simpl. auto.
Qed.

Lemma rstrip_no_trail s : no_trail (rstrip s).
Proof.
  unfold no_trail. induction s as [|c s IH]; simpl; [exact I|].
  destruct (rstrip s) as [|d r] eqn:Hr.
  - destruct (isspace c) eqn:Hc; simpl; [exact I|exact Hc].
  - exact IH.
Qed.

Lemma rstrip_fixed s : no_trail s -> rstrip s = s.
Proof.
  unfold no_trail. induction s as [|c s IH]; [reflexivity|].
  destruct s as [|d r].
  - simpl. intros ->. reflexivity.
  - intros H. change (last_char (String c (String d r)))
      with (last_char (String d r)) in H.
    specialize (IH H). change (rstrip (String c (String d r)))
      with (match rstrip (String d r) with
            | EmptyString => if isspace c then EmptyString else String c EmptyString
            | r' => String c r'
            end).
    rewrite IH. reflexivity.
Qed.

Lemma lstrip_all_space a y : all_space a -> lstrip (a ++ y) = lstrip y.
Proof.
  induction a as [|c a IH]; simpl; [auto|]. intros [-> Ha]. apply IH, Ha.
Qed.

Lemma lstrip_space_only b : all_space b -> lstrip b = ""%string.
Proof.
  induction b as [|c b IH]; simpl; [auto|]. intros [-> Hb]. apply IH, Hb.
Qed.

Lemma rstrip_all_space b : all_space b -> rstrip b = ""%string.
Proof.
  induction b as [|c b IH]; simpl; [auto|]. intros [-> Hb].
  rewrite (IH Hb). reflexivity.
Qed.

Lemma rstrip_app_space x b : all_space b -> rstrip (x ++ b) = rstrip x.
Proof.
  intros Hb. induction x as [|c x IH]; simpl; [apply rstrip_all_space, Hb|].
  rewrite IH. reflexivity.
Qed.

Lemma all_space_upper a : all_space a -> all_space (upper a).
Proof.
  induction a as [|c a IH]; simpl; [auto|]. intros [Hc Ha].
  rewrite isspace_upper_ascii. auto.
Qed.

Lemma no_lead_upper s : no_lead s -> no_lead (upper s).
Proof. destruct s as [|c s]; simpl; [auto|]. rewrite isspace_upper_ascii. auto. Qed.

Lemma last_char_upper s : last_char (upper s) = option_map upper_ascii (last_char s).
Proof.
  induction s as [|c s IH]; [reflexivity|].
  destruct s as [|d r]; [reflexivity|]. exact IH.
Qed.

Lemma no_trail_upper s : no_trail s -> no_trail (upper s).
Proof.
  unfold no_trail. rewrite last_char_upper.
  destruct (last_char s); simpl; [rewrite isspace_upper_ascii|]; auto.
Qed.

(** Spaces around a symbol are dropped and its letters are put in upper
    case; nothing else changes. *)
Lemma normalize_padded a core b :
  all_space a -> all_space b -> no_lead core -> no_trail core ->
  normalize (a ++ core ++ b) = upper core.
Proof.
  intros Ha Hb Hl Ht. unfold normalize, strip.
  rewrite !upper_app.
  rewrite (lstrip_all_space _ _ (all_space_upper _ Ha)).
  apply no_lead_upper in Hl. apply no_trail_upper in Ht.
  apply all_space_upper in Hb.
  destruct (upper core) as [|c r] eqn:Hc.
  - change ("" +:+ upper b) with (upper b). rewrite (lstrip_space_only _ Hb). reflexivity.
  - rewrite lstrip_fixed by exact Hl.
    rewrite (rstrip_app_space _ _ Hb). apply rstrip_fixed, Ht.
Qed.

Lemma normalize_form s : symbol_form (normalize s).
Proof.
  unfold symbol_form, normalize, strip. split; [|split].
  - apply rstrip_no_lead, lstrip_no_lead.
  - apply rstrip_no_trail.
  - apply rstrip_no_lower, lstrip_no_lower, upper_no_lower.
Qed.

Lemma is_ascii_upper s : is_ascii s -> is_ascii (upper s).
Proof.
  induction s as [|c s IH]; simpl; [auto|]. intros [Hc Hs].
  split; [apply upper_ascii_range, Hc|apply IH, Hs].
Qed.

Lemma is_ascii_lstrip s : is_ascii s -> is_ascii (lstrip s).
Proof.
  induction s as [|c s IH]; simpl; [auto|]. intros [Hc Hs].
  destruct (isspace c); [apply IH, Hs|split; assumption].
Qed.

Lemma is_ascii_rstrip s : is_ascii s -> is_ascii (rstrip s).
Proof.
  induction s as [|c s IH]; simpl; [auto|]. intros [Hc Hs].
  specialize (IH Hs). destruct (rstrip s) as [|d r].
  - destruct (isspace c); simpl; auto.
  - simpl. auto.
Qed.

Lemma is_ascii_normalize s : is_ascii s -> is_ascii (normalize s).
Proof.
  intros H. unfold normalize, strip.
  apply is_ascii_rstrip, is_ascii_lstrip, is_ascii_upper, H.
Qed.

(** ** The keys of the chart table when the requests are in the ASCII range *)

Lemma keys_satisfy_set_chart_symbol P s lc :
  P s -> keys_satisfy P lc -> keys_satisfy P (set_chart_symbol s lc).
Proof.
  intros Hs [Hk Hf]. split; [exact Hk|].
  simpl. intros ? [= <-]. exact Hs.
Qed.

Lemma keys_satisfy_chart_effect P sym lc lc' :
  P sym -> chart_effect sym lc lc' -> keys_satisfy P lc -> keys_satisfy P lc'.
Proof.
  intros Hs [->|(c & Hc & ->)] [Hk Hf]; [split; assumption|].
  split; [|exact Hf]. simpl. intros k c'.
  rewrite lookup_insert. case_decide as Heq.
  - intros _. subst k. exact Hs.
  - apply Hk.
Qed.

Lemma ascii_reachable_keys (P : string -> Prop) E w :
  (forall req, is_ascii req -> P (normalize req)) ->
  ascii_reachable E w -> keys_satisfy P (cache w).
Proof.
  intros HP.
  induction 1 as [|w _ IH|w _ IH|w _ IH|w req _ IH Hreq|w req _ IH Hreq
                  |w sqrt req _ IH Hreq
                  |w0 w sym _ IH0 Hsym _ _ IH|w req _ IH Hreq _].
  - split; simpl; [intros k c; rewrite lookup_empty|]; discriminate.
  - destruct (bg_update_ticker_cache E w) as (results & ts & ->). exact IH.
  - pose proof (bg_update_chart_cache E w) as H.
    destruct (chart_symbol (cache w)) as [sym|] eqn:Hsym.
    + eapply keys_satisfy_chart_effect; [|exact H|exact IH].
      destruct IH as [_ Hf]. apply Hf, Hsym.
    + rewrite H. exact IH.
  - exact IH.
  - destruct (get_live_chart_cache E req w) as [(_ & ->)|(_ & H)]; [exact IH|].
    eapply keys_satisfy_chart_effect; [apply HP, Hreq|exact H|].
    apply keys_satisfy_set_chart_symbol; [apply HP, Hreq|exact IH].
  - rewrite stream_chart_run. simpl.
    apply keys_satisfy_set_chart_symbol; [apply HP, Hreq|exact IH].
  - rewrite get_strategy_cache. exact IH.
  - eapply keys_satisfy_chart_effect; [|apply refresh_chart_cache|exact IH].
    destruct IH0 as [_ Hf]. apply Hf, Hsym.
  - eapply keys_satisfy_chart_effect;
      [apply HP, Hreq|apply bootstrap_chart_cache|exact IH].
Qed.

Lemma ascii_reachable_w_tsla : ascii_reachable E_chart w_tsla.
Proof.
  unfold w_tsla. apply areach_chart, areach_live_chart; [apply areach_init|].
  cbn [is_ascii]. repeat split; apply Nat.ltb_lt; reflexivity.
Defined.

(** ** The facts about the chart table and the focus *)

Lemma new_calls_app w w' new : calls w' = calls w ++ new -> new_calls w w' = new.
Proof. unfold new_calls. intros ->. apply drop_app_length. Qed.

(** C4, as stated, fails for a cycle of the chart refresher that is under
    way when the focus moves: the cycle read the focus TSLA, the focus
    moves to MSFT, and the cycle then writes a new entry under TSLA. *)
Lemma C4_cycle_under_way_rewrites_entry : ~ refocus_freezes_entry E_chart.
Proof.
  intros H.
  destruct (charts (cache w_tsla) !! "TSLA"%string) as [c|] eqn:Hc;
    [|vm_compute in Hc; discriminate Hc].
  assert (Hf : chart_symbol (cache w_tsla) = Some "TSLA"%string) by reflexivity.
  assert (Hne : normalize "msft" <> "TSLA"%string)
    by (intros Hn; vm_compute in Hn; discriminate Hn).
  specialize (H w_tsla "msft"%string "TSLA"%string c
                reachable_w_tsla Hf eq_refl Hc Hne).
  assert (Ht : option_map Chart.timestamp
                 (charts (cache (snd (refresh_chart E_chart "TSLA"
                                        (snd (stream_chart "msft" w_tsla)))))
                    !! "TSLA"%string)
               = option_map Chart.timestamp (charts (cache w_tsla) !! "TSLA"%string))
    by (rewrite H, Hc; reflexivity).
  vm_compute in Ht. discriminate Ht.
Qed.

(** C4, amended: moving the focus to another symbol changes no entry by
    itself.  Opening a chart stream changes no entry at all and sets the
    focus; a live-chart request writes at most the entry of the requested
    symbol; and a cycle of the chart refresher that starts under the new
    focus leaves the other entries alone and asks the provider for the
    focused symbol only.  A cycle that read a focus [sym] earlier and
    writes now, whatever the focus has become, still asks for [sym] only
    and writes at most the entry of [sym]: it never removes it, and it
    touches no other entry nor the focus. *)
Theorem C4_focus_change_keeps_other_entries
    (E : env) (w : world) (req S : string) :
  normalize req <> S ->
  charts (cache (snd (stream_chart req w))) = charts (cache w)
  /\ chart_symbol (cache (snd (stream_chart req w))) = Some (normalize req)
  /\ charts (cache (snd (get_live_chart E req w))) !! S = charts (cache w) !! S
  /\ (normalize req <> ""%string ->
      chart_symbol (cache (snd (get_live_chart E req w))) = Some (normalize req))
  /\ (forall w',
        chart_symbol (cache w') = Some (normalize req) ->
        charts (cache (snd (_bg_update_chart E w'))) !! S = charts (cache w') !! S
        /\ chart_symbol (cache (snd (_bg_update_chart E w'))) = Some (normalize req)
        /\ Forall (fun c => c_symbol c = normalize req)
                  (new_calls w' (snd (_bg_update_chart E w')))
        /\ (normalize req <> ""%string ->
            head (new_calls w' (snd (_bg_update_chart E w'))) =
            Some (mk_call (normalize req) "1d" "1m")))
  /\ (forall w' sym,
        let w'' := snd (refresh_chart E sym w') in
        (forall S', S' <> sym ->
                    charts (cache w'') !! S' = charts (cache w') !! S')
        /\ chart_symbol (cache w'') = chart_symbol (cache w')
        /\ (is_Some (charts (cache w') !! sym) ->
            is_Some (charts (cache w'') !! sym))
        /\ Forall (fun c => c_symbol c = sym) (new_calls w' w'')
        /\ head (new_calls w' w'') = Some (mk_call sym "1d" "1m")).
Proof.
  intros Hne. split; [reflexivity|]. split; [reflexivity|].
  split; [|split; [|split]].
  - destruct (get_live_chart_cache E req w) as [(_ & ->)|(_ & H)]; [reflexivity|].
    rewrite (chart_effect_other _ _ _ _ Hne H). reflexivity.
  - intros Hs.
    destruct (get_live_chart_cache E req w) as [(He & _)|(_ & H)]; [contradiction|].
    rewrite (chart_effect_focus _ _ _ H). reflexivity.
  - intros w' H.
    pose proof (bg_update_chart_cache E w') as Hc. rewrite H in Hc.
    destruct (bg_update_chart_calls E w') as (new & Hcalls & Hall & Hhd).
    rewrite (new_calls_app _ _ _ Hcalls).
    split; [apply (chart_effect_other _ _ _ _ Hne Hc)|].
    split; [rewrite (chart_effect_focus _ _ _ Hc); exact H|].
    split; [|intros Hs; apply Hhd; assumption].
    eapply Forall_impl; [exact Hall|]. simpl. intros c Hcs.
    rewrite H in Hcs. congruence.
  - intros w' sym w''. subst w''.
    pose proof (refresh_chart_cache E sym w') as Hc.
    destruct (refresh_chart_calls E sym w') as (new & Hcalls & Hall & Hhd).
    rewrite (new_calls_app _ _ _ Hcalls).
    split; [intros S' HS'; apply (chart_effect_other sym); [congruence|exact Hc]|].
    split; [apply (chart_effect_focus sym), Hc|].
    split; [|split; assumption].
    destruct Hc as [->|(c & _ & ->)]; [auto|].
    intros _. simpl. rewrite lookup_insert. case_decide; [eauto|congruence].
Qed.

Lemma C4_focus_change_keeps_other_entries_witness :
  normalize "msft" <> "TSLA"%string /\
  (charts (cache (snd (_bg_update_chart E_chart w_msft))) !! "TSLA"%string
   = charts (cache w_tsla) !! "TSLA"%string) /\
  new_calls w_msft (snd (_bg_update_chart E_chart w_msft)) =
    [mk_call "MSFT" "1d" "1m"] /\
  (charts (cache (snd (refresh_chart E_chart "TSLA" w_msft))) !! "MSFT"%string
   = charts (cache w_msft) !! "MSFT"%string) /\
  chart_symbol (cache (snd (refresh_chart E_chart "TSLA" w_msft))) =
    Some "MSFT"%string.
Proof.
  assert (Hne : normalize "msft" <> "TSLA"%string)
    by (intros H; vm_compute in H; discriminate H).
  split; [exact Hne|].
  destruct (C4_focus_change_keeps_other_entries E_chart w_tsla "msft" "TSLA" Hne)
    as (Hs & _ & _ & _ & Hcycle & Hlate).
  destruct (Hcycle w_msft eq_refl) as (Hk & _ & _ & _).
  destruct (Hlate w_msft "TSLA"%string) as (Ho & Hf & _).
  split; [rewrite Hk; unfold w_msft; rewrite Hs; reflexivity|].
  split; [vm_compute; reflexivity|].
  split; [apply Ho; discriminate|].
  rewrite Hf. reflexivity.
Defined.

(** C5: in every world the process can reach, every entry of the chart
    table has as many prices as times; the entries are those written by
    the chart refresher and by the live-chart route on a miss, also when
    the write lands after other steps have run in between. *)
Theorem C5_prices_times_aligned (E : env) (w : world) :
  reachable E w ->
  forall sym c, charts (cache w) !! sym = Some c ->
                length (Chart.prices c) = length (Chart.times c).
Proof.
  intros Hr sym c Hc.
  destruct (reachable_inv E w Hr) as [Hk _].
  destruct (Hk sym c Hc) as [_ Ha]. exact Ha.
Qed.

Lemma C5_prices_times_aligned_witness :
  reachable E_chart w_tsla /\
  exists c, charts (cache w_tsla) !! "TSLA"%string = Some c /\
            length (Chart.prices c) = 3%nat /\ length (Chart.times c) = 3%nat.
Proof.
  split; [exact reachable_w_tsla|].
  destruct (charts (cache w_tsla) !! "TSLA"%string) as [c|] eqn:Hc;
    [|vm_compute in Hc; discriminate Hc].
  exists c. split; [reflexivity|].
  pose proof (C5_prices_times_aligned E_chart w_tsla reachable_w_tsla "TSLA" c Hc)
    as Hlen.
  rewrite <- Hlen. vm_compute in Hc. injection Hc as <-. split; reflexivity.
Defined.

(** C10: the routes that write the focus or the chart table work on the
    normalized symbol.  Normalisation puts the letters of a symbol in
    upper case, character by character, drops the spaces around it and
    changes nothing else.  When the symbols requested are in the ASCII
    range, in every reachable world the focus and every key of the chart
    table are normalized: in the ASCII range, in upper case, with no space
    at either end; and two requests whose symbols normalize to the same
    text, as "tsla" and "TSLA" do, have the same effect and the same
    answer. *)
Theorem C10_symbols_normalized (E : env) (w : world) (r1 r2 : string) :
  ascii_reachable E w ->
  is_ascii r1 -> is_ascii r2 ->
  normalize r1 = normalize r2 ->
  (forall s, chart_symbol (cache w) = Some s ->
             normalize s = s /\ symbol_form s /\ is_ascii s)
  /\ (forall k c, charts (cache w) !! k = Some c ->
                  normalize k = k /\ symbol_form k /\ is_ascii k)
  /\ get_live_chart E r1 w = get_live_chart E r2 w
  /\ stream_chart r1 w = stream_chart r2 w
  /\ chart_symbol (cache (snd (stream_chart r1 w))) = Some (normalize r1)
  /\ (normalize r1 <> ""%string ->
      chart_symbol (cache (snd (get_live_chart E r1 w))) = Some (normalize r1))
  /\ (forall k, charts (cache (snd (get_live_chart E r1 w))) !! k <>
                charts (cache w) !! k -> k = normalize r1)
  /\ normalize (normalize r1) = normalize r1
  /\ (symbol_form (normalize r1) /\ is_ascii (normalize r1))
  /\ (forall a core b,
        all_space a -> all_space b -> no_lead core -> no_trail core ->
        normalize (a ++ core ++ b) = upper core)
  /\ (forall s n,
        String.length (upper s) = String.length s /\
        String.get n (upper s) = option_map upper_ascii (String.get n s))
  /\ (forall c,
        (is_lower c = true ->
         nat_of_ascii (upper_ascii c) = (nat_of_ascii c - 32)%nat) /\
        (is_lower c = false -> upper_ascii c = c)).
Proof.
  intros Hr Ha1 Ha2 Hn.
  assert (HP : forall req, is_ascii req ->
                 normalize (normalize req) = normalize req /\
                 symbol_form (normalize req) /\ is_ascii (normalize req)).
  { intros req Hreq. split; [apply normalize_idem|].
    split; [apply normalize_form|apply is_ascii_normalize, Hreq]. }
  destruct (ascii_reachable_keys
              (fun s => normalize s = s /\ symbol_form s /\ is_ascii s) E w HP Hr)
    as [Hk Hf].
  split; [exact Hf|]. split; [exact Hk|].
  split; [unfold get_live_chart; rewrite Hn; reflexivity|].
  split; [unfold stream_chart; rewrite Hn; reflexivity|].
  split; [reflexivity|].
  split.
  { intros Hs.
    destruct (get_live_chart_cache E r1 w) as [(He & _)|(_ & H)]; [contradiction|].
    rewrite (chart_effect_focus _ _ _ H). reflexivity. }
  split.
  { intros k Hdiff. destruct (decide (normalize r1 = k)) as [<-|Hne]; [reflexivity|].
    destruct Hdiff.
    destruct (get_live_chart_cache E r1 w) as [(_ & ->)|(_ & H)]; [reflexivity|].
    rewrite (chart_effect_other _ _ _ _ Hne H). reflexivity. }
  split; [apply normalize_idem|].
  split; [split; [apply normalize_form|apply is_ascii_normalize, Ha1]|].
  split; [intros a core b; apply normalize_padded|].
  split; [intros s n; split; [apply upper_length|apply upper_get]|].
  apply upper_ascii_spec.
Qed.

Lemma C10_symbols_normalized_witness :
  ascii_reachable E_chart w_tsla /\
  normalize "tsla" = normalize "TSLA" /\
  get_live_chart E_chart "tsla" w_tsla = get_live_chart E_chart "TSLA" w_tsla /\
  chart_symbol (cache w_tsla) = Some "TSLA"%string /\
  normalize (" " ++ "tsla" ++ " ") = "TSLA"%string.
Proof.
  assert (A1 : is_ascii "tsla")
    by (cbn [is_ascii]; repeat split; apply Nat.ltb_lt; reflexivity).
  assert (A2 : is_ascii "TSLA")
    by (cbn [is_ascii]; repeat split; apply Nat.ltb_lt; reflexivity).
  split; [exact ascii_reachable_w_tsla|]. split; [reflexivity|].
  destruct (C10_symbols_normalized E_chart w_tsla "tsla" "TSLA"
              ascii_reachable_w_tsla A1 A2 eq_refl)
    as (_ & _ & H & _ & _ & _ & _ & _ & _ & Hpad & _).
  split; [exact H|]. split; [reflexivity|].
  rewrite (Hpad " "%string "tsla"%string " "%string);
    [reflexivity|split; [reflexivity|exact I]|split; [reflexivity|exact I]
    |reflexivity|reflexivity].
Defined.

(** ** Rolling windows *)

Lemma length_rolling w agg s : length (rolling w agg s) = length s.
Proof. unfold rolling. rewrite length_map, length_seq. reflexivity. Qed.

Lemma rolling_lookup w agg s i :
  (i < length s)%nat ->
  rolling w agg s !! i =
  Some (if decide (S i < w)%nat then NaN
        else if existsb is_nan (window w i s) then NaN
        else agg (window w i s)).
Proof.
  intros Hi. unfold rolling.
  rewrite list_lookup_fmap, lookup_seq_lt by assumption. reflexivity.
Qed.

Lemma window_fmap {A B} (f : A -> B) w i (s : list A) :
  window w i (map f s) = map f (window w i s).
Proof. unfold window. rewrite <- fmap_drop, <- fmap_take. reflexivity. Qed.

Lemma window_length {A} w i (s : list A) :
  (w <= S i)%nat -> (i < length s)%nat -> length (window w i s) = w.
Proof. intros. unfold window. rewrite length_take, length_drop. lia. Qed.

Lemma window_Forall {A} (P : A -> Prop) w i (s : list A) :
  Forall P s -> Forall P (window w i s).
Proof. intros. unfold window. apply Forall_take, Forall_drop. assumption. Qed.

Lemma window_last {A} w i (s : list A) :
  (0 < w)%nat -> (w <= S i)%nat -> window w i s !! (w - 1)%nat = s !! i.
Proof.
  intros. unfold window. rewrite lookup_take_lt by lia.
  rewrite lookup_drop. f_equal. lia.
Qed.

Lemma no_nan_fin (l : list Q) : existsb is_nan (map Fin l) = false.
Proof. induction l; simpl; auto. Qed.

Lemma nsum_fin (l : list Q) : nsum (map Fin l) = Fin (Qsum l).
Proof.
  induction l as [|x l IH]; [reflexivity|].
  unfold nsum, Qsum in *. simpl. rewrite IH. reflexivity.
Qed.

Lemma count_positive n : (inject_Z (Z.of_nat (S n)) ?= 0)%Q = Gt.
Proof. reflexivity. Qed.

Lemma mean_fin (l : list Q) : l <> [] -> mean (map Fin l) = Fin (average l).
Proof.
  intros Hl. unfold mean, average. rewrite nsum_fin, length_map.
  destruct l as [|x l]; [contradiction|].
  unfold num_of_Z, ndiv. simpl length. rewrite count_positive. reflexivity.
Qed.

Lemma rolling_mean_fin w (qs : list Q) i :
  (0 < w)%nat -> (w <= S i)%nat -> (i < length qs)%nat ->
  rolling_mean w (map Fin qs) !! i = Some (Fin (average (window w i qs))).
Proof.
  intros Hw Hwi Hi. unfold rolling_mean.
  rewrite rolling_lookup by (rewrite length_map; assumption).
  destruct (decide (S i < w)%nat); [lia|].
  rewrite window_fmap, no_nan_fin, mean_fin; [reflexivity|].
  intros He. apply (f_equal length) in He.
  rewrite window_length in He by assumption. simpl in He. lia.
Qed.

Lemma rolling_warm_up w agg s i :
  (S i < w)%nat -> (i < length s)%nat -> rolling w agg s !! i = Some NaN.
Proof.
  intros Hw Hi. rewrite rolling_lookup by assumption.
  destruct (decide (S i < w)%nat); [reflexivity|lia].
Qed.

(** ** The RSI series *)

Lemma fmap_zip_with_fin (f : Q -> Q -> Q) : forall l k,
  map Fin (zip_with f l k) = zip_with (fun a b => Fin (f a b)) l k.
Proof.
  induction l as [|a l IH]; intros [|b k]; simpl; try reflexivity.
  rewrite IH. reflexivity.
Qed.

Lemma diff_fin close :
  diff close = match close with [] => [] | _ => NaN :: map Fin (deltas close) end.
Proof.
  destruct close as [|a r]; [reflexivity|].
  unfold diff, deltas. simpl tail. rewrite fmap_zip_with_fin. reflexivity.
Qed.

Lemma gains_fin close :
  where_ (fun d => ngt d (Fin 0)) (Fin 0) (diff close) = map Fin (gains close).
Proof.
  rewrite diff_fin. unfold gains, where_.
  destruct close as [|a r]; [reflexivity|].
  simpl. f_equal. rewrite !map_map. apply map_ext. intros d.
  unfold ngt, ncompare. destruct (d ?= 0)%Q; reflexivity.
Qed.

Lemma losses_fin close :
  map nneg (where_ (fun d => nlt d (Fin 0)) (Fin 0) (diff close)) =
  map Fin (losses close).
Proof.
  rewrite diff_fin. unfold losses, where_.
  destruct close as [|a r]; [reflexivity|].
  simpl. f_equal. rewrite !map_map. apply map_ext. intros d.
  unfold nlt, ncompare. destruct (d ?= 0)%Q; reflexivity.
Qed.

Lemma length_deltas close : length (deltas close) = (length close - 1)%nat.
Proof.
  unfold deltas. rewrite length_zip_with.
  destruct close; [reflexivity|]. cbn [tail length]. lia.
Qed.

Lemma length_gains close : length (gains close) = length close.
Proof.
  unfold gains. destruct close as [|a r]; [reflexivity|].
  simpl length. rewrite length_map, length_deltas. simpl. lia.
Qed.

Lemma length_losses close : length (losses close) = length close.
Proof.
  unfold losses. destruct close as [|a r]; [reflexivity|].
  rewrite length_map. simpl length. rewrite length_map, length_deltas. simpl. lia.
Qed.

Lemma rsi_series_lookup close i g l :
  rsi_gain close !! i = Some g -> rsi_loss close !! i = Some l ->
  rsi_series close !! i = Some (rsi_of g l).
Proof.
  intros Hg Hl. unfold rsi_series. rewrite lookup_zip_with, Hg. simpl.
  rewrite Hl. reflexivity.
Qed.

Lemma rsi_warm_up close i :
  (i < 13)%nat -> (i < length close)%nat -> rsi_series close !! i = Some NaN.
Proof.
  intros Hi Hlen.
  assert (Hg : rsi_gain close !! i = Some NaN).
  { unfold rsi_gain, rolling_mean. rewrite gains_fin.
    apply rolling_warm_up; [lia|]. rewrite length_map, length_gains. assumption. }
  assert (Hl : rsi_loss close !! i = Some NaN).
  { unfold rsi_loss, rolling_mean. rewrite losses_fin.
    apply rolling_warm_up; [lia|]. rewrite length_map, length_losses. assumption. }
  rewrite (rsi_series_lookup _ _ _ _ Hg Hl). reflexivity.
Qed.

Lemma rsi_filled close i :
  (13 <= i)%nat -> (i < length close)%nat ->
  rsi_series close !! i =
  Some (rsi_of (Fin (average (window 14 i (gains close))))
               (Fin (average (window 14 i (losses close))))).
Proof.
  intros Hi Hlen. apply rsi_series_lookup.
  - unfold rsi_gain. rewrite gains_fin.
    apply rolling_mean_fin; [lia|lia|]. rewrite length_gains. assumption.
  - unfold rsi_loss. rewrite losses_fin.
    apply rolling_mean_fin; [lia|lia|]. rewrite length_losses. assumption.
Qed.

(** The policy of the code when the average loss is zero. *)
Lemma rsi_of_no_loss g l :
  (0 < g)%Q -> (l == 0)%Q -> num_eq (rsi_of (Fin g) (Fin l)) (Fin 100).
Proof.
  intros Hg Hl. unfold rsi_of, ndiv.
  apply Qeq_alt in Hl. rewrite Hl.
  apply Qgt_alt in Hg. rewrite Hg. simpl. reflexivity.
Qed.

(** ** A series that only rises *)

Lemma deltas_cons a b r : deltas (a :: b :: r) = (b - a)%Q :: deltas (b :: r).
Proof. reflexivity. Qed.

Lemma increasing_deltas close :
  increasing close = true -> Forall (fun d => (0 < d)%Q) (deltas close).
Proof.
  induction close as [|a r IH]; [constructor|].
  destruct r as [|b r]; [constructor|].
  rewrite deltas_cons. simpl.
  destruct (a ?= b)%Q eqn:Hab; try discriminate.
  intros Hr. constructor; [|apply IH, Hr].
  apply Qlt_alt in Hab. lra.
Qed.

Lemma gains_nonneg close : Forall (fun g => (0 <= g)%Q) (gains close).
Proof.
  unfold gains. destruct close as [|a r]; constructor; [lra|].
  apply Forall_fmap, Forall_forall. intros d _. simpl.
  destruct (d ?= 0)%Q eqn:H; try lra.
  apply Qgt_alt in H. lra.
Qed.

Lemma gains_increasing close i g :
  increasing close = true -> (1 <= i)%nat ->
  gains close !! i = Some g -> (0 < g)%Q.
Proof.
  intros Hinc Hi. unfold gains. destruct close as [|a r]; [discriminate|].
  destruct i as [|i]; [lia|]. simpl.
  rewrite list_lookup_fmap.
  destruct (deltas (a :: r) !! i) as [d|] eqn:Hd; [|discriminate].
  simpl. intros [= <-].
  pose proof (increasing_deltas _ Hinc) as Hall.
  rewrite Forall_forall in Hall.
  assert (Hpos : (0 < d)%Q) by (apply Hall; eapply list_elem_of_lookup_2; eassumption).
  apply Qgt_alt in Hpos. rewrite Hpos. apply Qgt_alt. assumption.
Qed.

Lemma losses_increasing close :
  increasing close = true -> Forall (fun l => (l == 0)%Q) (losses close).
Proof.
  intros Hinc. unfold losses. destruct close as [|a r]; [constructor|].
  apply Forall_fmap. constructor; [reflexivity|].
  apply Forall_fmap.
  eapply Forall_impl; [apply increasing_deltas, Hinc|].
  intros d Hd. simpl. apply Qgt_alt in Hd. rewrite Hd. reflexivity.
Qed.

Lemma Qsum_nonneg l : Forall (fun x => (0 <= x)%Q) l -> (0 <= Qsum l)%Q.
Proof.
  induction 1 as [|x l Hx _ IH]; unfold Qsum in *; simpl; lra.
Qed.

Lemma Qsum_pos l j x :
  Forall (fun x => (0 <= x)%Q) l -> l !! j = Some x -> (0 < x)%Q -> (0 < Qsum l)%Q.
Proof.
  intros Hall. revert j. induction Hall as [|y l Hy Hl IH]; intros j Hj Hx;
    [discriminate|].
  pose proof (Qsum_nonneg l Hl) as Hs.
  unfold Qsum in *. destruct j as [|j]; simpl in *.
  - injection Hj as ->. lra.
  - specialize (IH _ Hj Hx). lra.
Qed.

Lemma Qsum_zero l : Forall (fun x => (x == 0)%Q) l -> (Qsum l == 0)%Q.
Proof.
  induction 1 as [|x l Hx _ IH]; unfold Qsum in *; simpl; lra.
Qed.

Lemma average_pos l : l <> [] -> (0 < Qsum l)%Q -> (0 < average l)%Q.
Proof.
  intros Hl Hs. unfold average. apply Qlt_shift_div_l; [|lra].
  destruct l as [|x l]; [contradiction|]. reflexivity.
Qed.

Lemma average_zero l : (Qsum l == 0)%Q -> (average l == 0)%Q.
Proof. intros Hs. unfold average, Qdiv. rewrite Hs. ring. Qed.

Lemma window_nonempty {A} w i (s : list A) :
  (0 < w)%nat -> (w <= S i)%nat -> (i < length s)%nat -> window w i s <> [].
Proof.
  intros Hw Hwi Hi He. apply (f_equal length) in He.
  rewrite window_length in He by assumption. simpl in He. lia.
Qed.

Lemma rsi_increasing close i :
  increasing close = true -> (13 <= i)%nat -> (i < length close)%nat ->
  exists v, rsi_series close !! i = Some v /\ num_eq v (Fin 100).
Proof.
  intros Hinc Hi Hlen. rewrite rsi_filled by assumption.
  eexists. split; [reflexivity|]. apply rsi_of_no_loss.
  - apply average_pos.
    + apply window_nonempty; [lia|lia|]. rewrite length_gains. assumption.
    + destruct (gains close !! i) as [g|] eqn:Hg.
      2:{ apply lookup_ge_None in Hg. rewrite length_gains in Hg. lia. }
      apply (Qsum_pos _ 13 g).
      * apply window_Forall, gains_nonneg.
      * rewrite <- Hg. apply (window_last 14 i); lia.
      * apply (gains_increasing close i); [assumption|lia|assumption].
  - apply average_zero, Qsum_zero, window_Forall, losses_increasing, Hinc.
Qed.

Lemma losses_nonneg close : Forall (fun l => (0 <= l)%Q) (losses close).
Proof.
  unfold losses. destruct close as [|a r]; [constructor|].
  apply Forall_fmap. constructor; [simpl; lra|].
  apply Forall_fmap, Forall_forall. intros d _. simpl.
  destruct (Qcompare_spec d 0); simpl; lra.
Qed.

Lemma average_nonneg l : Forall (fun x => (0 <= x)%Q) l -> (0 <= average l)%Q.
Proof.
  intros H. pose proof (Qsum_nonneg l H) as Hs.
  destruct l as [|x l]; [cbv; discriminate|].
  unfold average. apply Qle_shift_div_l; [reflexivity|lra].
Qed.

Lemma ndiv_fin_pos a b : (0 < b)%Q -> ndiv (Fin a) (Fin b) = Fin (a / b).
Proof. intros H. unfold ndiv. apply Qgt_alt in H. rewrite H. reflexivity. Qed.

Lemma ndiv_pos_zero a b : (0 < a)%Q -> (b == 0)%Q -> ndiv (Fin a) (Fin b) = PInf.
Proof.
  intros Ha Hb. unfold ndiv. apply Qeq_alt in Hb. rewrite Hb.
  apply Qgt_alt in Ha. rewrite Ha. reflexivity.
Qed.

Lemma ndiv_zero_zero a b : (a == 0)%Q -> (b == 0)%Q -> ndiv (Fin a) (Fin b) = NaN.
Proof.
  intros Ha Hb. unfold ndiv. apply Qeq_alt in Hb. rewrite Hb.
  apply Qeq_alt in Ha. rewrite Ha. reflexivity.
Qed.

Lemma rsi_of_range g l :
  (0 <= g)%Q -> (0 <= l)%Q ->
  ((g == 0)%Q /\ (l == 0)%Q /\ rsi_of (Fin g) (Fin l) = NaN) \/
  (~ ((g == 0)%Q /\ (l == 0)%Q) /\
   exists q, rsi_of (Fin g) (Fin l) = Fin q /\ (0 <= q <= 100)%Q).
Proof.
  intros Hg Hl. unfold rsi_of, num_of_Z.
  change (inject_Z 100) with 100%Q. change (inject_Z 1) with 1%Q.
  destruct (Qlt_le_dec 0 l) as [Hl0|Hl0].
  - right. split; [lra|].
    assert (Hd : (0 <= g / l)%Q) by (apply Qle_shift_div_l; lra).
    rewrite (ndiv_fin_pos g l Hl0). cbn [nadd].
    rewrite ndiv_fin_pos by lra. cbn.
    eexists. split; [reflexivity|].
    assert (H1 : (0 <= 100 / (1 + g / l))%Q) by (apply Qle_shift_div_l; lra).
    assert (H2 : (100 / (1 + g / l) <= 100)%Q) by (apply Qle_shift_div_r; lra).
    lra.
  - assert (Hz : (l == 0)%Q) by lra.
    destruct (Qlt_le_dec 0 g) as [Hg0|Hg0].
    + right. split; [lra|]. rewrite (ndiv_pos_zero g l Hg0 Hz). cbn.
      eexists. split; [reflexivity|]. lra.
    + assert (Hgz : (g == 0)%Q) by lra. left.
      rewrite (ndiv_zero_zero g l Hgz Hz). auto.
Qed.

(** ** The facts about the RSI *)

(** C7, as stated, fails at the fourteenth position: on the series
    1, 2, ..., 30 the RSI at index 13 is a number, 100. *)
Lemma C7_rsi_defined_at_position_14 : ~ rsi_undefined_first_14 rising.
Proof.
  intros H. specialize (H 13%nat).
  assert (Hv : exists q, rsi_series rising !! 13%nat = Some (Fin q))
    by (vm_compute; eauto).
  destruct Hv as (q & Hq). rewrite Hq in H.
  assert (Hn : Some (Fin q) = Some NaN) by (apply H; vm_compute; lia).
  discriminate Hn.
Qed.

(** C7, amended: the RSI at a position is [100 - 100 / (1 + RS)] with
    [RS = avgGain / avgLoss], the averages of the last 14 gains and of the
    last 14 losses, the first position counting as a change of 0.  It is
    undefined ([nan]) at the first 13 positions.  From the fourteenth
    position (index 13) on it has these averages: it is a number from 0 to
    100, unless both averages are zero (a window in which the price did
    not move), where it is [nan] as well.  With a positive average gain
    and a zero average loss it is 100: on a strictly increasing series the
    RSI is 100 at every index from 13 on. *)
Theorem C7_rsi_series (close : list Q) (i : nat) :
  (i < length close)%nat ->
  (forall g l,
      rsi_of g l =
      nsub (num_of_Z 100) (ndiv (num_of_Z 100) (nadd (num_of_Z 1) (ndiv g l))))
  /\ ((i < 13)%nat -> rsi_series close !! i = Some NaN)
  /\ ((13 <= i)%nat ->
      rsi_series close !! i =
      Some (rsi_of (Fin (average (window 14 i (gains close))))
                   (Fin (average (window 14 i (losses close))))))
  /\ (forall g l, (0 < g)%Q -> (l == 0)%Q ->
                  num_eq (rsi_of (Fin g) (Fin l)) (Fin 100))
  /\ ((13 <= i)%nat -> increasing close = true ->
      exists v, rsi_series close !! i = Some v /\ num_eq v (Fin 100))
  /\ ((13 <= i)%nat ->
      let g := average (window 14 i (gains close)) in
      let l := average (window 14 i (losses close)) in
      (0 <= g)%Q /\ (0 <= l)%Q /\
      (((g == 0)%Q /\ (l == 0)%Q /\ rsi_series close !! i = Some NaN)
       \/ (~ ((g == 0)%Q /\ (l == 0)%Q) /\
           exists q, rsi_series close !! i = Some (Fin q) /\
                     (0 <= q)%Q /\ (q <= 100)%Q))).
Proof.
  intros Hlen. split; [reflexivity|].
  split; [intros; apply rsi_warm_up; assumption|].
  split; [intros; apply rsi_filled; assumption|].
  split; [apply rsi_of_no_loss|].
  split; [intros Hi Hinc; apply rsi_increasing; assumption|].
  intros Hi g l.
  assert (Hg : (0 <= g)%Q) by (apply average_nonneg, window_Forall, gains_nonneg).
  assert (Hl : (0 <= l)%Q) by (apply average_nonneg, window_Forall, losses_nonneg).
  split; [exact Hg|]. split; [exact Hl|].
  rewrite rsi_filled by assumption. fold g l.
  destruct (rsi_of_range g l Hg Hl) as [(H1 & H2 & ->)|(Hn & q & -> & H0 & H100)].
  - left. auto.
  - right. split; [exact Hn|]. exists q. auto.
Qed.

Lemma C7_rsi_series_witness :
  (13 < length rising)%nat /\ increasing rising = true /\
  (exists v, rsi_series rising !! 13%nat = Some v /\ num_eq v (Fin 100)) /\
  (29 < length near_70)%nat /\
  (exists q, rsi_series near_70 !! 29%nat = Some (Fin q) /\
             (0 <= q)%Q /\ (q <= 100)%Q).
Proof.
  assert (Hlen : (13 < length rising)%nat) by (vm_compute; lia).
  assert (Hlen' : (29 < length near_70)%nat) by (vm_compute; lia).
  split; [exact Hlen|]. split; [reflexivity|].
  destruct (C7_rsi_series rising 13 Hlen) as (_ & _ & _ & _ & H & _).
  split; [apply H; [lia|reflexivity]|]. split; [exact Hlen'|].
  destruct (C7_rsi_series near_70 29 Hlen') as (_ & _ & _ & _ & _ & H').
  destruct (H' ltac:(lia)) as (_ & _ & [(Hg & _)|(_ & Hq)]); [|exact Hq].
  exfalso. vm_compute in Hg. discriminate Hg.
Defined.

(** ** The strategy route *)

Lemma analyse_ok sqrt symbol close s :
  analyse sqrt symbol close = Some s ->
  exists c r m sg g u l a,
    iloc close (-1) = Some c /\
    iloc (rsi_series close) (-1) = Some r /\
    iloc (macd_line close) (-1) = Some m /\
    iloc (signal_line close) (-1) = Some sg /\
    iloc (macd_hist close) (-1) = Some g /\
    iloc (upper_band sqrt close) (-1) = Some u /\
    iloc (lower_band sqrt close) (-1) = Some l /\
    iloc (sma20 close) (-1) = Some a /\
    s_price s = round (Fin c) 2 /\
    s_rsi s = round r 2 /\
    s_rsi_signal s = classify_rsi (round r 2) /\
    s_macd s = round (Fin m) 4 /\
    s_signal s = round (Fin sg) 4 /\
    s_macd_signal s = classify_macd (round (Fin m) 4) (round (Fin sg) 4) /\
    s_upper s = round u 2 /\
    s_lower s = round l 2 /\
    s_sma s = round a 2 /\
    s_bb_signal s = classify_bb (round (Fin c) 2) (round u 2) (round l 2) /\
    s_rsi_chart s = rsi_series close /\
    s_bb_chart s = (sma20 close, upper_band sqrt close, lower_band sqrt close).
Proof.
  unfold analyse. intros H.
  apply bind_Some in H as (c & Hc & H).
  apply bind_Some in H as (r & Hr & H).
  apply bind_Some in H as (m & Hm & H).
  apply bind_Some in H as (sg & Hsg & H).
  apply bind_Some in H as (g & Hg & H).
  apply bind_Some in H as (u & Hu & H).
  apply bind_Some in H as (l & Hl & H).
  apply bind_Some in H as (a & Ha & H).
  apply bind_Some in H as (cross & _ & H).
  injection H as <-.
  exists c, r, m, sg, g, u, l, a. repeat split; assumption.
Qed.

Lemma get_strategy_ok sqrt E req w s :
  fst (get_strategy sqrt E req w) = Ret (Ok s) ->
  exists hist,
    yf E (calls w) (yearly req) = Frame hist /\
    (30 <= length hist)%nat /\
    analyse sqrt (normalize req) (map Close hist) = Some s.
Proof.
  unfold get_strategy, yearly. intros H.
  destruct (negb (truthy (normalize req))); [discriminate H|]. run.
  destruct (yf E (calls w) _) as [|hist]; [discriminate H|].
  exists hist. split; [reflexivity|].
  destruct (is_empty hist) eqn:He; [discriminate H|]. simpl in H.
  destruct (bool_decide (length hist < 30)%nat) eqn:Hl; [discriminate H|].
  apply bool_decide_eq_false in Hl. split; [lia|].
  destruct (analyse sqrt (normalize req) (map Close hist)); [|discriminate H].
  simpl in H. congruence.
Qed.

(** The analysis never raises on a series that is not empty: every series
    it indexes is as long as the closes. *)

Lemma iloc_last_Some {A} (l : list A) :
  (0 < length l)%nat -> exists x, iloc l (-1) = Some x.
Proof.
  intros Hl. rewrite iloc_last.
  destruct (reverse l) as [|x r] eqn:Hr; [|eauto].
  apply (f_equal length) in Hr. rewrite length_reverse in Hr. simpl in Hr. lia.
Qed.

Lemma length_diff close : length (diff close) = length close.
Proof.
  destruct close as [|a r]; [reflexivity|].
  unfold diff. cbn [length]. rewrite length_zip_with. cbn [length]. lia.
Qed.

Lemma length_ewm_go alpha xs : forall prev, length (ewm_go alpha prev xs) = length xs.
Proof. induction xs as [|x r IH]; intros prev; simpl; [|rewrite IH]; reflexivity. Qed.

Lemma length_ewm_mean span xs : length (ewm_mean span xs) = length xs.
Proof. destruct xs; simpl; [|rewrite length_ewm_go]; reflexivity. Qed.

Lemma length_rsi_series close : length (rsi_series close) = length close.
Proof.
  unfold rsi_series, rsi_gain, rsi_loss, rolling_mean, where_.
  rewrite length_zip_with, !length_rolling, !length_map, length_diff. lia.
Qed.

Lemma length_macd_line close : length (macd_line close) = length close.
Proof. unfold macd_line. rewrite length_zip_with, !length_ewm_mean. lia. Qed.

Lemma length_signal_line close : length (signal_line close) = length close.
Proof. unfold signal_line. rewrite length_ewm_mean. apply length_macd_line. Qed.

Lemma length_macd_hist close : length (macd_hist close) = length close.
Proof.
  unfold macd_hist.
  rewrite length_zip_with, length_macd_line, length_signal_line. lia.
Qed.

Lemma length_sma20 close : length (sma20 close) = length close.
Proof. unfold sma20, rolling_mean. rewrite length_rolling, length_map. reflexivity. Qed.

Lemma length_std20 sqrt close : length (std20 sqrt close) = length close.
Proof. unfold std20, rolling_std. rewrite length_rolling, length_map. reflexivity. Qed.

Lemma length_upper_band sqrt close : length (upper_band sqrt close) = length close.
Proof.
  unfold upper_band.
  rewrite length_zip_with, length_map, length_sma20, length_std20. lia.
Qed.

Lemma length_lower_band sqrt close : length (lower_band sqrt close) = length close.
Proof.
  unfold lower_band.
  rewrite length_zip_with, length_map, length_sma20, length_std20. lia.
Qed.

Lemma is_Some_bind {A B} (mx : option A) (f : A -> option B) x :
  mx = Some x -> is_Some (f x) -> is_Some (mx ≫= f).
Proof. intros -> H. exact H. Qed.

Lemma analyse_total sqrt symbol close :
  (0 < length close)%nat -> is_Some (analyse sqrt symbol close).
Proof.
  intros Hlen. unfold analyse.
  destruct (iloc_last_Some close Hlen) as [c Hc].
  eapply is_Some_bind; [exact Hc|]. cbv zeta.
  destruct (iloc_last_Some (rsi_series close)) as [r Hr];
    [rewrite length_rsi_series; exact Hlen|].
  eapply is_Some_bind; [exact Hr|].
  destruct (iloc_last_Some (macd_line close)) as [m Hm];
    [rewrite length_macd_line; exact Hlen|].
  eapply is_Some_bind; [exact Hm|].
  destruct (iloc_last_Some (signal_line close)) as [sg Hsg];
    [rewrite length_signal_line; exact Hlen|].
  eapply is_Some_bind; [exact Hsg|].
  destruct (iloc_last_Some (macd_hist close)) as [g Hg];
    [rewrite length_macd_hist; exact Hlen|].
  eapply is_Some_bind; [exact Hg|].
  destruct (iloc_last_Some (upper_band sqrt close)) as [u Hu];
    [rewrite length_upper_band; exact Hlen|].
  eapply is_Some_bind; [exact Hu|].
  destruct (iloc_last_Some (lower_band sqrt close)) as [l Hl];
    [rewrite length_lower_band; exact Hlen|].
  eapply is_Some_bind; [exact Hl|].
  destruct (iloc_last_Some (sma20 close)) as [a Ha];
    [rewrite length_sma20; exact Hlen|].
  eapply is_Some_bind; [exact Ha|].
  assert (Hcross : exists cross,
    match (if decide (200 <= length close)%nat
           then Some (rolling_mean 200 (map Fin close)) else None) with
    | Some ma200 =>
        x ← iloc (rolling_mean 50 (map Fin close)) (-1);
        y ← iloc ma200 (-1);
        Some (if negb (is_nan x) && negb (is_nan y)
              then Some (ngt x y) else None)
    | None => Some None
    end = Some cross).
  { destruct (decide (200 <= length close)%nat); [|eauto].
    destruct (iloc_last_Some (rolling_mean 50 (map Fin close))) as [x Hx];
      [unfold rolling_mean; rewrite length_rolling, length_map; exact Hlen|].
    destruct (iloc_last_Some (rolling_mean 200 (map Fin close))) as [y Hy];
      [unfold rolling_mean; rewrite length_rolling, length_map; exact Hlen|].
    rewrite Hx. cbn [mbind option_bind]. rewrite Hy. cbn [mbind option_bind].
    eauto. }
  destruct Hcross as [cross Hcross].
  eapply is_Some_bind; [exact Hcross|]. eauto.
Qed.

Lemma get_strategy_run sqrt E req w hist s :
  normalize req <> ""%string ->
  yf E (calls w) (yearly req) = Frame hist ->
  (30 <= length hist)%nat ->
  analyse sqrt (normalize req) (map Close hist) = Some s ->
  fst (get_strategy sqrt E req w) = Ret (Ok s).
Proof.
  unfold get_strategy, yearly. intros Hn Hy Hlen Ha.
  apply truthy_nonempty in Hn. rewrite Hn. cbn [negb]. run.
  rewrite Hy.
  destruct hist as [|x hist]; [simpl in Hlen; lia|]. cbn [is_empty orb].
  rewrite bool_decide_eq_false_2 by lia.
  rewrite Ha. reflexivity.
Qed.

(** The route answers with an analysis whenever the provider returns at
    least thirty rows. *)
Lemma get_strategy_answers sqrt E req w hist :
  normalize req <> ""%string ->
  yf E (calls w) (yearly req) = Frame hist ->
  (30 <= length hist)%nat ->
  exists s, fst (get_strategy sqrt E req w) = Ret (Ok s).
Proof.
  intros Hn Hy Hlen.
  destruct (analyse_total sqrt (normalize req) (map Close hist)) as [s Hs];
    [rewrite length_map; lia|].
  exists s. eapply get_strategy_run; eassumption.
Qed.

(** ** The Bollinger bands *)

Lemma std_fin sqrt (l : list Q) :
  length l = 20%nat -> std sqrt (map Fin l) = Fin (deviation sqrt l).
Proof.
  intros Hlen. unfold std, deviation.
  rewrite mean_fin by (intros ->; discriminate Hlen).
  rewrite map_map.
  rewrite <- (map_map (fun x => ((x - average l) * (x - average l))%Q) Fin).
  rewrite nsum_fin, length_map, Hlen. reflexivity.
Qed.

Lemma sma20_filled close i :
  (19 <= i)%nat -> (i < length close)%nat ->
  sma20 close !! i = Some (Fin (average (window 20 i close))).
Proof. intros. unfold sma20. apply rolling_mean_fin; lia. Qed.

Lemma std20_filled sqrt close i :
  (19 <= i)%nat -> (i < length close)%nat ->
  std20 sqrt close !! i = Some (Fin (deviation sqrt (window 20 i close))).
Proof.
  intros Hi Hlen. unfold std20, rolling_std.
  rewrite rolling_lookup by (rewrite length_map; assumption).
  destruct (decide (S i < 20)%nat); [lia|].
  rewrite window_fmap, no_nan_fin, std_fin; [reflexivity|].
  apply window_length; lia.
Qed.

Lemma sqrt_approx_nonneg x : (0 <= sqrt_approx x)%Q.
Proof.
  unfold sqrt_approx, Qle. cbn [Qnum Qden].
  rewrite Z.mul_0_l, Z.mul_1_r. apply Z.sqrt_nonneg.
Qed.

(** C9: where the 20-sample window is filled, the middle band is the
    arithmetic mean of the last 20 closes, SMA(20); the upper and the lower
    band are this mean plus and minus twice the sample standard deviation
    of the window, and upper >= SMA20 >= lower.  The middle band the
    strategy route draws is that same series. *)
Theorem C9_bollinger_bands (sqrt : Q -> Q) (close : list Q) (i : nat) :
  (forall x, (0 <= sqrt x)%Q) ->
  (19 <= i)%nat -> (i < length close)%nat ->
  let m := average (window 20 i close) in
  let sd := deviation sqrt (window 20 i close) in
  sma20 close !! i = Some (Fin m)
  /\ upper_band sqrt close !! i = Some (Fin (m + sd * inject_Z 2))
  /\ lower_band sqrt close !! i = Some (Fin (m + - (sd * inject_Z 2)))
  /\ (m + - (sd * inject_Z 2) <= m)%Q
  /\ (m <= m + sd * inject_Z 2)%Q
  /\ (forall E req w s,
        fst (get_strategy sqrt E req w) = Ret (Ok s) ->
        exists hist,
          yf E (calls w) (yearly req) = Frame hist /\
          s_bb_chart s = (sma20 (map Close hist),
                          upper_band sqrt (map Close hist),
                          lower_band sqrt (map Close hist))).
Proof.
  intros Hsqrt Hi Hlen m sd.
  assert (Hm : sma20 close !! i = Some (Fin m)) by (apply sma20_filled; assumption).
  assert (Hs : std20 sqrt close !! i = Some (Fin sd))
    by (apply std20_filled; assumption).
  assert (Hsd : (0 <= sd)%Q) by apply Hsqrt.
  assert (H2 : (inject_Z 2 == 2)%Q) by reflexivity.
  split; [exact Hm|].
  split; [|split; [|split; [|split]]].
  - unfold upper_band. rewrite lookup_zip_with, Hm. simpl.
    rewrite list_lookup_fmap, Hs. reflexivity.
  - unfold lower_band. rewrite lookup_zip_with, Hm. simpl.
    rewrite list_lookup_fmap, Hs. reflexivity.
  - rewrite H2. lra.
  - rewrite H2. lra.
  - intros E req w s Hok.
    destruct (get_strategy_ok _ _ _ _ _ Hok) as (hist & Hy & _ & Ha).
    exists hist. split; [exact Hy|].
    destruct (analyse_ok _ _ _ _ Ha)
      as (? & ? & ? & ? & ? & ? & ? & ? & H); tauto.
Qed.

Lemma C9_bollinger_bands_witness :
  (forall x, (0 <= sqrt_approx x)%Q) /\ (19 < length rising)%nat /\
  exists m u l,
    sma20 rising !! 19%nat = Some (Fin m) /\
    upper_band sqrt_approx rising !! 19%nat = Some (Fin u) /\
    lower_band sqrt_approx rising !! 19%nat = Some (Fin l) /\
    (l <= m)%Q /\ (m <= u)%Q.
Proof.
  assert (Hlen : (19 < length rising)%nat) by (vm_compute; lia).
  split; [exact sqrt_approx_nonneg|]. split; [exact Hlen|].
  destruct (C9_bollinger_bands sqrt_approx rising 19 sqrt_approx_nonneg
              (le_n 19) Hlen) as (Hm & Hu & Hl & Hlo & Hhi & _).
  eexists _, _, _. repeat split; eassumption.
Defined.

(** ** The signals *)

Lemma ngt_fin a b : ngt (Fin a) (Fin b) = true <-> (b < a)%Q.
Proof.
  unfold ngt, ncompare. rewrite Qgt_alt.
  destruct (a ?= b)%Q; split; congruence.
Qed.

Lemma nlt_fin a b : nlt (Fin a) (Fin b) = true <-> (a < b)%Q.
Proof.
  unfold nlt, ncompare. rewrite Qlt_alt.
  destruct (a ?= b)%Q; split; congruence.
Qed.

Lemma nge_fin a b : nge (Fin a) (Fin b) = true <-> (b <= a)%Q.
Proof.
  unfold nge, ncompare. rewrite Qle_alt, <- (Qcompare_antisym a b).
  destruct (a ?= b)%Q; simpl; split; congruence.
Qed.

Lemma nle_fin a b : nle (Fin a) (Fin b) = true <-> (a <= b)%Q.
Proof.
  unfold nle, ncompare. rewrite Qle_alt.
  destruct (a ?= b)%Q; split; congruence.
Qed.

(** C8, as stated, fails: on [near_70] the last RSI is 70.001, strictly
    greater than 70, and the route answers Neutral, because it compares
    the RSI rounded to two decimals, 70.00. *)
Lemma C8_rsi_above_70_neutral :
  ~ classifies_values sqrt_approx E_near_70 "tsla" initial_world.
Proof.
  intros H.
  assert (Hn : normalize "tsla" <> ""%string)
    by (intros Hn; vm_compute in Hn; discriminate Hn).
  assert (Hlen : (30 <= length (map flat_row near_70))%nat) by (vm_compute; lia).
  destruct (get_strategy_answers sqrt_approx E_near_70 "tsla" initial_world
              (map flat_row near_70) Hn eq_refl Hlen) as [s Hs].
  destruct (get_strategy_ok _ _ _ _ _ Hs) as (hist & Hy & _ & Ha).
  injection Hy as <-.
  destruct (analyse_ok _ _ _ _ Ha)
    as (c & r & m & sg & g & u & l & a & Hc & Hr & Hm & Hsg & _ & Hu & Hl & _ &
        _ & _ & Hrs & _).
  destruct (H s (map flat_row near_70) r m sg c u l Hs eq_refl Hr Hm Hsg Hc Hu Hl)
    as (Hrsi & _).
  rewrite Hrs in Hrsi. clear - Hr Hrsi.
  vm_compute in Hr. injection Hr as <-.
  vm_compute in Hrsi. discriminate Hrsi.
Qed.

(** C8, amended: the route applies the stated boundaries to the values it
    reports, that is to the RSI rounded to two decimals, to the MACD and
    signal values rounded to four decimals, and to the price and the
    bands rounded to two decimals.  RSI > 70 is Overbought, else RSI < 30
    is Oversold, else Neutral; MACD > signal is Bullish, else Bearish;
    price >= upper is Overbought, else price <= lower is Oversold, else
    Normal.  A comparison with [nan] is false. *)
Theorem C8_signals_on_reported_values
    (sqrt : Q -> Q) (E : env) (req : string) (w : world) (s : strategy) :
  fst (get_strategy sqrt E req w) = Ret (Ok s) ->
  (exists hist c r m sg u l,
      yf E (calls w) (yearly req) = Frame hist /\
      iloc (map Close hist) (-1) = Some c /\
      iloc (rsi_series (map Close hist)) (-1) = Some r /\
      iloc (macd_line (map Close hist)) (-1) = Some m /\
      iloc (signal_line (map Close hist)) (-1) = Some sg /\
      iloc (upper_band sqrt (map Close hist)) (-1) = Some u /\
      iloc (lower_band sqrt (map Close hist)) (-1) = Some l /\
      s_price s = round (Fin c) 2 /\
      s_rsi s = round r 2 /\
      s_macd s = round (Fin m) 4 /\
      s_signal s = round (Fin sg) 4 /\
      s_upper s = round u 2 /\
      s_lower s = round l 2)
  /\ s_rsi_signal s =
       (if ngt (s_rsi s) (num_of_Z 70) then RsiOverbought
        else if nlt (s_rsi s) (num_of_Z 30) then RsiOversold
        else RsiNeutral)
  /\ s_macd_signal s =
       (if ngt (s_macd s) (s_signal s) then Bullish else Bearish)
  /\ s_bb_signal s =
       (if nge (s_price s) (s_upper s) then BbOverbought
        else if nle (s_price s) (s_lower s) then BbOversold
        else BbNormal)
  /\ (forall a b, (ngt (Fin a) (Fin b) = true <-> (b < a)%Q) /\
                  (nlt (Fin a) (Fin b) = true <-> (a < b)%Q) /\
                  (nge (Fin a) (Fin b) = true <-> (b <= a)%Q) /\
                  (nle (Fin a) (Fin b) = true <-> (a <= b)%Q))
  /\ (forall x, ngt NaN x = false /\ nlt NaN x = false /\
                nge x NaN = false /\ nle x NaN = false).
Proof.
  intros Hok.
  destruct (get_strategy_ok _ _ _ _ _ Hok) as (hist & Hy & _ & Ha).
  destruct (analyse_ok _ _ _ _ Ha)
    as (c & r & m & sg & g & u & l & a & Hc & Hr & Hm & Hsg & _ & Hu & Hl & _ &
        Hp & Hrsi & Hrs & Hmacd & Hsig & Hms & Hup & Hlo & _ & Hbb & _).
  split; [exists hist, c, r, m, sg, u, l; repeat split; assumption|].
  split; [rewrite Hrs, Hrsi; reflexivity|].
  split; [rewrite Hms, Hmacd, Hsig; reflexivity|].
  split; [rewrite Hbb, Hp, Hup, Hlo; reflexivity|].
  split.
  - intros x y. split; [apply ngt_fin|]. split; [apply nlt_fin|].
    split; [apply nge_fin|apply nle_fin].
  - intros x. repeat split; try reflexivity; destruct x; reflexivity.
Qed.

Lemma C8_signals_on_reported_values_witness :
  exists s,
    fst (get_strategy sqrt_approx E_near_70 "tsla" initial_world) = Ret (Ok s) /\
    s_rsi_signal s =
      (if ngt (s_rsi s) (num_of_Z 70) then RsiOverbought
       else if nlt (s_rsi s) (num_of_Z 30) then RsiOversold
       else RsiNeutral).
Proof.
  assert (Hn : normalize "tsla" <> ""%string)
    by (intros Hn; vm_compute in Hn; discriminate Hn).
  assert (Hlen : (30 <= length (map flat_row near_70))%nat) by (vm_compute; lia).
  destruct (get_strategy_answers sqrt_approx E_near_70 "tsla" initial_world
              (map flat_row near_70) Hn eq_refl Hlen) as [s Hs].
  exists s. split; [exact Hs|].
  destruct (C8_signals_on_reported_values sqrt_approx E_near_70 "tsla"
              initial_world s Hs) as (_ & H & _).
  exact H.
Defined.

(** * Further properties of the cache, the refreshers and the routes *)

Lemma omap_length_le {A B} (f : A -> option B) (l : list A) :
  (length (omap f l) <= length l)%nat.
Proof.
  induction l as [|x l IH]; [reflexivity|].
  cbn. destruct (f x); cbn; lia.
Qed.

(** X1: a ticker cycle asks the provider for every watchlist symbol once,
    in watchlist order, whatever fails on the way; it reads the clock
    once, commits at most one quote per watchlist symbol, and leaves the
    watchlist, the chart table and the focus as they were.  The live-price
    route then answers what the cycle committed. *)
Theorem X1_ticker_cycle_never_aborts (E : env) (w : world) :
  let w' := snd (_bg_update_ticker E w) in
  fst (_bg_update_ticker E w) = Ret tt
  /\ new_calls w w' = map daily (ticker_symbols (cache w))
  /\ ticks w' = S (ticks w)
  /\ (length (ticker (cache w')) <= length (ticker_symbols (cache w)))%nat
  /\ ticker_symbols (cache w') = ticker_symbols (cache w)
  /\ charts (cache w') = charts (cache w)
  /\ chart_symbol (cache w') = chart_symbol (cache w)
  /\ fst (get_live_price w') = Ret (ticker (cache w'), timestamp (cache w'))
  /\ timestamp (cache w') = strftime "%H:%M:%S" (clock E (ticks w)).
Proof.
  intros w'. subst w'. rewrite bg_update_ticker_run. simpl.
  repeat split.
  - apply new_calls_app. reflexivity.
  - rewrite <- (ticker_trace_symbols E (ticker_symbols (cache w)) (calls w)) at 2.
    rewrite length_map. apply omap_length_le.
Qed.

Lemma chart_entry_Some x h d t : is_Some (chart_entry (x :: h) d t).
Proof.
  unfold chart_entry.
  destruct (iloc_last_Some (map Close (x :: h))) as [c Hc]; [simpl; lia|].
  rewrite Hc. cbn. eauto.
Qed.

Lemma refresh_chart_run E sym w :
  refresh_chart E sym w =
  (Ret tt,
   match fst (fetch_intraday E sym (calls w)) with
   | Frame (x :: h) =>
       match chart_entry (x :: h) (clock E (ticks w)) (clock E (S (ticks w))) with
       | Some c =>
           {| cache := set_chart sym c (cache w);
              calls := calls w ++ snd (fetch_intraday E sym (calls w));
              ticks := S (S (ticks w)) |}
       | None => with_calls w (calls w ++ snd (fetch_intraday E sym (calls w)))
       end
   | _ => with_calls w (calls w ++ snd (fetch_intraday E sym (calls w)))
   end).
Proof.
  unfold refresh_chart, fetch_intraday, chart_entry, with_calls.
  unfold try_except, history, now, lift_opt, write_cache, mbind at 1 2, M_bind, bind,
    mret, M_ret, ret, raise.
  cbn [calls cache ticks].
  destruct (yf E (calls w) (mk_call sym "1d" "1m")) as [|[|x h]];
    cbn [fst snd is_empty negb calls cache ticks].
  - reflexivity.
  - destruct (yf E (calls w ++ [mk_call sym "1d" "1m"]) (mk_call sym "5d" "5m"))
      as [|[|x h]]; cbn [fst snd is_empty negb calls cache ticks].
    + rewrite <- app_assoc. reflexivity.
    + rewrite <- app_assoc. reflexivity.
    + destruct (iloc (map Close (x :: h)) (-1)) as [c|];
        cbn [mbind option_bind calls cache ticks]; rewrite <- ?app_assoc; reflexivity.
  - destruct (iloc (map Close (x :: h)) (-1)) as [c|];
      cbn [mbind option_bind calls cache ticks]; reflexivity.
Qed.

Lemma bootstrap_chart_run E sym w :
  bootstrap_chart E sym w =
  match fst (fetch_intraday E sym (calls w)) with
  | Frame (x :: h) =>
      match chart_entry (x :: h) (clock E (ticks w)) (clock E (S (ticks w))) with
      | Some c =>
          (Ret (Ok c),
           {| cache := set_chart sym c (cache w);
              calls := calls w ++ snd (fetch_intraday E sym (calls w));
              ticks := S (S (ticks w)) |})
      | None =>
          (Ret (Error 500),
           with_calls w (calls w ++ snd (fetch_intraday E sym (calls w))))
      end
  | Frame [] =>
      (Ret (Error 404), with_calls w (calls w ++ snd (fetch_intraday E sym (calls w))))
  | Raised =>
      (Ret (Error 500), with_calls w (calls w ++ snd (fetch_intraday E sym (calls w))))
  end.
Proof.
  unfold bootstrap_chart, fetch_intraday, chart_entry, with_calls.
  unfold try_except, history, now, lift_opt, write_cache, mbind at 1 2, M_bind, bind,
    mret, M_ret, ret, raise.
  cbn [calls cache ticks].
  destruct (yf E (calls w) (mk_call sym "1d" "1m")) as [|[|x h]];
    cbn [fst snd is_empty negb calls cache ticks].
  - reflexivity.
  - destruct (yf E (calls w ++ [mk_call sym "1d" "1m"]) (mk_call sym "5d" "5m"))
      as [|[|x h]]; cbn [fst snd is_empty negb calls cache ticks].
    + rewrite <- app_assoc. reflexivity.
    + rewrite <- app_assoc. reflexivity.
    + destruct (iloc (map Close (x :: h)) (-1)) as [c|];
        cbn [mbind option_bind calls cache ticks]; rewrite <- ?app_assoc; reflexivity.
  - destruct (iloc (map Close (x :: h)) (-1)) as [c|];
      cbn [mbind option_bind calls cache ticks]; reflexivity.
Qed.

Lemma get_live_chart_run E req w :
  normalize req <> ""%string ->
  get_live_chart E req w =
  match charts (cache w) !! normalize req with
  | Some c => (Ret (Ok c), with_focus (normalize req) w)
  | None => bootstrap_chart E (normalize req) (with_focus (normalize req) w)
  end.
Proof.
  intros Hn. unfold get_live_chart. apply truthy_nonempty in Hn. rewrite Hn.
  cbn [negb]. unfold mbind, M_bind, bind, write_cache, read_cache, mret, M_ret, ret.
  cbn [cache set_chart_symbol charts]. fold (with_focus (normalize req) w).
  destruct (charts (cache w) !! normalize req); reflexivity.
Qed.

Lemma bg_update_chart_run E w sym :
  chart_symbol (cache w) = Some sym -> sym <> ""%string ->
  _bg_update_chart E w = refresh_chart E sym w.
Proof.
  intros Hs Hn. unfold _bg_update_chart, mbind, M_bind, bind, read_cache.
  rewrite Hs. apply truthy_nonempty in Hn. rewrite Hn. reflexivity.
Qed.

(** X2: what a cycle of the chart refresher does.  Without a focus, or
    with the empty symbol as focus, it does nothing at all.  Otherwise it
    asks for the one-minute bars of the day and, only if that frame is
    empty, for the five-minute bars of five days.  If a fetch raises or
    both frames are empty the cache is left as it was, the previous entry
    included; otherwise the entry of the focused symbol, and nothing else,
    is replaced by the one built from the frame. *)
Theorem X2_chart_refresher_outcomes (E : env) (w : world) (sym : string) :
  chart_symbol (cache w) = Some sym ->
  sym <> ""%string ->
  let w' := snd (_bg_update_chart E w) in
  new_calls w w' = snd (fetch_intraday E sym (calls w))
  /\ match fst (fetch_intraday E sym (calls w)) with
     | Frame (x :: h) =>
         exists c,
           chart_entry (x :: h) (clock E (ticks w)) (clock E (S (ticks w))) = Some c /\
           cache w' = set_chart sym c (cache w) /\
           Chart.prices c = map Close (x :: h) /\
           Chart.timestamp c = strftime "%H:%M:%S" (clock E (S (ticks w)))
     | _ => cache w' = cache w /\ ticks w' = ticks w
     end
  /\ (forall w0, chart_symbol (cache w0) = None \/
                 chart_symbol (cache w0) = Some ""%string ->
                 _bg_update_chart E w0 = (Ret tt, w0)).
Proof.
  intros Hs Hn w'. subst w'. rewrite (bg_update_chart_run E w sym Hs Hn).
  rewrite refresh_chart_run. cbn [snd]. split; [|split].
  - apply new_calls_app.
    destruct (fst (fetch_intraday E sym (calls w))) as [|[|x h]]; try reflexivity.
    destruct (chart_entry _ _ _); reflexivity.
  - destruct (fst (fetch_intraday E sym (calls w))) as [|[|x h]];
      try (split; reflexivity).
    destruct (chart_entry_Some x h (clock E (ticks w)) (clock E (S (ticks w))))
      as [c Hc].
    rewrite Hc. exists c. split; [reflexivity|]. split; [reflexivity|].
    unfold chart_entry in Hc.
    apply bind_Some in Hc as (a & _ & Hc). apply bind_Some in Hc as (b & _ & Hc).
    injection Hc as <-. split; reflexivity.
  - intros w0 [H0|H0]; unfold _bg_update_chart, mbind, M_bind, bind, read_cache;
      rewrite H0; reflexivity.
Qed.

Lemma X2_chart_refresher_outcomes_witness :
  chart_symbol (cache w_msft) = Some "MSFT"%string /\
  exists c,
    charts (cache (snd (_bg_update_chart E_chart w_msft))) !! "MSFT"%string = Some c /\
    Chart.prices c = [410%Q; 411%Q].
Proof.
  split; [reflexivity|].
  assert (Hn : "MSFT"%string <> ""%string) by discriminate.
  destruct (X2_chart_refresher_outcomes E_chart w_msft "MSFT" eq_refl Hn)
    as (_ & H & _).
  change (fst (fetch_intraday E_chart "MSFT" (calls w_msft)))
    with (Frame [bar 9 30 410 411 409 410; bar 9 31 410 412 410 411]) in H.
  destruct H as (c & _ & Hc & Hp & _).
  exists c. rewrite Hc. split; [apply lookup_insert_eq|exact Hp].
Defined.

(** X3: the live-chart route on a blank symbol and on a hit.  A symbol
    that is empty once normalized is refused with 400 and nothing changes,
    not even the focus.  When the symbol has an entry, the route answers
    that entry and moves the focus; it neither asks the provider nor reads
    the clock, however old the entry is. *)
Theorem X3_live_chart_hit (E : env) (w : world) (req : string) :
  (normalize req = ""%string -> get_live_chart E req w = (Ret (Error 400), w))
  /\ (forall c,
        normalize req <> ""%string ->
        charts (cache w) !! normalize req = Some c ->
        get_live_chart E req w = (Ret (Ok c), with_focus (normalize req) w)).
Proof.
  split.
  - intros Hn. unfold get_live_chart. rewrite Hn. reflexivity.
  - intros c Hn Hc. rewrite get_live_chart_run by assumption. rewrite Hc. reflexivity.
Qed.

Lemma X3_live_chart_hit_witness :
  exists c,
    charts (cache w_tsla) !! normalize "tsla" = Some c /\
    get_live_chart E_chart "tsla" w_tsla = (Ret (Ok c), with_focus "TSLA" w_tsla).
Proof.
  destruct (charts (cache w_tsla) !! normalize "tsla") as [c|] eqn:Hc;
    [|vm_compute in Hc; discriminate Hc].
  exists c. split; [reflexivity|].
  assert (Hn : normalize "tsla" <> ""%string)
    by (intros H; vm_compute in H; discriminate H).
  destruct (X3_live_chart_hit E_chart w_tsla "tsla") as (_ & H).
  apply (H c Hn Hc).
Defined.

(** X4: a live-chart request that fails still moves the focus.  On a miss,
    if a fetch raises the answer is 500, and if both frames are empty it
    is 404; the chart table is unchanged in both cases, but the focus is
    now the requested symbol, so the next cycle of the chart refresher
    asks the provider for that symbol. *)
Theorem X4_live_chart_failure_moves_focus (E : env) (w : world) (req : string) :
  normalize req <> ""%string ->
  charts (cache w) !! normalize req = None ->
  (forall x h, fst (fetch_intraday E (normalize req) (calls w)) <> Frame (x :: h)) ->
  let w' := snd (get_live_chart E req w) in
  fst (get_live_chart E req w) =
    Ret (Error (match fst (fetch_intraday E (normalize req) (calls w)) with
                | Raised => 500
                | Frame _ => 404
                end))
  /\ charts (cache w') = charts (cache w)
  /\ chart_symbol (cache w') = Some (normalize req)
  /\ ticks w' = ticks w
  /\ head (new_calls w' (snd (_bg_update_chart E w'))) =
       Some (mk_call (normalize req) "1d" "1m").
Proof.
  intros Hn Hc Hfail w'. subst w'.
  rewrite get_live_chart_run by assumption. rewrite Hc.
  rewrite bootstrap_chart_run. cbn [with_focus calls cache ticks].
  assert (Hw : forall r new,
    (forall x h, r <> Frame (x :: h)) ->
    let res := match r with
      | Frame (x :: h) =>
          match chart_entry (x :: h) (clock E (ticks w)) (clock E (S (ticks w))) with
          | Some c =>
              (Ret (Ok c),
               {| cache := set_chart (normalize req) c
                             (set_chart_symbol (normalize req) (cache w));
                  calls := calls w ++ new; ticks := S (S (ticks w)) |})
          | None =>
              (Ret (Error 500),
               with_calls (with_focus (normalize req) w) (calls w ++ new))
          end
      | Frame [] =>
          (Ret (Error 404), with_calls (with_focus (normalize req) w) (calls w ++ new))
      | Raised =>
          (Ret (Error 500), with_calls (with_focus (normalize req) w) (calls w ++ new))
      end in
    fst res = Ret (Error (match r with Raised => 500 | Frame _ => 404 end)) /\
    cache (snd res) = set_chart_symbol (normalize req) (cache w) /\
    ticks (snd res) = ticks w /\
    calls (snd res) = calls w ++ new).
  { intros r new Hr. destruct r as [|[|x h]]; cbn; auto.
    destruct (Hr x h eq_refl). }
  specialize (Hw _ (snd (fetch_intraday E (normalize req) (calls w))) Hfail).
  cbv zeta in Hw. destruct Hw as (Hres & Hcache & Hticks & Hcalls).
  unfold with_focus in Hres, Hcache, Hticks, Hcalls |- *.
  cbn [calls cache ticks] in Hres, Hcache, Hticks, Hcalls |- *.
  split; [exact Hres|]. split; [rewrite Hcache; reflexivity|].
  split; [rewrite Hcache; reflexivity|]. split; [exact Hticks|].
  match goal with |- head (new_calls ?a _) = _ => set (w1 := a) end.
  assert (Hf : chart_symbol (cache w1) = Some (normalize req))
    by (subst w1; rewrite Hcache; reflexivity).
  destruct (bg_update_chart_calls E w1) as (new & Hnew & _ & Hhd).
  rewrite (new_calls_app _ _ _ Hnew). apply Hhd; assumption.
Qed.

Lemma X4_live_chart_failure_moves_focus_witness :
  fst (get_live_chart E_chart "zzzz" w_tsla) = Ret (Error 404) /\
  chart_symbol (cache w_tsla) = Some "TSLA"%string /\
  chart_symbol (cache (snd (get_live_chart E_chart "zzzz" w_tsla))) =
    Some "ZZZZ"%string.
Proof.
  assert (Hn : normalize "zzzz" <> ""%string)
    by (intros H; vm_compute in H; discriminate H).
  assert (Hc : charts (cache w_tsla) !! normalize "zzzz" = None)
    by (vm_compute; reflexivity).
  assert (Hf : forall x h,
            fst (fetch_intraday E_chart (normalize "zzzz") (calls w_tsla)) <>
            Frame (x :: h)) by (intros x h H; vm_compute in H; discriminate H).
  destruct (X4_live_chart_failure_moves_focus E_chart w_tsla "zzzz" Hn Hc Hf)
    as (Hres & _ & Hfocus & _).
  split; [exact Hres|]. split; [reflexivity|exact Hfocus].
Defined.

(** X5: the first request for a symbol stores what it answers.  On a miss
    with a frame that is not empty, the entry answered is put under the
    normalized symbol and no other entry changes; asking again answers
    the same entry without a provider call and changes nothing. *)
Theorem X5_live_chart_bootstrap_then_hit
    (E : env) (w : world) (req : string) (x : row) (h : list row) :
  normalize req <> ""%string ->
  charts (cache w) !! normalize req = None ->
  fst (fetch_intraday E (normalize req) (calls w)) = Frame (x :: h) ->
  let w' := snd (get_live_chart E req w) in
  exists c,
    chart_entry (x :: h) (clock E (ticks w)) (clock E (S (ticks w))) = Some c
    /\ fst (get_live_chart E req w) = Ret (Ok c)
    /\ charts (cache w') !! normalize req = Some c
    /\ (forall k, k <> normalize req ->
                  charts (cache w') !! k = charts (cache w) !! k)
    /\ chart_symbol (cache w') = Some (normalize req)
    /\ get_live_chart E req w' = (Ret (Ok c), w').
Proof.
  intros Hn Hc Hf w'. subst w'.
  destruct (chart_entry_Some x h (clock E (ticks w)) (clock E (S (ticks w))))
    as [c Hentry].
  exists c. split; [exact Hentry|].
  assert (Hrun : get_live_chart E req w =
    (Ret (Ok c),
     {| cache := set_chart (normalize req) c
                   (set_chart_symbol (normalize req) (cache w));
        calls := calls w ++ snd (fetch_intraday E (normalize req) (calls w));
        ticks := S (S (ticks w)) |})).
  { rewrite get_live_chart_run by assumption. rewrite Hc.
    rewrite bootstrap_chart_run. cbn [with_focus calls cache ticks].
    rewrite Hf, Hentry. reflexivity. }
  rewrite Hrun. cbn [fst snd cache].
  assert (Hlook : charts (set_chart (normalize req) c
                    (set_chart_symbol (normalize req) (cache w))) !! normalize req
                  = Some c) by apply lookup_insert_eq.
  split; [reflexivity|]. split; [exact Hlook|].
  split; [intros k Hk; apply lookup_insert_ne; congruence|].
  split; [reflexivity|].
  rewrite get_live_chart_run by assumption. cbn [cache]. rewrite Hlook.
  reflexivity.
Qed.

Lemma X5_live_chart_bootstrap_then_hit_witness :
  exists c,
    fst (get_live_chart E_chart "msft" w_tsla) = Ret (Ok c) /\
    get_live_chart E_chart "msft" (snd (get_live_chart E_chart "msft" w_tsla)) =
      (Ret (Ok c), snd (get_live_chart E_chart "msft" w_tsla)).
Proof.
  assert (Hn : normalize "msft" <> ""%string)
    by (intros H; vm_compute in H; discriminate H).
  assert (Hc : charts (cache w_tsla) !! normalize "msft" = None)
    by (vm_compute; reflexivity).
  destruct (X5_live_chart_bootstrap_then_hit E_chart w_tsla "msft"
              (bar 9 30 410 411 409 410) [bar 9 31 410 412 410 411] Hn Hc eq_refl)
    as (c & _ & Hres & _ & _ & _ & Hagain).
  exists c. split; [exact Hres|exact Hagain].
Defined.

(** X6: the answers of the strategy route.  A symbol that is empty once
    normalized gets 400 without a provider call.  Otherwise the route
    sends exactly one call, for one year of daily bars: if the call raises
    the answer is 500, if it returns fewer than 30 rows the answer is 404,
    and with 30 rows or more the route always answers an analysis, the
    analysis itself never raises.  The cache and the clock are never
    touched. *)
Theorem X6_strategy_answers (sqrt : Q -> Q) (E : env) (w : world) (req : string) :
  let w' := snd (get_strategy sqrt E req w) in
  cache w' = cache w /\ ticks w' = ticks w
  /\ (normalize req = ""%string ->
      get_strategy sqrt E req w = (Ret (Error 400), w))
  /\ (normalize req <> ""%string ->
      calls w' = calls w ++ [yearly req]
      /\ match yf E (calls w) (yearly req) with
         | Raised => fst (get_strategy sqrt E req w) = Ret (Error 500)
         | Frame hist =>
             if decide (length hist < 30)%nat
             then fst (get_strategy sqrt E req w) = Ret (Error 404)
             else exists s,
                 fst (get_strategy sqrt E req w) = Ret (Ok s) /\
                 analyse sqrt (normalize req) (map Close hist) = Some s
         end).
Proof.
  intros w'. subst w'.
  split; [apply get_strategy_cache|].
  assert (Hshape : forall (hl : truthy (normalize req) = true),
    get_strategy sqrt E req w =
    match yf E (calls w) (yearly req) with
    | Raised => (Ret (Error 500), with_calls w (calls w ++ [yearly req]))
    | Frame hist =>
        if is_empty hist || bool_decide (length hist < 30)%nat
        then (Ret (Error 404), with_calls w (calls w ++ [yearly req]))
        else match analyse sqrt (normalize req) (map Close hist) with
             | Some s => (Ret (Ok s), with_calls w (calls w ++ [yearly req]))
             | None => (Ret (Error 500), with_calls w (calls w ++ [yearly req]))
             end
    end).
  { intros Ht. unfold get_strategy, yearly, with_calls. rewrite Ht. cbn [negb].
    unfold try_except, history, lift_opt, mbind, M_bind, bind, mret, M_ret, ret, raise.
    destruct (yf E (calls w) _) as [|hist]; [reflexivity|].
    destruct (is_empty hist || bool_decide (length hist < 30)%nat); [reflexivity|].
    destruct (analyse sqrt (normalize req) (map Close hist)); reflexivity. }
  destruct (truthy (normalize req)) eqn:Ht.
  - specialize (Hshape eq_refl). rewrite Hshape.
    split.
    { destruct (yf E (calls w) (yearly req)) as [|hist]; [reflexivity|].
      destruct (is_empty hist || bool_decide (length hist < 30)%nat); [reflexivity|].
      destruct (analyse sqrt (normalize req) (map Close hist)); reflexivity. }
    split; [intros Hn; rewrite Hn in Ht; discriminate Ht|].
    intros _. split.
    { destruct (yf E (calls w) (yearly req)) as [|hist]; [reflexivity|].
      destruct (is_empty hist || bool_decide (length hist < 30)%nat); [reflexivity|].
      destruct (analyse sqrt (normalize req) (map Close hist)); reflexivity. }
    destruct (yf E (calls w) (yearly req)) as [|hist]; [reflexivity|].
    destruct (decide (length hist < 30)%nat) as [Hlt|Hge].
    + rewrite (bool_decide_eq_true_2 _ Hlt), orb_true_r. reflexivity.
    + rewrite (bool_decide_eq_false_2 _ Hge).
      destruct hist as [|x hist]; [simpl in Hge; lia|]. cbn [is_empty orb].
      destruct (analyse_total sqrt (normalize req) (map Close (x :: hist)))
        as [s Hs]; [simpl; lia|].
      rewrite Hs. eauto.
  - assert (Hn : normalize req = ""%string)
      by (destruct (normalize req); [reflexivity|discriminate Ht]).
    unfold get_strategy. rewrite Hn. cbn.
    split; [reflexivity|]. split; [reflexivity|]. intros H. destruct H. reflexivity.
Qed.

Lemma X6_strategy_answers_witness :
  get_strategy sqrt_approx E_down "  " initial_world =
    (Ret (Error 400), initial_world) /\
  fst (get_strategy sqrt_approx E_down "tsla" initial_world) = Ret (Error 500).
Proof.
  destruct (X6_strategy_answers sqrt_approx E_down initial_world "  ")
    as (_ & _ & H400 & _).
  destruct (X6_strategy_answers sqrt_approx E_down initial_world "tsla")
    as (_ & _ & _ & H).
  split; [apply H400; reflexivity|].
  assert (Hn : normalize "tsla" <> ""%string)
    by (intros Hn; vm_compute in Hn; discriminate Hn).
  destruct (H Hn) as (_ & H500). exact H500.
Defined.

(** ** Further properties of the streams *)

Lemma ticker_stream_events ts0 obs :
  let evs := fst (ticker_stream ts0 obs) in
  Forall (fun e => fst e <> [] /\ exists lc, In lc obs /\ e = (ticker lc, timestamp lc)) evs
  /\ adjacent_distinct (ts0 :: map snd evs)
  /\ (length evs <= length obs)%nat.
Proof.
  revert ts0. induction obs as [|lc rest IH]; intros ts0.
  - simpl. repeat split; [constructor|lia].
  - simpl.
    destruct (ticker_poll_cases ts0 lc) as [(Hts & Hd & ->)|(_ & ->)].
    + destruct (IH (timestamp lc)) as (Hall & Hadj & Hlen).
      destruct (ticker_stream (timestamp lc) rest) as [evs ts']. simpl in *.
      split; [|split; [|lia]].
      * constructor; [split; [exact Hd|exists lc; auto]|].
        eapply Forall_impl; [exact Hall|].
        intros e (He & lc' & Hin & ->). split; [exact He|]. exists lc'. auto.
      * split; [congruence|exact Hadj].
    + destruct (IH ts0) as (Hall & Hadj & Hlen).
      destruct (ticker_stream ts0 rest) as [evs ts']. simpl in *.
      split; [|split; [exact Hadj|lia]].
      eapply Forall_impl; [exact Hall|].
      intros e (He & lc' & Hin & ->). split; [exact He|]. exists lc'. auto.
Qed.

Lemma chart_stream_events symbol ts0 obs :
  let evs := fst (chart_stream symbol ts0 obs) in
  Forall (fun e => exists lc, In lc obs /\ charts lc !! symbol = Some e) evs
  /\ adjacent_distinct (ts0 :: map Chart.timestamp evs)
  /\ (length evs <= length obs)%nat.
Proof.
  revert ts0. induction obs as [|lc rest IH]; intros ts0.
  - simpl. repeat split; [constructor|lia].
  - simpl.
    destruct (chart_poll_cases symbol ts0 lc) as [(c & Hc & Hts & ->)|(_ & ->)].
    + destruct (IH (Chart.timestamp c)) as (Hall & Hadj & Hlen).
      destruct (chart_stream symbol (Chart.timestamp c) rest) as [evs ts']. simpl in *.
      split; [|split; [|lia]].
      * constructor; [exists lc; auto|].
        eapply Forall_impl; [exact Hall|].
        intros e (lc' & Hin & He). exists lc'. auto.
      * split; [congruence|exact Hadj].
    + destruct (IH ts0) as (Hall & Hadj & Hlen).
      destruct (chart_stream symbol ts0 rest) as [evs ts']. simpl in *.
      split; [|split; [exact Hadj|lia]].
      eapply Forall_impl; [exact Hall|].
      intros e (lc' & Hin & He). exists lc'. auto.
Qed.

(** X7: what a subscriber sees over any run of polls.  Every event of the
    ticker stream is the snapshot of one of the polled caches and never
    carries an empty quote list; every event of a chart stream is the
    entry of its symbol in one of the polled caches.  In both streams two
    events in a row never bear the same timestamp, the first one differs
    from the initial [last_ts], and there is at most one event per poll. *)
Theorem X7_stream_events (symbol ts0 : string) (obs : list live_cache) :
  let tevs := fst (ticker_stream ts0 obs) in
  let cevs := fst (chart_stream symbol ts0 obs) in
  Forall (fun e => fst e <> [] /\
                   exists lc, In lc obs /\ e = (ticker lc, timestamp lc)) tevs
  /\ adjacent_distinct (ts0 :: map snd tevs)
  /\ (length tevs <= length obs)%nat
  /\ Forall (fun e => exists lc, In lc obs /\ charts lc !! symbol = Some e) cevs
  /\ adjacent_distinct (ts0 :: map Chart.timestamp cevs)
  /\ (length cevs <= length obs)%nat.
Proof.
  intros tevs cevs.
  destruct (ticker_stream_events ts0 obs) as (H1 & H2 & H3).
  destruct (chart_stream_events symbol ts0 obs) as (H4 & H5 & H6).
  repeat split; assumption.
Qed.

Lemma strftime_hms_stamp d : stamp (strftime "%H:%M:%S" d).
Proof. reflexivity. Qed.

Lemma chart_entry_stamp h d t c : chart_entry h d t = Some c -> stamp (Chart.timestamp c).
Proof.
  unfold chart_entry. intros H.
  apply bind_Some in H as (a & _ & H). apply bind_Some in H as (b & _ & H).
  injection H as <-. apply strftime_hms_stamp.
Qed.

Lemma stamps_inv_set_ticker results d lc :
  stamps_inv lc -> stamps_inv (set_ticker results (strftime "%H:%M:%S" d) lc).
Proof.
  intros [_ Hc]. split; [right; apply strftime_hms_stamp|exact Hc].
Qed.

Lemma stamps_inv_set_chart_symbol s lc :
  stamps_inv lc -> stamps_inv (set_chart_symbol s lc).
Proof. intros H. exact H. Qed.

Lemma stamps_inv_set_chart sym c lc :
  stamp (Chart.timestamp c) -> stamps_inv lc -> stamps_inv (set_chart sym c lc).
Proof.
  intros Hs [Ht Hc]. split; [exact Ht|]. simpl. intros k c'.
  rewrite lookup_insert. case_decide.
  - intros [= <-]. exact Hs.
  - apply Hc.
Qed.

Lemma refresh_chart_stamps E sym w :
  stamps_inv (cache w) -> stamps_inv (cache (snd (refresh_chart E sym w))).
Proof.
  intros Hinv. rewrite refresh_chart_run. cbn [snd].
  destruct (fst (fetch_intraday E sym (calls w))) as [|[|x h]]; try exact Hinv.
  destruct (chart_entry _ _ _) as [c|] eqn:Hc; [|exact Hinv].
  apply stamps_inv_set_chart; [eapply chart_entry_stamp; eassumption|exact Hinv].
Qed.

Lemma bootstrap_chart_stamps E sym w :
  stamps_inv (cache w) -> stamps_inv (cache (snd (bootstrap_chart E sym w))).
Proof.
  intros Hinv. rewrite bootstrap_chart_run.
  destruct (fst (fetch_intraday E sym (calls w))) as [|[|x h]]; try exact Hinv.
  destruct (chart_entry _ _ _) as [c|] eqn:Hc; [|exact Hinv].
  apply stamps_inv_set_chart; [eapply chart_entry_stamp; eassumption|exact Hinv].
Qed.

Lemma step_stamps E w w' :
  step E w w' -> stamps_inv (cache w) -> stamps_inv (cache w').
Proof.
  intros Hstep Hinv. destruct Hstep.
  - rewrite bg_update_ticker_run. apply stamps_inv_set_ticker, Hinv.
  - unfold _bg_update_chart, mbind, M_bind, bind, read_cache.
    destruct (chart_symbol (cache w)) as [sym|]; [|exact Hinv].
    destruct (truthy sym); [apply refresh_chart_stamps, Hinv|exact Hinv].
  - exact Hinv.
  - destruct (decide (normalize req = ""%string)) as [Hn|Hn].
    + unfold get_live_chart. rewrite Hn. exact Hinv.
    + rewrite get_live_chart_run by assumption.
      destruct (charts (cache w) !! normalize req); [exact Hinv|].
      apply bootstrap_chart_stamps. exact Hinv.
  - exact Hinv.
  - rewrite get_strategy_cache. exact Hinv.
Qed.

Lemma reachable_stamps E w : reachable E w -> stamps_inv (cache w).
Proof.
  induction 1 as [|w w' _ IH Hstep|w0 w sym _ _ _ _ _ IH|w req _ IH _].
  - split; [left; split; reflexivity|].
    simpl. intros k c. rewrite lookup_empty. discriminate.
  - eapply step_stamps; eassumption.
  - apply refresh_chart_stamps, IH.
  - apply bootstrap_chart_stamps, IH.
Qed.

Lemma stamp_nonempty s : stamp s -> s <> ""%string.
Proof. intros H ->. discriminate H. Qed.

(** X8: a new subscriber is served at its first poll.  Every timestamp
    the refreshers and the live-chart route commit has eight characters,
    and a cache whose timestamp is still empty holds no quotes; so in
    every reachable world the first poll of a ticker stream, whose
    [last_ts] is empty, yields the snapshot exactly when the quote list is
    not empty, and the first poll of a chart stream yields the entry
    exactly when its symbol has one. *)
Theorem X8_first_poll (E : env) (w : world) :
  reachable E w ->
  (ticker (cache w) <> [] -> String.length (timestamp (cache w)) = 8%nat)
  /\ (forall symbol c, charts (cache w) !! symbol = Some c ->
                       String.length (Chart.timestamp c) = 8%nat)
  /\ (is_Some (fst (ticker_poll "" (cache w))) <-> ticker (cache w) <> [])
  /\ (forall symbol,
        is_Some (fst (chart_poll symbol "" (cache w))) <->
        is_Some (charts (cache w) !! symbol)).
Proof.
  intros Hr. destruct (reachable_stamps E w Hr) as [Ht Hc].
  assert (H1 : ticker (cache w) <> [] -> stamp (timestamp (cache w))).
  { intros Hne. destruct Ht as [[_ He]|Hs]; [contradiction|exact Hs]. }
  split; [exact H1|]. split; [exact Hc|]. split.
  - destruct (ticker_poll_cases "" (cache w)) as [(Hts & Hd & ->)|(Hno & ->)]; simpl.
    + split; eauto.
    + split; [intros [? [=]]|]. intros Hne. exfalso.
      destruct Hno as [Hts|Hd]; [|contradiction].
      apply (stamp_nonempty _ (H1 Hne)). exact Hts.
  - intros symbol.
    destruct (chart_poll_cases symbol "" (cache w)) as [(c & Hl & _ & ->)|(Hno & ->)];
      simpl.
    + rewrite Hl. split; eauto.
    + split; [intros [? [=]]|]. intros [c Hl]. exfalso.
      apply (stamp_nonempty _ (Hc _ _ Hl)). apply Hno. exact Hl.
Qed.

Lemma X8_first_poll_witness :
  reachable E_chart w_tsla /\
  is_Some (fst (chart_poll "TSLA" "" (cache w_tsla))).
Proof.
  split; [exact reachable_w_tsla|].
  destruct (X8_first_poll E_chart w_tsla reachable_w_tsla) as (_ & _ & _ & H).
  apply H. vm_compute. eauto.
Defined.

(** ** Rounding *)

Lemma round_half_even_comp a b : (a == b)%Q -> round_half_even a = round_half_even b.
Proof.
  intros H. unfold round_half_even.
  rewrite (Qfloor_comp _ _ H).
  assert (Hc : (a - inject_Z (Qfloor b) ?= 1 # 2)%Q = (b - inject_Z (Qfloor b) ?= 1 # 2)%Q)
    by (rewrite H; reflexivity).
  rewrite Hc. reflexivity.
Qed.

Lemma round_half_even_bounds a :
  (Qfloor a <= round_half_even a <= Qfloor a + 1)%Z.
Proof.
  unfold round_half_even.
  destruct (a - inject_Z (Qfloor a) ?= 1 # 2)%Q; [destruct (Z.even _)| |]; lia.
Qed.

Lemma round_half_even_mono a b :
  (a <= b)%Q -> (round_half_even a <= round_half_even b)%Z.
Proof.
  intros Hab.
  pose proof (Qfloor_resp_le _ _ Hab) as Hf.
  destruct (Z.eq_dec (Qfloor a) (Qfloor b)) as [He|Hne].
  - unfold round_half_even. rewrite He.
    destruct (Qcompare_spec (a - inject_Z (Qfloor b)) (1 # 2)) as [Ha|Ha|Ha];
      destruct (Qcompare_spec (b - inject_Z (Qfloor b)) (1 # 2)) as [Hb|Hb|Hb];
      try destruct (Z.even (Qfloor b)); try lia; exfalso; lra.
  - pose proof (round_half_even_bounds a). pose proof (round_half_even_bounds b). lia.
Qed.

Lemma round_half_even_Z z : round_half_even (inject_Z z) = z.
Proof.
  unfold round_half_even. rewrite Qfloor_Z.
  assert (H : (inject_Z z - inject_Z z ?= 1 # 2)%Q = Lt).
  { apply Qlt_alt. unfold Qminus. rewrite Qplus_opp_r. reflexivity. }
  rewrite H. reflexivity.
Qed.

Lemma scale_pos n : (0 < inject_Z (10 ^ Z.of_nat n))%Q.
Proof.
  change 0%Q with (inject_Z 0). rewrite <- Zlt_Qlt.
  apply Z.pow_pos_nonneg; lia.
Qed.

Lemma Qround_to_comp n a b : (a == b)%Q -> (Qround_to n a == Qround_to n b)%Q.
Proof.
  intros H. unfold Qround_to.
  rewrite (round_half_even_comp (a * inject_Z (10 ^ Z.of_nat n))
                                (b * inject_Z (10 ^ Z.of_nat n)));
    [reflexivity|rewrite H; reflexivity].
Qed.

Lemma Qround_to_mono n a b : (a <= b)%Q -> (Qround_to n a <= Qround_to n b)%Q.
Proof.
  intros H. unfold Qround_to.
  pose proof (scale_pos n) as Hs.
  apply Qmult_le_compat_r.
  - rewrite <- Zle_Qle. apply round_half_even_mono.
    apply Qmult_le_compat_r; [exact H|lra].
  - apply Qlt_le_weak, Qinv_lt_0_compat, Hs.
Qed.

(** A value with at most [n] decimals is left as it is. *)
Lemma Qround_to_fixed n z :
  (Qround_to n (inject_Z z / inject_Z (10 ^ Z.of_nat n)) ==
   inject_Z z / inject_Z (10 ^ Z.of_nat n))%Q.
Proof.
  unfold Qround_to. pose proof (scale_pos n) as Hs.
  rewrite (round_half_even_comp _ (inject_Z z)); [rewrite round_half_even_Z; reflexivity|].
  field. lra.
Qed.

Lemma Qround_to_idem n a : (Qround_to n (Qround_to n a) == Qround_to n a)%Q.
Proof. unfold Qround_to at 2 3. apply Qround_to_fixed. Qed.

(** * Further properties of the indicators *)

Lemma iloc_last_lookup {A} (l : list A) : iloc l (-1) = l !! (length l - 1)%nat.
Proof.
  rewrite iloc_last. destruct l as [|x l] using rev_ind; [reflexivity|].
  rewrite reverse_snoc, length_app. simpl.
  rewrite lookup_app_r by lia.
  replace (length l + 1 - 1 - length l)%nat with 0%nat by lia. reflexivity.
Qed.

Lemma round_rsi_value v : rsi_value v -> rsi_value (round v 2).
Proof.
  intros [->|(q & -> & H0 & H100)]; [left; reflexivity|].
  right. exists (Qround_to 2 q). split; [reflexivity|]. split.
  - assert (H : (Qround_to 2 0 <= Qround_to 2 q)%Q) by (apply Qround_to_mono, H0).
    assert (Hz : (Qround_to 2 0 == 0)%Q) by reflexivity. lra.
  - assert (H : (Qround_to 2 q <= Qround_to 2 100)%Q) by (apply Qround_to_mono, H100).
    assert (Hz : (Qround_to 2 100 == 100)%Q) by reflexivity. lra.
Qed.

Lemma rsi_series_value close i v : rsi_series close !! i = Some v -> rsi_value v.
Proof.
  intros Hv.
  assert (Hlen : (i < length close)%nat).
  { apply lookup_lt_Some in Hv. rewrite length_rsi_series in Hv. exact Hv. }
  destruct (le_lt_dec 13 i) as [Hi|Hi].
  - rewrite rsi_filled in Hv by assumption. injection Hv as <-.
    destruct (rsi_of_range (average (window 14 i (gains close)))
                           (average (window 14 i (losses close))))
      as [(_ & _ & ->)|(_ & q & -> & Hq)].
    + apply average_nonneg, window_Forall, gains_nonneg.
    + apply average_nonneg, window_Forall, losses_nonneg.
    + left. reflexivity.
    + right. eauto.
  - rewrite rsi_warm_up in Hv by assumption. injection Hv as <-. left. reflexivity.
Qed.

(** X9: the RSI is [nan] or a number from 0 to 100, at every position of
    every series, and so is the rounded value the strategy route reports.
    From index 13 on it is [nan] exactly when the average gain and the
    average loss of the window are both zero, that is on a flat window. *)
Theorem X9_rsi_range (close : list Q) (i : nat) (v : num) :
  rsi_series close !! i = Some v ->
  rsi_value v
  /\ rsi_value (round v 2)
  /\ ((13 <= i)%nat ->
      (v = NaN <->
       (average (window 14 i (gains close)) == 0)%Q /\
       (average (window 14 i (losses close)) == 0)%Q))
  /\ (forall sqrt symbol s,
        analyse sqrt symbol close = Some s -> rsi_value (s_rsi s)).
Proof.
  intros Hv. pose proof (rsi_series_value _ _ _ Hv) as Hval.
  split; [exact Hval|]. split; [apply round_rsi_value, Hval|]. split.
  - intros Hi.
    assert (Hlen : (i < length close)%nat).
    { apply lookup_lt_Some in Hv. rewrite length_rsi_series in Hv. exact Hv. }
    rewrite rsi_filled in Hv by assumption. injection Hv as <-.
    destruct (rsi_of_range (average (window 14 i (gains close)))
                           (average (window 14 i (losses close))))
      as [(Hg & Hl & ->)|(Hn & q & -> & Hq)].
    + apply average_nonneg, window_Forall, gains_nonneg.
    + apply average_nonneg, window_Forall, losses_nonneg.
    + tauto.
    + split; [discriminate|]. intros H. contradiction.
  - intros sqrt symbol s Ha.
    destruct (analyse_ok _ _ _ _ Ha)
      as (c & r & m & sg & g & u & l & a & _ & Hr & _ & _ & _ & _ & _ & _ &
          _ & Hrsi & _).
    rewrite Hrsi. apply round_rsi_value.
    rewrite iloc_last_lookup in Hr. eapply rsi_series_value. exact Hr.
Qed.

Lemma X9_rsi_range_witness :
  exists v, rsi_series near_70 !! 29%nat = Some v /\ rsi_value v.
Proof.
  destruct (rsi_series near_70 !! 29%nat) as [v|] eqn:Hv;
    [|vm_compute in Hv; discriminate Hv].
  exists v. split; [reflexivity|].
  destruct (X9_rsi_range near_70 29 v Hv) as (H & _). exact H.
Defined.

Lemma decreasing_deltas close :
  decreasing close = true -> Forall (fun d => (d < 0)%Q) (deltas close).
Proof.
  induction close as [|a r IH]; [constructor|].
  destruct r as [|b r]; [constructor|].
  rewrite deltas_cons. simpl.
  destruct (Qcompare_spec a b) as [Hab|Hab|Hab]; try discriminate.
  intros Hr. constructor; [lra|apply IH, Hr].
Qed.

Lemma gains_decreasing close :
  decreasing close = true -> Forall (fun g => (g == 0)%Q) (gains close).
Proof.
  intros Hdec. unfold gains. destruct close as [|a r]; [constructor|].
  constructor; [reflexivity|].
  apply Forall_fmap.
  eapply Forall_impl; [apply decreasing_deltas, Hdec|].
  intros d Hd. unfold compose. cbv beta in *.
  destruct (Qcompare_spec d 0); [reflexivity|reflexivity|lra].
Qed.

Lemma losses_decreasing close i l :
  decreasing close = true -> (1 <= i)%nat ->
  losses close !! i = Some l -> (0 < l)%Q.
Proof.
  intros Hdec Hi. unfold losses. destruct close as [|a r]; [discriminate|].
  destruct i as [|i]; [lia|].
  rewrite list_lookup_fmap.
  change ((0%Q :: ?l) !! S i) with (l !! i).
  rewrite list_lookup_fmap.
  destruct (deltas (a :: r) !! i) as [d|] eqn:Hd; [|discriminate].
  cbn [fmap option_fmap option_map]. intros [= <-].
  pose proof (decreasing_deltas _ Hdec) as Hall.
  rewrite Forall_forall in Hall.
  assert (Hneg : (d < 0)%Q) by (apply Hall; eapply list_elem_of_lookup_2; eassumption).
  destruct (Qcompare_spec d 0); lra.
Qed.

Lemma rsi_of_no_gain g l :
  (g == 0)%Q -> (0 < l)%Q -> num_eq (rsi_of (Fin g) (Fin l)) (Fin 0).
Proof.
  intros Hg Hl. unfold rsi_of, num_of_Z.
  change (inject_Z 100) with 100%Q. change (inject_Z 1) with 1%Q.
  rewrite (ndiv_fin_pos g l Hl). cbn [nadd].
  assert (Hd : (g / l == 0)%Q) by (rewrite Hg; unfold Qdiv; ring).
  rewrite ndiv_fin_pos by lra. cbn.
  rewrite Hd. reflexivity.
Qed.

Lemma rsi_decreasing close i :
  decreasing close = true -> (13 <= i)%nat -> (i < length close)%nat ->
  exists v, rsi_series close !! i = Some v /\ num_eq v (Fin 0).
Proof.
  intros Hdec Hi Hlen. rewrite rsi_filled by assumption.
  eexists. split; [reflexivity|]. apply rsi_of_no_gain.
  - apply average_zero, Qsum_zero, window_Forall, gains_decreasing, Hdec.
  - apply average_pos.
    + apply window_nonempty; [lia|lia|]. rewrite length_losses. assumption.
    + destruct (losses close !! i) as [l|] eqn:Hl.
      2:{ apply lookup_ge_None in Hl. rewrite length_losses in Hl. lia. }
      apply (Qsum_pos _ 13 l).
      * apply window_Forall, losses_nonneg.
      * rewrite <- Hl. apply (window_last 14 i); lia.
      * apply (losses_decreasing close i); [assumption|lia|assumption].
Qed.

Lemma classify_rsi_high q :
  (q == 100)%Q -> classify_rsi (round (Fin q) 2) = RsiOverbought.
Proof.
  intros Hq. unfold classify_rsi, num_of_Z. cbn [round].
  assert (Hr : (Qround_to 2 q == 100)%Q)
    by (rewrite (Qround_to_comp 2 q 100 Hq); reflexivity).
  assert (H : ngt (Fin (Qround_to 2 q)) (Fin (inject_Z 70)) = true).
  { apply ngt_fin. change (inject_Z 70) with 70%Q. lra. }
  rewrite H. reflexivity.
Qed.

Lemma classify_rsi_low q :
  (q == 0)%Q -> classify_rsi (round (Fin q) 2) = RsiOversold.
Proof.
  intros Hq. unfold classify_rsi, num_of_Z. cbn [round].
  assert (Hr : (Qround_to 2 q == 0)%Q)
    by (rewrite (Qround_to_comp 2 q 0 Hq); reflexivity).
  assert (H1 : ngt (Fin (Qround_to 2 q)) (Fin (inject_Z 70)) = false).
  { apply not_true_is_false. rewrite ngt_fin. change (inject_Z 70) with 70%Q. lra. }
  assert (H2 : nlt (Fin (Qround_to 2 q)) (Fin (inject_Z 30)) = true).
  { apply nlt_fin. change (inject_Z 30) with 30%Q. lra. }
  rewrite H1, H2. reflexivity.
Qed.

(** X10: a series that only rises is rated Overbought and a series that
    only falls Oversold.  When the strategy route answers for a history
    whose closes are strictly increasing, the RSI it reports is 100 and
    its RSI signal is Overbought; when they are strictly decreasing, the
    RSI is 0 at every index from 13 on, the reported RSI is 0 and the
    signal is Oversold. *)
Theorem X10_rsi_of_monotone_series
    (sqrt : Q -> Q) (E : env) (req : string) (w : world)
    (s : strategy) (hist : list row) :
  fst (get_strategy sqrt E req w) = Ret (Ok s) ->
  yf E (calls w) (yearly req) = Frame hist ->
  (increasing (map Close hist) = true ->
     num_eq (s_rsi s) (Fin 100) /\ s_rsi_signal s = RsiOverbought)
  /\ (decreasing (map Close hist) = true ->
     num_eq (s_rsi s) (Fin 0) /\ s_rsi_signal s = RsiOversold /\
     forall i, (13 <= i < length hist)%nat ->
               exists v, rsi_series (map Close hist) !! i = Some v /\
                         num_eq v (Fin 0)).
Proof.
  intros Hok Hy.
  destruct (get_strategy_ok _ _ _ _ _ Hok) as (hist' & Hy' & Hlen & Ha).
  rewrite Hy in Hy'. injection Hy' as <-.
  destruct (analyse_ok _ _ _ _ Ha)
    as (c & r & m & sg & g & u & l & a & _ & Hr & _ & _ & _ & _ & _ & _ &
        _ & Hrsi & Hsig & _).
  rewrite iloc_last_lookup, length_rsi_series, length_map in Hr.
  split.
  - intros Hinc.
    destruct (rsi_increasing (map Close hist) (length hist - 1) Hinc)
      as (v & Hv & Hv100); [lia|rewrite length_map; lia|].
    rewrite Hr in Hv. injection Hv as <-.
    destruct r as [q| | |]; try contradiction. simpl in Hv100.
    split; [|rewrite Hsig; apply classify_rsi_high, Hv100].
    rewrite Hrsi. simpl.
    rewrite (Qround_to_comp 2 q 100 Hv100). reflexivity.
  - intros Hdec.
    destruct (rsi_decreasing (map Close hist) (length hist - 1) Hdec)
      as (v & Hv & Hv0); [lia|rewrite length_map; lia|].
    rewrite Hr in Hv. injection Hv as <-.
    destruct r as [q| | |]; try contradiction. simpl in Hv0.
    split; [|split; [rewrite Hsig; apply classify_rsi_low, Hv0|]].
    + rewrite Hrsi. simpl. rewrite (Qround_to_comp 2 q 0 Hv0). reflexivity.
    + intros i Hi. apply rsi_decreasing; [exact Hdec|lia|rewrite length_map; lia].
Qed.

Lemma X10_rsi_of_monotone_series_witness :
  (exists s,
     fst (get_strategy sqrt_approx E_rising "tsla" initial_world) = Ret (Ok s) /\
     num_eq (s_rsi s) (Fin 100) /\ s_rsi_signal s = RsiOverbought) /\
  (exists s,
     fst (get_strategy sqrt_approx E_falling "tsla" initial_world) = Ret (Ok s) /\
     num_eq (s_rsi s) (Fin 0) /\ s_rsi_signal s = RsiOversold).
Proof.
  assert (Hn : normalize "tsla" <> ""%string)
    by (intros Hn; vm_compute in Hn; discriminate Hn).
  split.
  - assert (Hlen : (30 <= length (map flat_row rising))%nat) by (vm_compute; lia).
    destruct (get_strategy_answers sqrt_approx E_rising "tsla" initial_world
                (map flat_row rising) Hn eq_refl Hlen) as [s Hs].
    exists s. split; [exact Hs|].
    destruct (X10_rsi_of_monotone_series sqrt_approx E_rising "tsla"
                initial_world s (map flat_row rising) Hs eq_refl) as (H & _).
    apply H. vm_compute. reflexivity.
  - assert (Hlen : (30 <= length (map flat_row falling))%nat) by (vm_compute; lia).
    destruct (get_strategy_answers sqrt_approx E_falling "tsla" initial_world
                (map flat_row falling) Hn eq_refl Hlen) as [s Hs].
    exists s. split; [exact Hs|].
    destruct (X10_rsi_of_monotone_series sqrt_approx E_falling "tsla"
                initial_world s (map flat_row falling) Hs eq_refl) as (_ & H).
    destruct H as (H1 & H2 & _); [vm_compute; reflexivity|].
    split; assumption.
Defined.

(** ** The crossover, the votes and the price range *)

Lemma analyse_votes sqrt symbol close s :
  analyse sqrt symbol close = Some s ->
  exists cross,
    cross_of close = Some cross /\
    s_ma_cross s =
      match cross with
      | Some true => GoldenCross
      | Some false => DeathCross
      | None => NoMA200
      end /\
    s_overall s =
      classify_overall
        (fst (votes (s_rsi s) (s_macd s) (s_signal s) (s_price s)
                    (s_lower s) (s_upper s) cross))
        (snd (votes (s_rsi s) (s_macd s) (s_signal s) (s_price s)
                    (s_lower s) (s_upper s) cross)) /\
    s_support s = round (series_min (drop (length close - 60) close)) 2 /\
    s_resistance s = round (series_max (drop (length close - 60) close)) 2.
Proof.
  unfold analyse. intros H.
  apply bind_Some in H as (c & Hc & H).
  apply bind_Some in H as (r & Hr & H).
  apply bind_Some in H as (m & Hm & H).
  apply bind_Some in H as (sg & Hsg & H).
  apply bind_Some in H as (g & Hg & H).
  apply bind_Some in H as (u & Hu & H).
  apply bind_Some in H as (l & Hl & H).
  apply bind_Some in H as (a & Ha & H).
  apply bind_Some in H as (cross & Hcross & H).
  injection H as <-.
  exists cross. split; [|repeat split].
  unfold cross_of. destruct (decide (200 <= length close)%nat); exact Hcross.
Qed.

Lemma window_last_drop {A} w (s : list A) :
  (0 < w)%nat -> (w <= length s)%nat ->
  window w (length s - 1) s = drop (length s - w) s.
Proof.
  intros Hw Hlen. unfold window.
  replace (S (length s - 1) - w)%nat with (length s - w)%nat by lia.
  apply take_ge. rewrite length_drop. lia.
Qed.

Lemma last_rolling_mean w close :
  (0 < w)%nat -> (w <= length close)%nat ->
  iloc (rolling_mean w (map Fin close)) (-1) = Some (Fin (last_mean w close)).
Proof.
  intros Hw Hlen. rewrite iloc_last_lookup.
  unfold rolling_mean at 1. rewrite length_rolling, length_map.
  rewrite rolling_mean_fin by lia.
  rewrite window_last_drop by assumption. reflexivity.
Qed.

Lemma cross_of_short close :
  (length close < 200)%nat -> cross_of close = Some None.
Proof.
  intros H. unfold cross_of. destruct (decide (200 <= length close)%nat); [lia|reflexivity].
Qed.

Lemma cross_of_long close :
  (200 <= length close)%nat ->
  cross_of close =
  Some (Some (ngt (Fin (last_mean 50 close)) (Fin (last_mean 200 close)))).
Proof.
  intros H. unfold cross_of. destruct (decide (200 <= length close)%nat); [|lia].
  rewrite last_rolling_mean by lia. rewrite last_rolling_mean by lia.
  reflexivity.
Qed.

Lemma rsi_votes_exclusive x :
  nlt x (num_of_Z 30) = true -> ngt x (num_of_Z 70) = false.
Proof.
  unfold num_of_Z.
  destruct x as [q| | |]; try (intros H; reflexivity); try discriminate.
  intros H. apply nlt_fin in H. apply not_true_is_false. rewrite ngt_fin.
  change (inject_Z 30) with 30%Q in H. change (inject_Z 70) with 70%Q. lra.
Qed.

(** X11: the overall recommendation counts the signals that are
    reported.  The moving-average crossover is reported as missing
    exactly when the history has fewer than 200 rows.  The buy votes are
    one for an RSI signal Oversold, one for a MACD signal Bullish, one for
    a price at or below the lower band and one for a Golden Cross; the
    sell votes are one for Overbought, one for Bearish, one for a
    Bollinger signal Overbought unless the price is also at or below the
    lower band, and one for a Death Cross.  More buy votes give BUY, more
    sell votes SELL, as many of each HOLD. *)
Theorem X11_overall_counts_reported_signals
    (sqrt : Q -> Q) (E : env) (req : string) (w : world)
    (s : strategy) (hist : list row) :
  fst (get_strategy sqrt E req w) = Ret (Ok s) ->
  yf E (calls w) (yearly req) = Frame hist ->
  ((length hist < 200)%nat <-> s_ma_cross s = NoMA200)
  /\ s_overall s =
     classify_overall
       ((match s_rsi_signal s with RsiOversold => 1 | _ => 0 end)
        + (match s_macd_signal s with Bullish => 1 | Bearish => 0 end)
        + (if nle (s_price s) (s_lower s) then 1 else 0)
        + (match s_ma_cross s with GoldenCross => 1 | _ => 0 end))%nat
       ((match s_rsi_signal s with RsiOverbought => 1 | _ => 0 end)
        + (match s_macd_signal s with Bullish => 0 | Bearish => 1 end)
        + (if nle (s_price s) (s_lower s) then 0
           else match s_bb_signal s with BbOverbought => 1 | _ => 0 end)
        + (match s_ma_cross s with DeathCross => 1 | _ => 0 end))%nat.
Proof.
  intros Hok Hy.
  destruct (get_strategy_ok _ _ _ _ _ Hok) as (hist' & Hy' & Hlen & Ha).
  rewrite Hy in Hy'. injection Hy' as <-.
  destruct (analyse_ok _ _ _ _ Ha)
    as (p & r & m & sg & g & u & l & a & _ & _ & _ & _ & _ & _ & _ & _ &
        Hsp & Hsr & Hsrs & Hsm & Hss & Hsms & Hsu & Hsl & _ & Hsbb & _).
  destruct (analyse_votes _ _ _ _ Ha) as (cross & Hc & Hma & Hov & _).
  split.
  - split; intros Hn.
    + rewrite cross_of_short in Hc by (rewrite length_map; exact Hn).
      injection Hc as <-. exact Hma.
    + destruct (le_lt_dec 200 (length hist)) as [Hge|Hlt]; [exfalso|exact Hlt].
      rewrite cross_of_long in Hc by (rewrite length_map; exact Hge).
      injection Hc as <-. rewrite Hma in Hn.
      destruct (ngt _ _); discriminate Hn.
  - rewrite Hov, Hma, Hsrs, Hsms, Hsbb. unfold votes. cbn [fst snd].
    rewrite <- Hsr, <- Hsm, <- Hss, <- Hsu, <- Hsl, <- Hsp.
    unfold classify_rsi, classify_macd, classify_bb.
    pose proof (rsi_votes_exclusive (s_rsi s)) as Hex.
    destruct (nlt (s_rsi s) (num_of_Z 30));
      [rewrite (Hex eq_refl)|destruct (ngt (s_rsi s) (num_of_Z 70))];
      destruct (ngt (s_macd s) (s_signal s));
      destruct (nle (s_price s) (s_lower s));
      destruct (nge (s_price s) (s_upper s));
      destruct cross as [[|]|]; reflexivity.
Qed.

Lemma X11_overall_counts_reported_signals_witness :
  (exists s,
     fst (get_strategy sqrt_approx E_near_70 "tsla" initial_world) = Ret (Ok s) /\
     s_ma_cross s = NoMA200) /\
  (exists s,
     fst (get_strategy sqrt_approx (E_flat 200) "tsla" initial_world) = Ret (Ok s) /\
     s_ma_cross s <> NoMA200).
Proof.
  assert (Hn : normalize "tsla" <> ""%string)
    by (intros Hn; vm_compute in Hn; discriminate Hn).
  split.
  - assert (Hlen : (30 <= length (map flat_row near_70))%nat) by (vm_compute; lia).
    destruct (get_strategy_answers sqrt_approx E_near_70 "tsla" initial_world
                (map flat_row near_70) Hn eq_refl Hlen) as [s Hs].
    exists s. split; [exact Hs|].
    destruct (X11_overall_counts_reported_signals sqrt_approx E_near_70 "tsla"
                initial_world s (map flat_row near_70) Hs eq_refl) as (H & _).
    apply H. vm_compute. lia.
  - assert (Hlen : (30 <= length (replicate 200 (flat_row 100)))%nat)
      by (rewrite length_replicate; lia).
    destruct (get_strategy_answers sqrt_approx (E_flat 200) "tsla" initial_world
                (replicate 200 (flat_row 100)) Hn eq_refl Hlen) as [s Hs].
    exists s. split; [exact Hs|].
    destruct (X11_overall_counts_reported_signals sqrt_approx (E_flat 200) "tsla"
                initial_world s (replicate 200 (flat_row 100)) Hs eq_refl) as (H & _).
    intros Hno. apply H in Hno. rewrite length_replicate in Hno. lia.
Defined.

(** ** The reported bands and the price range *)

Lemma upper_band_filled sqrt close i :
  (19 <= i)%nat -> (i < length close)%nat ->
  upper_band sqrt close !! i =
  Some (Fin (average (window 20 i close)
             + deviation sqrt (window 20 i close) * inject_Z 2)).
Proof.
  intros Hi Hlen. unfold upper_band.
  rewrite lookup_zip_with, sma20_filled by assumption. simpl.
  rewrite list_lookup_fmap, (std20_filled sqrt) by assumption. reflexivity.
Qed.

Lemma lower_band_filled sqrt close i :
  (19 <= i)%nat -> (i < length close)%nat ->
  lower_band sqrt close !! i =
  Some (Fin (average (window 20 i close)
             + - (deviation sqrt (window 20 i close) * inject_Z 2))).
Proof.
  intros Hi Hlen. unfold lower_band.
  rewrite lookup_zip_with, sma20_filled by assumption. simpl.
  rewrite list_lookup_fmap, (std20_filled sqrt) by assumption. reflexivity.
Qed.

(** X12: the bands the strategy route reports are numbers and they are
    ordered: lower band <= SMA20 <= upper band, after the rounding to two
    decimals, for any square root that is never negative. *)
Theorem X12_reported_bands_ordered
    (sqrt : Q -> Q) (E : env) (req : string) (w : world) (s : strategy) :
  (forall x, (0 <= sqrt x)%Q) ->
  fst (get_strategy sqrt E req w) = Ret (Ok s) ->
  exists l m u,
    s_lower s = Fin l /\ s_sma s = Fin m /\ s_upper s = Fin u /\
    (l <= m)%Q /\ (m <= u)%Q.
Proof.
  intros Hsqrt Hok.
  destruct (get_strategy_ok _ _ _ _ _ Hok) as (hist & Hy & Hlen & Ha).
  destruct (analyse_ok _ _ _ _ Ha)
    as (c & r & m & sg & g & u & l & a & _ & _ & _ & _ & _ & Hu & Hl & Hm &
        _ & _ & _ & _ & _ & _ & Hsu & Hsl & Hsm & _).
  rewrite iloc_last_lookup, length_upper_band, length_map,
    upper_band_filled in Hu by (rewrite ?length_map; lia).
  rewrite iloc_last_lookup, length_lower_band, length_map,
    lower_band_filled in Hl by (rewrite ?length_map; lia).
  rewrite iloc_last_lookup, length_sma20, length_map,
    sma20_filled in Hm by (rewrite ?length_map; lia).
  injection Hu as <-. injection Hl as <-. injection Hm as <-.
  assert (Hsd : (0 <= deviation sqrt (window 20 (length hist - 1) (map Close hist)))%Q)
    by (unfold deviation; apply Hsqrt).
  set (sd := deviation sqrt (window 20 (length hist - 1) (map Close hist))) in *.
  set (av := average (window 20 (length hist - 1) (map Close hist))) in *.
  assert (H2 : (inject_Z 2 == 2)%Q) by reflexivity.
  eexists _, _, _. rewrite Hsl, Hsm, Hsu. cbn [round].
  split; [reflexivity|]. split; [reflexivity|]. split; [reflexivity|].
  split; apply Qround_to_mono; rewrite H2; lra.
Qed.

Lemma X12_reported_bands_ordered_witness :
  exists s l m u,
    fst (get_strategy sqrt_approx E_near_70 "tsla" initial_world) = Ret (Ok s) /\
    s_lower s = Fin l /\ s_sma s = Fin m /\ s_upper s = Fin u /\
    (l <= m)%Q /\ (m <= u)%Q.
Proof.
  assert (Hn : normalize "tsla" <> ""%string)
    by (intros Hn; vm_compute in Hn; discriminate Hn).
  assert (Hlen : (30 <= length (map flat_row near_70))%nat) by (vm_compute; lia).
  destruct (get_strategy_answers sqrt_approx E_near_70 "tsla" initial_world
              (map flat_row near_70) Hn eq_refl Hlen) as [s Hs].
  destruct (X12_reported_bands_ordered sqrt_approx E_near_70 "tsla" initial_world s
              sqrt_approx_nonneg Hs) as (l & m & u & H).
  exists s, l, m, u. split; [exact Hs|exact H].
Defined.

Lemma fold_min_le (r : list Q) : forall x,
  (foldl (fun m y => if Qle_bool y m then y else m) x r <= x)%Q /\
  Forall (fun y => (foldl (fun m y => if Qle_bool y m then y else m) x r <= y)%Q) r.
Proof.
  induction r as [|y r IH]; intros x; simpl; [split; [lra|constructor]|].
  destruct (Qle_bool y x) eqn:Hyx.
  - apply Qle_bool_iff in Hyx. destruct (IH y) as (H1 & H2).
    split; [lra|]. constructor; assumption.
  - assert (Hlt : (x < y)%Q).
    { apply Qnot_le_lt. intros H. apply Qle_bool_iff in H. congruence. }
    destruct (IH x) as (H1 & H2).
    split; [exact H1|]. constructor; [lra|assumption].
Qed.

Lemma fold_max_ge (r : list Q) : forall x,
  (x <= foldl (fun m y => if Qle_bool m y then y else m) x r)%Q /\
  Forall (fun y => (y <= foldl (fun m y => if Qle_bool m y then y else m) x r)%Q) r.
Proof.
  induction r as [|y r IH]; intros x; simpl; [split; [lra|constructor]|].
  destruct (Qle_bool x y) eqn:Hxy.
  - apply Qle_bool_iff in Hxy. destruct (IH y) as (H1 & H2).
    split; [lra|]. constructor; assumption.
  - assert (Hlt : (y < x)%Q).
    { apply Qnot_le_lt. intros H. apply Qle_bool_iff in H. congruence. }
    destruct (IH x) as (H1 & H2).
    split; [exact H1|]. constructor; [lra|assumption].
Qed.

Lemma series_min_le l x :
  x ∈ l -> exists m, series_min l = Fin m /\ (m <= x)%Q.
Proof.
  destruct l as [|y r]; [intros H; inversion H|].
  intros Hin. eexists. split; [reflexivity|].
  destruct (fold_min_le r y) as (H1 & H2).
  apply elem_of_cons in Hin as [->|Hin]; [exact H1|].
  rewrite Forall_forall in H2. apply H2, Hin.
Qed.

Lemma series_max_ge l x :
  x ∈ l -> exists m, series_max l = Fin m /\ (x <= m)%Q.
Proof.
  destruct l as [|y r]; [intros H; inversion H|].
  intros Hin. eexists. split; [reflexivity|].
  destruct (fold_max_ge r y) as (H1 & H2).
  apply elem_of_cons in Hin as [->|Hin]; [exact H1|].
  rewrite Forall_forall in H2. apply H2, Hin.
Qed.

(** X13: the price the strategy route reports lies between the support
    and the resistance it reports (the lowest and the highest of the last
    60 closes, all three rounded to two decimals). *)
Theorem X13_price_between_support_and_resistance
    (sqrt : Q -> Q) (E : env) (req : string) (w : world) (s : strategy) :
  fst (get_strategy sqrt E req w) = Ret (Ok s) ->
  exists lo p hi,
    s_support s = Fin lo /\ s_price s = Fin p /\ s_resistance s = Fin hi /\
    (lo <= p)%Q /\ (p <= hi)%Q.
Proof.
  intros Hok.
  destruct (get_strategy_ok _ _ _ _ _ Hok) as (hist & Hy & Hlen & Ha).
  destruct (analyse_ok _ _ _ _ Ha)
    as (c & r & m & sg & g & u & l & a & Hc & _ & _ & _ & _ & _ & _ & _ &
        Hp & _).
  destruct (analyse_votes _ _ _ _ Ha) as (cross & _ & _ & _ & Hsup & Hres).
  set (close := map Close hist) in *.
  assert (Hin : c ∈ drop (length close - 60) close).
  { rewrite iloc_last_lookup in Hc.
    apply (list_elem_of_lookup_2 _ (length close - 1 - (length close - 60))).
    rewrite lookup_drop. rewrite <- Hc. f_equal.
    assert (0 < length close)%nat by (unfold close; rewrite length_map; lia).
    lia. }
  destruct (series_min_le _ _ Hin) as (lo & Hlo & Hlo').
  destruct (series_max_ge _ _ Hin) as (hi & Hhi & Hhi').
  exists (Qround_to 2 lo), (Qround_to 2 c), (Qround_to 2 hi).
  rewrite Hsup, Hres, Hp, Hlo, Hhi. cbn [round].
  repeat split; try reflexivity; apply Qround_to_mono; assumption.
Qed.

Lemma X13_price_between_support_and_resistance_witness :
  exists s lo p hi,
    fst (get_strategy sqrt_approx E_near_70 "tsla" initial_world) = Ret (Ok s) /\
    s_support s = Fin lo /\ s_price s = Fin p /\ s_resistance s = Fin hi /\
    (lo <= p)%Q /\ (p <= hi)%Q.
Proof.
  assert (Hn : normalize "tsla" <> ""%string)
    by (intros Hn; vm_compute in Hn; discriminate Hn).
  assert (Hlen : (30 <= length (map flat_row near_70))%nat) by (vm_compute; lia).
  destruct (get_strategy_answers sqrt_approx E_near_70 "tsla" initial_world
              (map flat_row near_70) Hn eq_refl Hlen) as [s Hs].
  destruct (X13_price_between_support_and_resistance sqrt_approx E_near_70 "tsla"
              initial_world s Hs) as (lo & p & hi & H).
  exists s, lo, p, hi. split; [exact Hs|exact H].
Defined.

(** ** A series that does not move *)

Lemma ewm_go_flat alpha c : forall xs prev,
  (prev == c)%Q -> Forall (fun x => (x == c)%Q) xs ->
  Forall (fun y => (y == c)%Q) (ewm_go alpha prev xs).
Proof.
  induction xs as [|x xs IH]; intros prev Hp Hall; simpl; [constructor|].
  inversion Hall as [|? ? Hx Hxs]; subst.
  assert (Hy : (alpha * x + (1 - alpha) * prev == c)%Q) by (rewrite Hx, Hp; ring).
  constructor; [exact Hy|apply IH; assumption].
Qed.

Lemma ewm_mean_flat span c xs :
  Forall (fun x => (x == c)%Q) xs -> Forall (fun y => (y == c)%Q) (ewm_mean span xs).
Proof.
  intros Hall. destruct xs as [|x xs]; [constructor|].
  inversion Hall; subst. simpl. constructor; [assumption|].
  apply ewm_go_flat; assumption.
Qed.

Lemma zip_minus_flat a b : forall l k,
  Forall (fun x => (x == a)%Q) l -> Forall (fun x => (x == b)%Q) k ->
  Forall (fun x => (x == a - b)%Q) (zip_with Qminus l k).
Proof.
  induction l as [|x l IH]; intros k Hl Hk; [constructor|].
  destruct k as [|y k]; [constructor|].
  inversion Hl as [|? ? Hx]; inversion Hk as [|? ? Hy]; subst. simpl.
  constructor; [rewrite Hx, Hy; reflexivity|apply IH; assumption].
Qed.

Lemma macd_line_flat c close :
  Forall (fun x => (x == c)%Q) close -> Forall (fun x => (x == 0)%Q) (macd_line close).
Proof.
  intros H. unfold macd_line.
  eapply Forall_impl; [apply (zip_minus_flat c c); apply ewm_mean_flat, H|].
  intros x Hx. simpl in Hx. rewrite Hx. ring.
Qed.

Lemma signal_line_flat c close :
  Forall (fun x => (x == c)%Q) close -> Forall (fun x => (x == 0)%Q) (signal_line close).
Proof.
  intros H. unfold signal_line. eapply ewm_mean_flat, macd_line_flat, H.
Qed.

Lemma deltas_flat c close :
  Forall (fun x => (x == c)%Q) close -> Forall (fun d => (d == 0)%Q) (deltas close).
Proof.
  induction close as [|a r IH]; intros H; [constructor|].
  destruct r as [|b r]; [constructor|].
  rewrite deltas_cons.
  inversion H as [|? ? Ha Hr]; subst. inversion Hr as [|? ? Hb _]; subst.
  constructor; [rewrite Ha, Hb; ring|apply IH, Hr].
Qed.

Lemma gains_flat c close :
  Forall (fun x => (x == c)%Q) close -> Forall (fun g => (g == 0)%Q) (gains close).
Proof.
  intros H. unfold gains. destruct close as [|a r]; [constructor|].
  constructor; [reflexivity|]. apply Forall_fmap.
  eapply Forall_impl; [apply (deltas_flat c), H|].
  intros d Hd. unfold compose. cbv beta in *.
  destruct (d ?= 0)%Q; [reflexivity|reflexivity|exact Hd].
Qed.

Lemma losses_flat c close :
  Forall (fun x => (x == c)%Q) close -> Forall (fun l => (l == 0)%Q) (losses close).
Proof.
  intros H. unfold losses. destruct close as [|a r]; [constructor|].
  apply Forall_fmap. constructor; [reflexivity|]. apply Forall_fmap.
  eapply Forall_impl; [apply (deltas_flat c), H|].
  intros d Hd. unfold compose. cbv beta in *.
  destruct (d ?= 0)%Q; [reflexivity|rewrite Hd; reflexivity|reflexivity].
Qed.

Lemma rsi_flat c close i :
  Forall (fun x => (x == c)%Q) close -> (13 <= i)%nat -> (i < length close)%nat ->
  rsi_series close !! i = Some NaN.
Proof.
  intros H Hi Hlen. rewrite rsi_filled by assumption. f_equal.
  unfold rsi_of. rewrite ndiv_zero_zero; [reflexivity| |].
  - apply average_zero, Qsum_zero, window_Forall, (gains_flat c), H.
  - apply average_zero, Qsum_zero, window_Forall, (losses_flat c), H.
Qed.

Lemma Qsum_flat c l :
  Forall (fun x => (x == c)%Q) l ->
  (Qsum l == inject_Z (Z.of_nat (length l)) * c)%Q.
Proof.
  induction 1 as [|x l Hx _ IH]; unfold Qsum in *; simpl foldr; cbn [length].
  - reflexivity.
  - rewrite IH, Hx, Nat2Z.inj_succ. unfold Z.succ. rewrite inject_Z_plus.
    change (inject_Z 1) with 1%Q. ring.
Qed.

Lemma average_flat c l :
  l <> [] -> Forall (fun x => (x == c)%Q) l -> (average l == c)%Q.
Proof.
  intros Hne H. unfold average. rewrite (Qsum_flat c l H).
  assert (Hpos : (0 < inject_Z (Z.of_nat (length l)))%Q).
  { change 0%Q with (inject_Z 0). rewrite <- Zlt_Qlt.
    destruct l; [congruence|simpl; lia]. }
  field. lra.
Qed.

Lemma deviation_flat sqrt c l :
  (forall x, (x == 0)%Q -> (sqrt x == 0)%Q) ->
  l <> [] -> Forall (fun x => (x == c)%Q) l -> (deviation sqrt l == 0)%Q.
Proof.
  intros Hs Hne H. unfold deviation. apply Hs.
  assert (Hz : (Qsum (map (fun x => (x - average l) * (x - average l)) l) == 0)%Q).
  { apply Qsum_zero, Forall_fmap.
    pose proof (average_flat c l Hne H) as Hav.
    eapply Forall_impl; [exact H|].
    intros x Hx. unfold compose. cbv beta in *. rewrite Hx, Hav. ring. }
  unfold Qdiv. rewrite Hz. ring.
Qed.

Lemma ngt_eq_false a b : (a == b)%Q -> ngt (Fin a) (Fin b) = false.
Proof.
  intros H. apply not_true_is_false. rewrite ngt_fin. lra.
Qed.

(** X14: a price that does not move.  When every close of the history
    is the same price and there are fewer than 200 rows, the strategy
    route reports an undefined RSI (nan, 0/0) rated Neutral, a MACD rated
    Bearish (the line equals its signal line), and a Bollinger signal
    Overbought (the price sits on both bands); the overall recommendation
    is nevertheless HOLD, because the vote counts a price on the lower
    band as a buy before it looks at the upper band.  The square root is
    any function that maps 0 to 0. *)
Theorem X14_flat_series
    (sqrt : Q -> Q) (E : env) (req : string) (w : world)
    (s : strategy) (hist : list row) (c : Q) :
  (forall x, (x == 0)%Q -> (sqrt x == 0)%Q) ->
  fst (get_strategy sqrt E req w) = Ret (Ok s) ->
  yf E (calls w) (yearly req) = Frame hist ->
  Forall (fun x => (x == c)%Q) (map Close hist) ->
  (length hist < 200)%nat ->
  s_rsi s = NaN /\ s_rsi_signal s = RsiNeutral /\
  s_macd_signal s = Bearish /\
  s_bb_signal s = BbOverbought /\
  num_eq (s_upper s) (s_price s) /\ num_eq (s_lower s) (s_price s) /\
  s_ma_cross s = NoMA200 /\
  s_overall s = HOLD.
Proof.
  intros Hsq Hok Hy Hflat Hshort.
  destruct (get_strategy_ok _ _ _ _ _ Hok) as (hist' & Hy' & Hlen & Ha).
  rewrite Hy in Hy'. injection Hy' as <-.
  destruct (analyse_ok _ _ _ _ Ha)
    as (p & r & m & sg & g & u & l & a & Hp & Hr & Hm & Hsg & _ & Hu & Hl & _ &
        Hsp & Hsr & Hsrs & Hsm & Hss & Hsms & Hsu & Hsl & _ & Hsbb & _).
  destruct (analyse_votes _ _ _ _ Ha) as (cross & Hc & Hma & Hov & _).
  set (close := map Close hist) in *.
  assert (Hn : length close = length hist) by (unfold close; apply length_map).
  rewrite cross_of_short in Hc by lia. injection Hc as <-.
  (* the last values *)
  rewrite iloc_last_lookup in Hp.
  assert (Hpc : (p == c)%Q).
  { rewrite Forall_forall in Hflat. apply Hflat.
    eapply list_elem_of_lookup_2, Hp. }
  rewrite iloc_last_lookup, length_rsi_series, (rsi_flat c) in Hr
    by (first [exact Hflat|lia]).
  injection Hr as <-.
  rewrite iloc_last_lookup in Hm.
  assert (Hm0 : (m == 0)%Q).
  { pose proof (macd_line_flat c close Hflat) as Hall.
    rewrite Forall_forall in Hall. apply Hall.
    eapply list_elem_of_lookup_2, Hm. }
  rewrite iloc_last_lookup in Hsg.
  assert (Hsg0 : (sg == 0)%Q).
  { pose proof (signal_line_flat c close Hflat) as Hall.
    rewrite Forall_forall in Hall. apply Hall.
    eapply list_elem_of_lookup_2, Hsg. }
  assert (Hwin : window 20 (length close - 1) close <> [])
    by (apply window_nonempty; lia).
  assert (Hav : (average (window 20 (length close - 1) close) == c)%Q)
    by (apply average_flat; [exact Hwin|apply window_Forall, Hflat]).
  assert (Hsd : (deviation sqrt (window 20 (length close - 1) close) == 0)%Q)
    by (apply (deviation_flat sqrt c);
        [exact Hsq|exact Hwin|apply window_Forall, Hflat]).
  rewrite iloc_last_lookup, length_upper_band, upper_band_filled in Hu by lia.
  rewrite iloc_last_lookup, length_lower_band, lower_band_filled in Hl by lia.
  injection Hu as <-. injection Hl as <-.
  set (av := average (window 20 (length close - 1) close)) in *.
  set (sd := deviation sqrt (window 20 (length close - 1) close)) in *.
  assert (Hup : (av + sd * inject_Z 2 == p)%Q) by (rewrite Hav, Hsd, Hpc; ring).
  assert (Hlo : (av + - (sd * inject_Z 2) == p)%Q) by (rewrite Hav, Hsd, Hpc; ring).
  assert (Rup : (Qround_to 2 (av + sd * inject_Z 2) == Qround_to 2 p)%Q)
    by (apply Qround_to_comp, Hup).
  assert (Rlo : (Qround_to 2 (av + - (sd * inject_Z 2)) == Qround_to 2 p)%Q)
    by (apply Qround_to_comp, Hlo).
  assert (Rm : (Qround_to 4 m == Qround_to 4 sg)%Q)
    by (apply Qround_to_comp; rewrite Hm0, Hsg0; reflexivity).
  cbn [round] in *.
  assert (Hgt : ngt (s_macd s) (s_signal s) = false)
    by (rewrite Hsm, Hss; apply ngt_eq_false, Rm).
  assert (Hge : nge (s_price s) (s_upper s) = true)
    by (rewrite Hsp, Hsu; apply nge_fin; lra).
  assert (Hle : nle (s_price s) (s_lower s) = true)
    by (rewrite Hsp, Hsl; apply nle_fin; lra).
  split; [exact Hsr|].
  split; [rewrite Hsrs; reflexivity|].
  split; [rewrite Hsms; unfold classify_macd; rewrite <- Hsm, <- Hss, Hgt; reflexivity|].
  split; [rewrite Hsbb; unfold classify_bb; rewrite <- Hsp, <- Hsu, Hge; reflexivity|].
  split; [rewrite Hsu, Hsp; exact Rup|].
  split; [rewrite Hsl, Hsp; exact Rlo|].
  split; [exact Hma|].
  rewrite Hov. unfold votes. rewrite Hgt, Hle, Hsr. reflexivity.
Qed.

Lemma sqrt_approx_zero x : (x == 0)%Q -> (sqrt_approx x == 0)%Q.
Proof.
  intros H. unfold Qeq in H. simpl in H. rewrite Z.mul_1_r in H.
  unfold sqrt_approx. rewrite H. reflexivity.
Qed.

Lemma X14_flat_series_witness :
  exists s,
    fst (get_strategy sqrt_approx (E_flat 30) "tsla" initial_world) = Ret (Ok s) /\
    s_rsi s = NaN /\ s_rsi_signal s = RsiNeutral /\
    s_macd_signal s = Bearish /\
    s_bb_signal s = BbOverbought /\
    num_eq (s_upper s) (s_price s) /\ num_eq (s_lower s) (s_price s) /\
    s_ma_cross s = NoMA200 /\
    s_overall s = HOLD.
Proof.
  assert (Hn : normalize "tsla" <> ""%string)
    by (intros Hn; vm_compute in Hn; discriminate Hn).
  assert (Hlen : (30 <= length (replicate 30 (flat_row 100)))%nat)
    by (rewrite length_replicate; lia).
  destruct (get_strategy_answers sqrt_approx (E_flat 30) "tsla" initial_world
              (replicate 30 (flat_row 100)) Hn eq_refl Hlen) as [s Hs].
  exists s. split; [exact Hs|].
  apply (X14_flat_series sqrt_approx (E_flat 30) "tsla" initial_world s
           (replicate 30 (flat_row 100)) 100 sqrt_approx_zero Hs eq_refl).
  - apply Forall_fmap, Forall_replicate. reflexivity.
  - rewrite length_replicate. lia.
Defined.

(** ** The exponential averages stay within the range of the prices *)

Lemma alpha_range span :
  (1 <= span)%Z ->
  (0 <= 2 / (inject_Z span + 1))%Q /\ (2 / (inject_Z span + 1) <= 1)%Q.
Proof.
  intros H. assert (Hs : (1 <= inject_Z span)%Q).
  { change 1%Q with (inject_Z 1). rewrite <- Zle_Qle. exact H. }
  split.
  - apply Qle_shift_div_l; lra.
  - apply Qle_shift_div_r; lra.
Qed.

Lemma ewm_step_within alpha lo hi x prev :
  (0 <= alpha)%Q -> (alpha <= 1)%Q ->
  (lo <= x <= hi)%Q -> (lo <= prev <= hi)%Q ->
  (lo <= alpha * x + (1 - alpha) * prev <= hi)%Q.
Proof.
  intros Ha0 Ha1 [Hx1 Hx2] [Hp1 Hp2].
  assert (H1 : (0 <= alpha * (x - lo))%Q) by (apply Qmult_le_0_compat; lra).
  assert (H2 : (0 <= (1 - alpha) * (prev - lo))%Q) by (apply Qmult_le_0_compat; lra).
  assert (H3 : (0 <= alpha * (hi - x))%Q) by (apply Qmult_le_0_compat; lra).
  assert (H4 : (0 <= (1 - alpha) * (hi - prev))%Q) by (apply Qmult_le_0_compat; lra).
  split; lra.
Qed.

Lemma ewm_go_within alpha lo hi :
  (0 <= alpha)%Q -> (alpha <= 1)%Q ->
  forall xs prev, (lo <= prev <= hi)%Q -> within lo hi xs ->
  within lo hi (ewm_go alpha prev xs).
Proof.
  intros Ha0 Ha1. induction xs as [|x xs IH]; intros prev Hp Hall; simpl;
    [constructor|].
  inversion Hall as [|? ? Hx Hxs]; subst.
  pose proof (ewm_step_within alpha lo hi x prev Ha0 Ha1 Hx Hp) as Hy.
  constructor; [exact Hy|apply IH; assumption].
Qed.

Lemma ewm_mean_within span lo hi xs :
  (1 <= span)%Z -> within lo hi xs -> within lo hi (ewm_mean span xs).
Proof.
  intros Hs Hall. destruct xs as [|x xs]; [constructor|].
  inversion Hall; subst. simpl. constructor; [assumption|].
  destruct (alpha_range span Hs). apply ewm_go_within; assumption.
Qed.

Lemma zip_minus_within a b c d : forall l k,
  within a b l -> within c d k -> within (a - d) (b - c) (zip_with Qminus l k).
Proof.
  induction l as [|x l IH]; intros k Hl Hk; [constructor|].
  destruct k as [|y k]; [constructor|].
  inversion Hl as [|? ? Hx]; inversion Hk as [|? ? Hy]; subst. simpl.
  constructor; [lra|apply IH; assumption].
Qed.

(** X15: the exponential averages never leave the range of the prices.
    If every close lies between lo and hi, so does every value of an
    exponential average of span 1 or more; hence every value of the MACD
    line and of its signal line lies between -(hi - lo) and hi - lo, and
    every value of the histogram between -2(hi - lo) and 2(hi - lo). *)
Theorem X15_ema_within_price_range (close : list Q) (lo hi : Q) :
  within lo hi close ->
  (forall span, (1 <= span)%Z -> within lo hi (ewm_mean span close))
  /\ within (lo - hi) (hi - lo) (macd_line close)
  /\ within (lo - hi) (hi - lo) (signal_line close)
  /\ within ((lo - hi) - (hi - lo)) ((hi - lo) - (lo - hi)) (macd_hist close).
Proof.
  intros H.
  assert (Hm : within (lo - hi) (hi - lo) (macd_line close))
    by (apply zip_minus_within; apply ewm_mean_within; [lia|exact H|lia|exact H]).
  assert (Hs : within (lo - hi) (hi - lo) (signal_line close))
    by (apply ewm_mean_within; [lia|exact Hm]).
  split; [intros span Hspan; apply ewm_mean_within; assumption|].
  split; [exact Hm|]. split; [exact Hs|].
  apply zip_minus_within; assumption.
Qed.

Lemma X15_ema_within_price_range_witness :
  within 1 30 rising /\
  within (1 - 30) (30 - 1) (macd_line rising) /\
  within (1 - 30) (30 - 1) (signal_line rising).
Proof.
  assert (H : within 1 30 rising).
  { unfold within, rising. cbn [map seq].
    repeat (apply List.Forall_cons; [split; vm_compute; discriminate|]).
    apply List.Forall_nil. }
  split; [exact H|].
  destruct (X15_ema_within_price_range rising 1 30 H) as (_ & Hm & Hs & _).
  split; assumption.
Defined.

(** ** The news route *)

Lemma news_visit_fold compound (l : list News.item) : forall st,
  let st' := foldl (news_visit compound) st l in
  News.results st' = News.results st ++ map (news_entry compound) l /\
  News.pos st' = (News.pos st + labelled News.Positive (map (news_entry compound) l))%nat /\
  News.neg st' = (News.neg st + labelled News.Negative (map (news_entry compound) l))%nat /\
  News.neu st' = (News.neu st + labelled News.Neutral (map (news_entry compound) l))%nat.
Proof.
  induction l as [|it l IH]; intros st; cbn zeta.
  - simpl. rewrite app_nil_r. unfold labelled. simpl. repeat split; lia.
  - simpl foldl. destruct (IH (news_visit compound st it)) as (Hr & Hp & Hn & Hu).
    rewrite Hr, Hp, Hn, Hu. clear IH Hr Hp Hn Hu.
    unfold news_visit, labelled. cbn [map List.filter].
    destruct (News.e_sentiment (news_entry compound it)) eqn:He;
      cbn [News.results News.pos News.neg News.neu sentiment_eqb length];
      rewrite <- app_assoc; cbn [app]; repeat split; lia.
Qed.

Lemma labelled_total (l : list News.entry) :
  (labelled News.Positive l + labelled News.Negative l + labelled News.Neutral l
   = length l)%nat.
Proof.
  unfold labelled. induction l as [|e l IH]; [reflexivity|].
  cbn [List.filter]. destruct (News.e_sentiment e); cbn [sentiment_eqb length]; lia.
Qed.

Lemma news_tally_run compound items :
  let st := news_tally compound items in
  let rows := map (news_entry compound) (take 15 items) in
  News.results st = rows /\
  News.pos st = labelled News.Positive rows /\
  News.neg st = labelled News.Negative rows /\
  News.neu st = labelled News.Neutral rows.
Proof.
  unfold news_tally.
  destruct (news_visit_fold compound (take 15 items) (News.mk_counts [] 0 0 0))
    as (Hr & Hp & Hn & Hu).
  cbn zeta. rewrite Hr, Hp, Hn, Hu. repeat split.
Qed.

(** X16: the counts of the news route.  The answer lists the first 15
    items of the feed, in the order of the feed, and no more; the three
    counts are the numbers of rows labelled Positive, Negative and
    Neutral, so they add up to the number of rows listed, which is the
    smaller of 15 and the number of items. *)
Theorem X16_news_counts (compound : string -> Q) (items : list News.item) :
  let s := news_summary compound items in
  News.news s = map (news_entry compound) (take 15 items)
  /\ length (News.news s) = min 15 (length items)
  /\ News.positive s = labelled News.Positive (News.news s)
  /\ News.negative s = labelled News.Negative (News.news s)
  /\ News.neutral s = labelled News.Neutral (News.news s)
  /\ (News.positive s + News.negative s + News.neutral s
      = length (News.news s))%nat.
Proof.
  destruct (news_tally_run compound items) as (Hr & Hp & Hn & Hu).
  cbn zeta. unfold news_summary. cbn [News.news News.positive News.negative News.neutral].
  rewrite Hp, Hn, Hu, Hr.
  split; [reflexivity|].
  split; [rewrite length_map, length_take; reflexivity|].
  split; [reflexivity|]. split; [reflexivity|]. split; [reflexivity|].
  apply labelled_total.
Qed.

Lemma news_mood_bullish s :
  news_mood s = News.OverallBullish <-> (2 # 10 < s)%Q.
Proof.
  unfold news_mood.
  destruct (Qcompare_spec s (2 # 10)); destruct (Qcompare_spec s (- (2 # 10)));
    split; intros H'; first [discriminate H'|reflexivity|lra|exfalso; lra].
Qed.

Lemma news_mood_bearish s :
  news_mood s = News.OverallBearish <-> (s < - (2 # 10))%Q.
Proof.
  unfold news_mood.
  destruct (Qcompare_spec s (2 # 10)); destruct (Qcompare_spec s (- (2 # 10)));
    split; intros H'; first [discriminate H'|reflexivity|lra|exfalso; lra].
Qed.

Lemma lin3_Q (kp kn kt : Z) (p n t : nat) :
  (kp * Z.of_nat p + kn * Z.of_nat n + kt * Z.of_nat t <= 0)%Z ->
  (inject_Z kp * inject_Z (Z.of_nat p) + inject_Z kn * inject_Z (Z.of_nat n)
   + inject_Z kt * inject_Z (Z.of_nat t) <= 0)%Q.
Proof.
  intros H. rewrite Zle_Qle in H.
  rewrite !inject_Z_plus, !inject_Z_mult in H. exact H.
Qed.

Lemma round2_fixed (z : Z) : (Qround_to 2 (z # 100) == z # 100)%Q.
Proof.
  assert (H : (z # 100 == inject_Z z / inject_Z (10 ^ Z.of_nat 2))%Q)
    by (rewrite Qmake_Qdiv; reflexivity).
  rewrite (Qround_to_comp 2 _ _ H), Qround_to_fixed. symmetry. exact H.
Qed.

Lemma news_score_cases p n t :
  (p + n <= t)%nat -> (t <= 20)%nat ->
  ((2 # 10 < news_score p n t)%Q <-> (5 * n + t < 5 * p)%nat)
  /\ ((news_score p n t < - (2 # 10))%Q <-> (5 * p + t < 5 * n)%nat)
  /\ (- (1) <= news_score p n t)%Q /\ (news_score p n t <= 1)%Q.
Proof.
  intros Hsum Ht. unfold news_score.
  destruct (decide (0 < t)%nat) as [Hpos|Hzero].
  2:{ split; [|split; [|split]]; try (split; intros H; [exfalso; lra|lia]); lra. }
  set (P := inject_Z (Z.of_nat p)). set (N := inject_Z (Z.of_nat n)).
  set (T := inject_Z (Z.of_nat t)).
  assert (HT : (0 < T)%Q).
  { unfold T. change 0%Q with (inject_Z 0). rewrite <- Zlt_Qlt. lia. }
  set (x := ((P - N) / T)%Q).
  assert (Hlo : (- (1) <= x)%Q).
  { apply Qle_shift_div_l; [exact HT|].
    pose proof (lin3_Q (-1) 1 (-1) p n t ltac:(lia)) as H.
    fold P N T in H. change (inject_Z (-1)) with (- (1))%Q in H.
    change (inject_Z 1) with 1%Q in H. lra. }
  assert (Hhi : (x <= 1)%Q).
  { apply Qle_shift_div_r; [exact HT|].
    pose proof (lin3_Q 1 (-1) (-1) p n t ltac:(lia)) as H.
    fold P N T in H. change (inject_Z (-1)) with (- (1))%Q in H.
    change (inject_Z 1) with 1%Q in H. lra. }
  pose proof (round2_fixed 20) as R20. pose proof (round2_fixed 21) as R21.
  pose proof (round2_fixed (-20)) as Rm20. pose proof (round2_fixed (-21)) as Rm21.
  pose proof (round2_fixed 100) as R100. pose proof (round2_fixed (-100)) as Rm100.
  split; [|split; [|split]].
  - split.
    + intros H. destruct (lt_dec (5 * n + t) (5 * p)) as [|Hn]; [assumption|exfalso].
      assert (Hx : (x <= 20 # 100)%Q).
      { apply Qle_shift_div_r; [exact HT|].
        pose proof (lin3_Q 100 (-100) (-20) p n t ltac:(lia)) as H'.
        fold P N T in H'. change (inject_Z (-100)) with (- (100))%Q in H'.
        change (inject_Z 100) with 100%Q in H'.
        change (inject_Z (-20)) with (- (20))%Q in H'. lra. }
      apply (Qround_to_mono 2) in Hx. rewrite R20 in Hx. lra.
    + intros H.
      assert (Hx : (21 # 100 <= x)%Q).
      { apply Qle_shift_div_l; [exact HT|].
        pose proof (lin3_Q (-100) 100 21 p n t ltac:(lia)) as H'.
        fold P N T in H'. change (inject_Z (-100)) with (- (100))%Q in H'.
        change (inject_Z 100) with 100%Q in H'.
        change (inject_Z 21) with 21%Q in H'. lra. }
      apply (Qround_to_mono 2) in Hx. rewrite R21 in Hx. lra.
  - split.
    + intros H. destruct (lt_dec (5 * p + t) (5 * n)) as [|Hn]; [assumption|exfalso].
      assert (Hx : (-20 # 100 <= x)%Q).
      { apply Qle_shift_div_l; [exact HT|].
        pose proof (lin3_Q (-100) 100 (-20) p n t ltac:(lia)) as H'.
        fold P N T in H'. change (inject_Z (-100)) with (- (100))%Q in H'.
        change (inject_Z 100) with 100%Q in H'.
        change (inject_Z (-20)) with (- (20))%Q in H'. lra. }
      apply (Qround_to_mono 2) in Hx. rewrite Rm20 in Hx. lra.
    + intros H.
      assert (Hx : (x <= -21 # 100)%Q).
      { apply Qle_shift_div_r; [exact HT|].
        pose proof (lin3_Q 100 (-100) 21 p n t ltac:(lia)) as H'.
        fold P N T in H'. change (inject_Z (-100)) with (- (100))%Q in H'.
        change (inject_Z 100) with 100%Q in H'.
        change (inject_Z 21) with 21%Q in H'. lra. }
      apply (Qround_to_mono 2) in Hx. rewrite Rm21 in Hx. lra.
  - assert (Hx : (-100 # 100 <= x)%Q) by lra.
    apply (Qround_to_mono 2) in Hx. rewrite Rm100 in Hx. lra.
  - assert (Hx : (x <= 100 # 100)%Q) by lra.
    apply (Qround_to_mono 2) in Hx. rewrite R100 in Hx. lra.
Qed.

(** X17: the verdict of the news route.  The overall verdict is Bullish
    exactly when the positive headlines outnumber the negative ones by
    more than a fifth of the headlines counted, and Bearish exactly when
    the negative ones outnumber the positive ones by more than a fifth;
    the rounding of the score to two decimals never changes the verdict.
    The score lies between -1 and 1.  A feed without items is no error:
    the route answers with no rows, a score of 0 and Neutral. *)
Theorem X17_news_verdict (compound : string -> Q) (items : list News.item) :
  let s := news_summary compound items in
  let total := (News.positive s + News.negative s + News.neutral s)%nat in
  (News.overall s = News.OverallBullish <->
     (5 * News.negative s + total < 5 * News.positive s)%nat)
  /\ (News.overall s = News.OverallBearish <->
     (5 * News.positive s + total < 5 * News.negative s)%nat)
  /\ (- (1) <= News.overallScore s)%Q /\ (News.overallScore s <= 1)%Q
  /\ (forall provider req,
        normalize req <> ""%string ->
        provider (normalize req) = News.Feed [] ->
        get_news_sentiment compound provider req =
        Ok (News.mk_summary [] 0 0 0 News.OverallNeutral 0)).
Proof.
  cbn zeta.
  destruct (news_tally_run compound items) as (Hr & Hp & Hn & Hu).
  unfold news_summary.
  cbn [News.news News.positive News.negative News.neutral News.overall
       News.overallScore].
  set (st := news_tally compound items) in *.
  assert (Htot : (News.pos st + News.neg st + News.neu st <= 20)%nat).
  { rewrite Hp, Hn, Hu, labelled_total, length_map, length_take. lia. }
  destruct (news_score_cases (News.pos st) (News.neg st)
              (News.pos st + News.neg st + News.neu st) ltac:(lia) Htot)
    as (Hb & Hs & Hlo & Hhi).
  split; [rewrite news_mood_bullish; exact Hb|].
  split; [rewrite news_mood_bearish; exact Hs|].
  split; [exact Hlo|]. split; [exact Hhi|].
  intros provider req Hne Hfeed. unfold get_news_sentiment.
  apply truthy_nonempty in Hne. rewrite Hne, Hfeed. reflexivity.
Qed.

(** ** The stock route *)

Lemma round2_zero : (Qround_to 2 0 == 0)%Q.
Proof. exact (round2_fixed 0). Qed.

Lemma pct_sign a s :
  (0 < s)%Q ->
  ((0 <= a)%Q -> (0 <= a / s * inject_Z 100)%Q) /\
  ((a <= 0)%Q -> (a / s * inject_Z 100 <= 0)%Q) /\
  ((0 <= a / s * inject_Z 100)%Q -> (0 <= a)%Q).
Proof.
  intros Hs. change (inject_Z 100) with 100%Q.
  assert (Hd : (a / s * s == a)%Q) by (field; lra).
  assert (Hi : (0 < / s)%Q) by (apply Qinv_lt_0_compat, Hs).
  unfold Qdiv in *.
  split; [|split]; intros H.
  - assert (0 <= a * / s)%Q by (apply Qmult_le_0_compat; lra). lra.
  - assert (0 <= (- a) * / s)%Q by (apply Qmult_le_0_compat; lra). lra.
  - destruct (Qlt_le_dec a 0) as [Hneg|]; [exfalso|assumption].
    assert (0 < (- a) * / s)%Q by (apply Qmult_lt_0_compat; lra). lra.
Qed.

(** X18: the metrics of the stock route.  For a history that is not
    empty the metrics are computed; the start price and the current price
    both lie between the low and the high that are reported.  When the
    rounded start price is positive the ROI is a number, not negative when
    the rounded price has not fallen and not positive when it has not
    risen; when the start price rounds to 0 the ROI is no number at all
    (an infinity or nan), and no exception is raised. *)
Theorem X18_stock_metrics (close : list Q) :
  close <> [] ->
  exists m lo s c hi,
    stock_metrics close = Some m /\
    low52w m = Fin lo /\ startPrice m = Fin s /\
    currentPrice m = Fin c /\ high52w m = Fin hi /\
    (lo <= s)%Q /\ (s <= hi)%Q /\ (lo <= c)%Q /\ (c <= hi)%Q /\
    ((0 < s)%Q ->
       exists r, roi m = Fin r /\
                 ((s <= c)%Q -> (0 <= r)%Q) /\ ((c <= s)%Q -> (r <= 0)%Q)) /\
    ((s == 0)%Q -> forall r, roi m <> Fin r).
Proof.
  intros Hne. destruct close as [|x rest]; [congruence|].
  set (close := x :: rest).
  assert (Hlast : exists y, iloc close (-1) = Some y)
    by (apply iloc_last_Some; simpl; lia).
  destruct Hlast as [y Hy].
  assert (Hx : iloc close 0 = Some x) by (rewrite iloc_first; reflexivity).
  assert (Hxin : x ∈ close) by (apply elem_of_cons; left; reflexivity).
  assert (Hyin : y ∈ close).
  { rewrite iloc_last_lookup in Hy. eapply list_elem_of_lookup_2, Hy. }
  destruct (series_min_le _ _ Hxin) as (lo & Hlo & Hlox).
  destruct (series_max_ge _ _ Hxin) as (hi & Hhi & Hhix).
  destruct (series_min_le _ _ Hyin) as (lo' & Hlo' & Hloy).
  destruct (series_max_ge _ _ Hyin) as (hi' & Hhi' & Hhiy).
  rewrite Hlo in Hlo'. injection Hlo' as <-.
  rewrite Hhi in Hhi'. injection Hhi' as <-.
  unfold stock_metrics. rewrite Hy, Hx. cbn [mbind option_bind].
  rewrite Hlo, Hhi. cbn [round].
  eexists _, (Qround_to 2 lo), (Qround_to 2 x), (Qround_to 2 y), (Qround_to 2 hi).
  split; [reflexivity|].
  cbn [low52w startPrice currentPrice high52w roi].
  do 4 (split; [reflexivity|]).
  do 4 (split; [apply Qround_to_mono; assumption|]).
  set (s := Qround_to 2 x). set (c := Qround_to 2 y).
  unfold nsub. cbn [nneg nadd].
  split.
  - intros Hs. rewrite ndiv_fin_pos by exact Hs. unfold num_of_Z. cbn [nmul round].
    eexists. split; [reflexivity|].
    destruct (pct_sign (c + - s) s Hs) as (Hp & Hn & _).
    split; intros Hcs.
    + rewrite <- round2_zero. apply Qround_to_mono, Hp. lra.
    + rewrite <- round2_zero. apply Qround_to_mono, Hn. lra.
  - intros Hs r. unfold ndiv.
    assert (Hc : (s ?= 0)%Q = Eq) by (apply Qeq_alt, Hs). rewrite Hc.
    destruct (c + - s ?= 0)%Q; cbn; discriminate.
Qed.

Lemma X18_stock_metrics_witness :
  exists m lo s c hi,
    stock_metrics rising = Some m /\
    low52w m = Fin lo /\ startPrice m = Fin s /\
    currentPrice m = Fin c /\ high52w m = Fin hi /\
    (lo <= s)%Q /\ (s <= hi)%Q /\ (lo <= c)%Q /\ (c <= hi)%Q.
Proof.
  assert (Hne : rising <> []) by (intros H; vm_compute in H; discriminate H).
  destruct (X18_stock_metrics rising Hne)
    as (m & lo & s & c & hi & H1 & H2 & H3 & H4 & H5 & H6 & H7 & H8 & H9 & _).
  exists m, lo, s, c, hi. repeat split; assumption.
Defined.

(** X19: the ROI curve of the stock route.  For a history whose first
    close is positive the curve has one point for every row, every point
    is a number, the first point is 0, and a point is not negative exactly
    when the close of its row is not below the first close. *)
Theorem X19_roi_curve (close : list Q) (start : Q) :
  head close = Some start -> (0 < start)%Q ->
  exists curve,
    roi_series close = Some curve /\
    length curve = length close /\
    (exists r0, head curve = Some (Fin r0) /\ (r0 == 0)%Q) /\
    (forall i x, close !! i = Some x ->
       exists r, curve !! i = Some (Fin r) /\ ((0 <= r)%Q <-> (start <= x)%Q)).
Proof.
  intros Hhead Hpos. unfold roi_series. rewrite iloc_first, Hhead.
  cbn [mbind option_bind]. eexists. split; [reflexivity|].
  split; [apply length_map|].
  assert (Hpt : forall x,
    nmul (ndiv (nsub (Fin x) (Fin start)) (Fin start)) (num_of_Z 100)
    = Fin ((x + - start) / start * inject_Z 100)).
  { intros x. unfold nsub. cbn [nneg nadd]. rewrite ndiv_fin_pos by exact Hpos.
    reflexivity. }
  split.
  - destruct close as [|x rest]; [discriminate Hhead|].
    injection Hhead as ->. cbn [map head]. rewrite Hpt.
    eexists. split; [reflexivity|]. change (inject_Z 100) with 100%Q. field. lra.
  - intros i x Hi.
    change (map ?f close) with (f <$> close).
    rewrite list_lookup_fmap, Hi. cbn [fmap option_fmap option_map].
    rewrite Hpt. eexists. split; [reflexivity|].
    destruct (pct_sign (x + - start) start Hpos) as (Hp & _ & Hb).
    split; intros H; [apply Hb in H; lra|apply Hp; lra].
Qed.

Lemma X19_roi_curve_witness :
  exists curve r0,
    roi_series rising = Some curve /\ length curve = length rising /\
    head curve = Some (Fin r0) /\ (r0 == 0)%Q.
Proof.
  assert (Hpos : (0 < 1)%Q) by reflexivity.
  destruct (X19_roi_curve rising 1 eq_refl Hpos)
    as (curve & H1 & H2 & (r0 & H3 & H4) & _).
  exists curve, r0. repeat split; assumption.
Defined.

(** ** The options route *)

Lemma lin2_Q (a b x y : Z) :
  (a * x + b * y <= 0)%Z ->
  (inject_Z a * inject_Z x + inject_Z b * inject_Z y <= 0)%Q.
Proof.
  intros H. rewrite Zle_Qle in H.
  rewrite !inject_Z_plus, !inject_Z_mult in H. exact H.
Qed.

Lemma round3_fixed (z : Z) : (Qround_to 3 (z # 1000) == z # 1000)%Q.
Proof.
  assert (H : (z # 1000 == inject_Z z / inject_Z (10 ^ Z.of_nat 3))%Q)
    by (rewrite Qmake_Qdiv; reflexivity).
  rewrite (Qround_to_comp 3 _ _ H), Qround_to_fixed. symmetry. exact H.
Qed.

Lemma column_sum_nonneg col table : (0 <= column_sum col table)%Z.
Proof. unfold column_sum. lia. Qed.

(** X20: the put/call signal of the options route.  When the calls have
    no open interest at all the ratio is reported as 0 and the signal is
    Bullish, however large the open interest of the puts.  The signal
    Bearish is given only when the put open interest is more than 1.2
    times the call open interest, and Bullish only when there is no call
    open interest or the put open interest is less than 0.7 times it;
    from 0.7 to 1.2 times the signal is Neutral. *)
Theorem X20_put_call_signal (calls puts : list contract) :
  let pc := put_call_ratio calls puts in
  (0 <= callOI pc)%Z /\ (0 <= putOI pc)%Z
  /\ (callOI pc = 0%Z -> ratioOI pc = 0%Q /\ pc_signal pc = PcBullish)
  /\ (pc_signal pc = PcBearish ->
        (0 < callOI pc)%Z /\ (6 * callOI pc < 5 * putOI pc)%Z)
  /\ (pc_signal pc = PcBullish ->
        callOI pc = 0%Z \/ (10 * putOI pc < 7 * callOI pc)%Z)
  /\ ((0 < callOI pc)%Z -> (7 * callOI pc <= 10 * putOI pc)%Z ->
      (5 * putOI pc <= 6 * callOI pc)%Z -> pc_signal pc = PcNeutral).
Proof.
  cbn zeta. unfold put_call_ratio.
  cbn [callOI putOI ratioOI pc_signal].
  set (C := column_sum openInterest calls).
  set (P := column_sum openInterest puts).
  assert (HC : (0 <= C)%Z) by apply column_sum_nonneg.
  assert (HP : (0 <= P)%Z) by apply column_sum_nonneg.
  split; [exact HC|]. split; [exact HP|].
  destruct (Z_lt_le_dec 0 C) as [Hpos|Hzero].
  2:{ assert (H0 : C = 0%Z) by lia.
      assert (Hr : pc_ratio P C = 0%Q) by (rewrite H0; reflexivity).
      rewrite Hr. cbn.
      split; [intros _; split; reflexivity|].
      split; [intros H'; discriminate H'|].
      split; [intros _; left; assumption|]. intros; lia. }
  assert (Hr : pc_ratio P C = Qround_to 3 (inject_Z P / inject_Z C)).
  { unfold pc_ratio. apply Z.ltb_lt in Hpos. rewrite Hpos. reflexivity. }
  rewrite Hr. clear Hr.
  assert (HCq : (0 < inject_Z C)%Q).
  { change 0%Q with (inject_Z 0). rewrite <- Zlt_Qlt. exact Hpos. }
  set (x := (inject_Z P / inject_Z C)%Q).
  pose proof (round3_fixed 1200) as R12. pose proof (round3_fixed 700) as R7.
  assert (Hhi : (5 * P <= 6 * C)%Z -> (Qround_to 3 x <= 12 # 10)%Q).
  { intros H. assert (Hx : (x <= 1200 # 1000)%Q).
    { apply Qle_shift_div_r; [exact HCq|].
      pose proof (lin2_Q 5 (-6) P C ltac:(lia)) as H'.
      change (inject_Z 5) with 5%Q in H'.
      change (inject_Z (-6)) with (- (6))%Q in H'. lra. }
    apply (Qround_to_mono 3) in Hx. rewrite R12 in Hx. lra. }
  assert (Hlo : (7 * C <= 10 * P)%Z -> (7 # 10 <= Qround_to 3 x)%Q).
  { intros H. assert (Hx : (700 # 1000 <= x)%Q).
    { apply Qle_shift_div_l; [exact HCq|].
      pose proof (lin2_Q 7 (-10) C P ltac:(lia)) as H'.
      change (inject_Z 7) with 7%Q in H'.
      change (inject_Z (-10)) with (- (10))%Q in H'. lra. }
    apply (Qround_to_mono 3) in Hx. rewrite R7 in Hx. lra. }
  split; [intros H0; lia|].
  assert (Hbear : (12 # 10 < Qround_to 3 x)%Q -> (6 * C < 5 * P)%Z).
  { intros Hg. destruct (Z_lt_le_dec (6 * C) (5 * P)) as [Hlt|Hle]; [exact Hlt|].
    apply Hhi in Hle. exfalso. lra. }
  assert (Hbull : (Qround_to 3 x < 7 # 10)%Q -> (10 * P < 7 * C)%Z).
  { intros Hg. destruct (Z_lt_le_dec (10 * P) (7 * C)) as [Hlt|Hle]; [exact Hlt|].
    apply Hlo in Hle. exfalso. lra. }
  destruct (Qcompare_spec (Qround_to 3 x) (12 # 10)) as [He|Hl|Hg];
    destruct (Qcompare_spec (Qround_to 3 x) (7 # 10)) as [He'|Hl'|Hg'];
    (split; [|split]);
    first [ intros H'; discriminate H'
          | intros _; split; [exact Hpos|apply Hbear; assumption]
          | intros _; right; apply Hbull; assumption
          | intros _ H7 H12; reflexivity
          | intros _ H7 H12; apply Hhi in H12; apply Hlo in H7; exfalso; lra ].
Qed.

(** *** Sorting *)

Lemma insert_by_length {A} (le : A -> A -> bool) x l :
  length (insert_by le x l) = S (length l).
Proof.
  induction l as [|y r IH]; [reflexivity|]. simpl.
  destruct (le x y); simpl; [reflexivity|rewrite IH; reflexivity].
Qed.

Lemma sort_by_length {A} (le : A -> A -> bool) l :
  length (sort_by le l) = length l.
Proof.
  induction l as [|x l IH]; [reflexivity|].
  unfold sort_by in *. simpl. rewrite insert_by_length, IH. reflexivity.
Qed.

Lemma insert_by_Forall {A} (P : A -> Prop) (le : A -> A -> bool) x l :
  P x -> Forall P l -> Forall P (insert_by le x l).
Proof.
  intros Hx. induction 1 as [|y r Hy Hr IH]; simpl.
  - constructor; [exact Hx|constructor].
  - destruct (le x y); repeat constructor; assumption.
Qed.

Lemma sort_by_Forall {A} (P : A -> Prop) (le : A -> A -> bool) l :
  Forall P l -> Forall P (sort_by le l).
Proof.
  induction 1 as [|x l Hx Hl IH]; [constructor|].
  unfold sort_by in *. simpl. apply insert_by_Forall; assumption.
Qed.

Section Sorting.

Context {A : Type} (le : A -> A -> bool).
Hypothesis le_total : forall a b, le a b = false -> le b a = true.
Hypothesis le_trans : forall a b c, le a b = true -> le b c = true -> le a c = true.

Lemma insert_by_sorted x l : sorted_by le l -> sorted_by le (insert_by le x l).
Proof using le_total le_trans.
  induction l as [|y r IH]; intros Hs; simpl.
  - split; [constructor|exact I].
  - destruct Hs as (Hy & Hr). destruct (le x y) eqn:Hxy.
    + split; [|split; assumption].
      constructor; [exact Hxy|].
      eapply Forall_impl; [exact Hy|]. intros z Hz. simpl in Hz.
      eapply le_trans; eassumption.
    + split; [|apply IH, Hr].
      apply insert_by_Forall; [apply le_total, Hxy|exact Hy].
Qed.

Lemma sort_by_sorted l : sorted_by le (sort_by le l).
Proof using le_total le_trans.
  induction l as [|x l IH]; [exact I|].
  unfold sort_by in *. simpl. apply insert_by_sorted, IH.
Qed.

Lemma sorted_by_lookup l : sorted_by le l ->
  forall i j a b, (i < j)%nat -> l !! i = Some a -> l !! j = Some b -> le a b = true.
Proof.
  induction l as [|x r IH]; intros Hs i j a b Hij Ha Hb; [discriminate Ha|].
  destruct Hs as (Hx & Hr).
  destruct j as [|j]; [lia|]. simpl in Hb.
  destruct i as [|i].
  - injection Ha as <-. rewrite Forall_forall in Hx. apply Hx.
    eapply list_elem_of_lookup_2, Hb.
  - simpl in Ha. apply (IH Hr i j); [lia|assumption|assumption].
Qed.

End Sorting.

Lemma desc_total (a b : contract) :
  Qle_bool (strike b) (strike a) = false -> Qle_bool (strike a) (strike b) = true.
Proof.
  intros H. apply Qle_bool_iff.
  destruct (Qlt_le_dec (strike b) (strike a)) as [Hlt|Hle]; [|exact Hle].
  apply Qlt_le_weak in Hlt. apply Qle_bool_iff in Hlt. congruence.
Qed.

Lemma desc_trans (a b c : contract) :
  Qle_bool (strike b) (strike a) = true -> Qle_bool (strike c) (strike b) = true ->
  Qle_bool (strike c) (strike a) = true.
Proof.
  rewrite !Qle_bool_iff. intros. lra.
Qed.

Lemma asc_total (a b : contract) :
  Qle_bool (strike a) (strike b) = false -> Qle_bool (strike b) (strike a) = true.
Proof. apply (desc_total b a). Qed.

Lemma asc_trans (a b c : contract) :
  Qle_bool (strike a) (strike b) = true -> Qle_bool (strike b) (strike c) = true ->
  Qle_bool (strike a) (strike c) = true.
Proof.
  rewrite !Qle_bool_iff. intros. lra.
Qed.

Lemma filter_Forall_bool {A} (f : A -> bool) l :
  Forall (fun x => f x = true) (List.filter f l).
Proof.
  apply List.Forall_forall. intros x Hx. apply List.filter_In in Hx. tauto.
Qed.

Lemma otm_puts_below price puts :
  Forall (fun c => (strike c < price)%Q) (otm_puts price puts).
Proof.
  unfold otm_puts. apply sort_by_Forall.
  eapply Forall_impl; [apply filter_Forall_bool|].
  intros c Hc. simpl in Hc. apply negb_true_iff in Hc.
  apply Qnot_le_lt. intros H. apply Qle_bool_iff in H. congruence.
Qed.

Lemma otm_calls_above price calls :
  Forall (fun c => (price < strike c)%Q) (otm_calls price calls).
Proof.
  unfold otm_calls. apply sort_by_Forall.
  eapply Forall_impl; [apply filter_Forall_bool|].
  intros c Hc. simpl in Hc. apply negb_true_iff in Hc.
  apply Qnot_le_lt. intros H. apply Qle_bool_iff in H. congruence.
Qed.

Lemma otm_puts_order price puts i j a b :
  (i <= j)%nat -> otm_puts price puts !! i = Some a ->
  otm_puts price puts !! j = Some b -> (strike b <= strike a)%Q.
Proof.
  intros Hij Ha Hb. destruct (decide (i = j)) as [->|Hne].
  - rewrite Ha in Hb. injection Hb as <-. lra.
  - apply Qle_bool_iff.
    apply (sorted_by_lookup (fun a b => Qle_bool (strike b) (strike a))
             (otm_puts price puts)) with (i := i) (j := j); try assumption; [|lia].
    unfold otm_puts. apply sort_by_sorted.
    + intros x y. apply desc_total.
    + intros x y z. apply desc_trans.
Qed.

Lemma otm_calls_order price calls i j a b :
  (i <= j)%nat -> otm_calls price calls !! i = Some a ->
  otm_calls price calls !! j = Some b -> (strike a <= strike b)%Q.
Proof.
  intros Hij Ha Hb. destruct (decide (i = j)) as [->|Hne].
  - rewrite Ha in Hb. injection Hb as <-. lra.
  - apply Qle_bool_iff.
    apply (sorted_by_lookup (fun a b => Qle_bool (strike a) (strike b))
             (otm_calls price calls)) with (i := i) (j := j); try assumption; [|lia].
    unfold otm_calls. apply sort_by_sorted.
    + intros x y. apply asc_total.
    + intros x y z. apply asc_trans.
Qed.

Lemma further_otm_spec (t : list contract) :
  (2 <= length t)%nat ->
  exists j c, (1 <= j)%nat /\ t !! j = Some c /\ further_otm t = Some c /\
              (length t = 2%nat -> j = 1%nat).
Proof.
  intros Hlen. unfold further_otm.
  destruct (decide (3 < length t)%nat) as [H3|H3].
  - destruct (t !! 3%nat) as [c|] eqn:Hc.
    2:{ apply lookup_ge_None in Hc. lia. }
    exists 3%nat, c. split; [lia|]. split; [exact Hc|].
    split; [|lia]. unfold iloc. simpl. exact Hc.
  - destruct (t !! (length t - 1)%nat) as [c|] eqn:Hc.
    2:{ apply lookup_ge_None in Hc. lia. }
    exists (length t - 1)%nat, c. split; [lia|]. split; [exact Hc|].
    split; [rewrite iloc_last_lookup; exact Hc|lia].
Qed.

Lemma iloc_1 {A} (l : list A) : iloc l 1 = l !! 1%nat.
Proof. reflexivity. Qed.

(** *** The iron condor *)

Lemma iron_condor_short price calls puts :
  (length (otm_puts price puts) < 2 \/ length (otm_calls price calls) < 2)%nat ->
  iron_condor price calls puts = Some (mk_condor 0 0 0 0 (Fin 0) (Fin 0) NotEnough).
Proof.
  intros H. unfold iron_condor.
  destruct (bool_decide (2 <= length (otm_puts price puts))%nat) eqn:Hp;
    destruct (bool_decide (2 <= length (otm_calls price calls))%nat) eqn:Hc;
    try reflexivity.
  apply bool_decide_eq_true in Hp. apply bool_decide_eq_true in Hc. lia.
Qed.

Lemma iron_condor_run price calls puts :
  (2 <= length (otm_puts price puts))%nat ->
  (2 <= length (otm_calls price calls))%nat ->
  exists sell_put buy_put sell_call buy_call jp jc,
    otm_puts price puts !! 1%nat = Some sell_put /\
    otm_puts price puts !! jp = Some buy_put /\ (1 <= jp)%nat /\
    (length (otm_puts price puts) = 2%nat -> jp = 1%nat) /\
    otm_calls price calls !! 1%nat = Some sell_call /\
    otm_calls price calls !! jc = Some buy_call /\ (1 <= jc)%nat /\
    (length (otm_calls price calls) = 2%nat -> jc = 1%nat) /\
    iron_condor price calls puts =
    Some
      (let sell_put_strike := Qround_to 2 (strike sell_put) in
       let buy_put_strike := Qround_to 2 (strike buy_put) in
       let sell_call_strike := Qround_to 2 (strike sell_call) in
       let buy_call_strike := Qround_to 2 (strike buy_call) in
       let net_credit :=
         round (nsub (nadd (round (lastPrice sell_put) 2) (round (lastPrice sell_call) 2))
                     (nadd (round (lastPrice buy_put) 2) (round (lastPrice buy_call) 2)))
               2 in
       let max_width :=
         pymax (Qround_to 2 (sell_put_strike - buy_put_strike))
               (Qround_to 2 (buy_call_strike - sell_call_strike)) in
       mk_condor sell_put_strike buy_put_strike sell_call_strike buy_call_strike
         net_credit
         (if ngt (Fin max_width) net_credit
          then round (nsub (Fin max_width) net_credit) 2 else Fin 0)
         (if ngt net_credit (Fin 0) then NetCredit else NetDebit)).
Proof.
  intros Hp Hc. unfold iron_condor.
  rewrite (bool_decide_eq_true_2 _ Hp), (bool_decide_eq_true_2 _ Hc). cbn [andb].
  destruct (further_otm_spec _ Hp) as (jp & bp & Hjp & Hbp & Hfp & Hp2).
  destruct (further_otm_spec _ Hc) as (jc & bc & Hjc & Hbc & Hfc & Hc2).
  destruct (otm_puts price puts !! 1%nat) as [sp|] eqn:Hsp.
  2:{ apply lookup_ge_None in Hsp. lia. }
  destruct (otm_calls price calls !! 1%nat) as [sc|] eqn:Hsc.
  2:{ apply lookup_ge_None in Hsc. lia. }
  exists sp, bp, sc, bc, jp, jc.
  rewrite !iloc_1, Hsp, Hsc, Hfp, Hfc.
  repeat (split; [first [reflexivity|assumption]|]). reflexivity.
Qed.

Lemma max_loss_nonneg mw nc :
  nge (if ngt (Fin mw) nc then round (nsub (Fin mw) nc) 2 else Fin 0) (Fin 0) = true.
Proof.
  destruct nc as [k| | |]; try reflexivity.
  destruct (ngt (Fin mw) (Fin k)) eqn:Hgt; [|reflexivity].
  apply ngt_fin in Hgt. unfold nsub. cbn [nneg nadd round].
  apply nge_fin. rewrite <- round2_zero. apply Qround_to_mono. lra.
Qed.

(** X21: the strikes of the iron condor.  The route always computes a
    setup and the maximum loss it reports is never negative.  It reports
    that there are not enough options exactly when fewer than two puts
    lie below the price or fewer than two calls above it; the four
    strikes are then 0 and no payoff diagram is drawn.  Otherwise the
    strikes are in the order of an iron condor around the price: bought
    put <= sold put <= price <= sold call <= bought call. *)
Theorem X21_iron_condor_strikes (c : Q) (calls puts : list contract) :
  let price := Qround_to 2 c in
  exists ic,
    iron_condor price calls puts = Some ic
    /\ nge (maxLoss ic) (Fin 0) = true
    /\ (ic_signal ic = NotEnough <->
        (length (otm_puts price puts) < 2 \/ length (otm_calls price calls) < 2)%nat)
    /\ (ic_signal ic = NotEnough ->
        sellPut ic = 0%Q /\ buyPut ic = 0%Q /\ sellCall ic = 0%Q /\ buyCall ic = 0%Q
        /\ iron_condor_chart ic = None)
    /\ (ic_signal ic <> NotEnough ->
        (buyPut ic <= sellPut ic)%Q /\ (sellPut ic <= price)%Q /\
        (price <= sellCall ic)%Q /\ (sellCall ic <= buyCall ic)%Q).
Proof.
  intros price.
  destruct (le_lt_dec 2 (length (otm_puts price puts))) as [Hp|Hp];
    [destruct (le_lt_dec 2 (length (otm_calls price calls))) as [Hc|Hc]|].
  - destruct (iron_condor_run price calls puts Hp Hc)
      as (sp & bp & sc & bc & jp & jc & Hsp & Hbp & Hjp & _ & Hsc & Hbc & Hjc & _ & Hrun).
    eexists. split; [exact Hrun|]. cbn zeta.
    cbn [maxLoss ic_signal sellPut buyPut sellCall buyCall].
    split; [apply max_loss_nonneg|].
    assert (Hsig : forall nc, (if ngt nc (Fin 0) then NetCredit else NetDebit) <> NotEnough)
      by (intros nc; destruct (ngt nc (Fin 0)); discriminate).
    split; [split; [intros H; exfalso; exact (Hsig _ H)|lia]|].
    split; [intros H; exfalso; exact (Hsig _ H)|].
    intros _.
    pose proof (otm_puts_below price puts) as Hbelow.
    pose proof (otm_calls_above price calls) as Habove.
    rewrite Forall_forall in Hbelow, Habove.
    assert (Hprice : (Qround_to 2 price == price)%Q) by apply Qround_to_idem.
    split; [apply Qround_to_mono, (otm_puts_order price puts 1 jp); assumption|].
    split.
    { rewrite <- Hprice. apply Qround_to_mono, Qlt_le_weak, Hbelow.
      eapply list_elem_of_lookup_2, Hsp. }
    split.
    { rewrite <- Hprice. apply Qround_to_mono, Qlt_le_weak, Habove.
      eapply list_elem_of_lookup_2, Hsc. }
    apply Qround_to_mono, (otm_calls_order price calls 1 jc); assumption.
  - rewrite iron_condor_short by (right; exact Hc).
    eexists. split; [reflexivity|].
    cbn [maxLoss ic_signal sellPut buyPut sellCall buyCall].
    split; [reflexivity|].
    split; [split; [intros _; right; exact Hc|intros _; reflexivity]|].
    split; [intros _; repeat split; reflexivity|]. intros H; congruence.
  - rewrite iron_condor_short by (left; exact Hp).
    eexists. split; [reflexivity|].
    cbn [maxLoss ic_signal sellPut buyPut sellCall buyCall].
    split; [reflexivity|].
    split; [split; [intros _; left; exact Hp|intros _; reflexivity]|].
    split; [intros _; repeat split; reflexivity|]. intros H; congruence.
Qed.

Lemma nsub_self x : nsub x x = NaN \/ exists q, nsub x x = Fin q /\ (q == 0)%Q.
Proof.
  destruct x as [a| | |]; [right|left; reflexivity..].
  exists (a + - a)%Q. split; [reflexivity|ring].
Qed.

Lemma pymax_cases a b :
  ((b <= a)%Q /\ pymax a b = a) \/ ((a < b)%Q /\ pymax a b = b).
Proof.
  unfold pymax. destruct (Qle_bool b a) eqn:H.
  - left. split; [apply Qle_bool_iff, H|reflexivity].
  - right. split; [|reflexivity].
    apply Qnot_le_lt. intros H'. apply Qle_bool_iff in H'. congruence.
Qed.

(** X22: an iron condor on too few strikes.  When exactly two puts lie
    below the price, the put that is bought is the put that is sold: the
    put side has no width.  The same holds of the calls.  When both sides
    have exactly two strikes the setup is always reported as a net debit
    with a maximum loss of 0, whatever the premiums. *)
Theorem X22_iron_condor_two_strikes
    (price : Q) (calls puts : list contract) (ic : condor) :
  iron_condor price calls puts = Some ic ->
  (2 <= length (otm_puts price puts))%nat ->
  (2 <= length (otm_calls price calls))%nat ->
  (length (otm_puts price puts) = 2%nat -> buyPut ic = sellPut ic)
  /\ (length (otm_calls price calls) = 2%nat -> buyCall ic = sellCall ic)
  /\ (length (otm_puts price puts) = 2%nat ->
      length (otm_calls price calls) = 2%nat ->
      ic_signal ic = NetDebit /\ maxLoss ic = Fin 0).
Proof.
  intros Hic Hp Hc.
  destruct (iron_condor_run price calls puts Hp Hc)
    as (sp & bp & sc & bc & jp & jc & Hsp & Hbp & _ & Hp2 & Hsc & Hbc & _ & Hc2 & Hrun).
  rewrite Hrun in Hic. injection Hic as <-. cbn zeta.
  cbn [maxLoss ic_signal sellPut buyPut sellCall buyCall].
  assert (Ep : length (otm_puts price puts) = 2%nat -> bp = sp).
  { intros H. rewrite (Hp2 H), Hsp in Hbp. congruence. }
  assert (Ec : length (otm_calls price calls) = 2%nat -> bc = sc).
  { intros H. rewrite (Hc2 H), Hsc in Hbc. congruence. }
  split; [intros H; rewrite (Ep H); reflexivity|].
  split; [intros H; rewrite (Ec H); reflexivity|].
  intros H1 H2. rewrite (Ep H1), (Ec H2).
  set (x := nadd (round (lastPrice sp) 2) (round (lastPrice sc) 2)).
  assert (Hw : (pymax (Qround_to 2 (Qround_to 2 (strike sp) - Qround_to 2 (strike sp)))
                      (Qround_to 2 (Qround_to 2 (strike sc) - Qround_to 2 (strike sc)))
                == 0)%Q).
  { assert (Hz : forall a, (Qround_to 2 (a - a) == 0)%Q).
    { intros a. assert (Ha : (a - a == 0)%Q) by ring.
      rewrite (Qround_to_comp 2 _ _ Ha). apply round2_zero. }
    destruct (pymax_cases
                (Qround_to 2 (Qround_to 2 (strike sp) - Qround_to 2 (strike sp)))
                (Qround_to 2 (Qround_to 2 (strike sc) - Qround_to 2 (strike sc))))
      as [(_ & ->)|(_ & ->)]; apply Hz. }
  destruct (nsub_self x) as [->|(q & -> & Hq)].
  - split; reflexivity.
  - cbn [round].
    assert (Hr : (Qround_to 2 q == 0)%Q)
      by (rewrite (Qround_to_comp 2 _ _ Hq); apply round2_zero).
    rewrite (ngt_eq_false (Qround_to 2 q) 0 Hr).
    rewrite ngt_eq_false by (rewrite Hw, Hr; reflexivity).
    split; reflexivity.
Qed.

Lemma X22_iron_condor_two_strikes_witness :
  exists ic,
    iron_condor 100 thin_calls thin_puts = Some ic /\
    buyPut ic = sellPut ic /\ buyCall ic = sellCall ic /\
    ic_signal ic = NetDebit /\ maxLoss ic = Fin 0.
Proof.
  assert (Hp : length (otm_puts 100 thin_puts) = 2%nat) by (vm_compute; reflexivity).
  assert (Hc : length (otm_calls 100 thin_calls) = 2%nat) by (vm_compute; reflexivity).
  destruct (iron_condor 100 thin_calls thin_puts) as [ic|] eqn:Hic;
    [|vm_compute in Hic; discriminate Hic].
  exists ic. split; [reflexivity|].
  destruct (X22_iron_condor_two_strikes 100 thin_calls thin_puts ic Hic
              ltac:(rewrite Hp; lia) ltac:(rewrite Hc; lia)) as (H1 & H2 & H3).
  destruct (H3 Hp Hc) as (H4 & H5).
  repeat split; auto.
Defined.

(** *** The payoff diagram *)

Lemma round_diff n a b :
  (Qround_to n (Qround_to n a - Qround_to n b) == Qround_to n a - Qround_to n b)%Q.
Proof.
  pose proof (scale_pos n) as Hs.
  set (z1 := round_half_even (a * inject_Z (10 ^ Z.of_nat n))).
  set (z2 := round_half_even (b * inject_Z (10 ^ Z.of_nat n))).
  assert (H : (Qround_to n a - Qround_to n b
               == inject_Z (z1 - z2) / inject_Z (10 ^ Z.of_nat n))%Q).
  { unfold Qround_to. fold z1 z2. unfold Z.sub.
    rewrite inject_Z_plus, inject_Z_opp. field. lra. }
  rewrite (Qround_to_comp n _ _ H), Qround_to_fixed. symmetry. exact H.
Qed.

Lemma payoff_shape bp sp sc bc p :
  (bp <= sp)%Q -> (sp <= sc)%Q -> (sc <= bc)%Q ->
  let f := (pymax (bp - p) 0 + - pymax (sp - p) 0 + - pymax (p - sc) 0
            + pymax (p - bc) 0)%Q in
  (f <= 0)%Q
  /\ (forall w, (sp - bp <= w)%Q -> (bc - sc <= w)%Q -> (- w <= f)%Q)
  /\ ((sp <= p)%Q -> (p <= sc)%Q -> (f == 0)%Q).
Proof.
  intros H1 H2 H3. cbn zeta.
  destruct (pymax_cases (bp - p) 0) as [(Ha & ->)|(Ha & ->)];
    destruct (pymax_cases (sp - p) 0) as [(Hb & ->)|(Hb & ->)];
    destruct (pymax_cases (p - sc) 0) as [(Hc & ->)|(Hc & ->)];
    destruct (pymax_cases (p - bc) 0) as [(Hd & ->)|(Hd & ->)];
    (split; [lra|split; [intros w Hw1 Hw2; lra|intros; lra]]).
Qed.

Lemma filter_keeps_Forall {A} (P : A -> Prop) (f : A -> bool) l :
  Forall P l -> Forall P (List.filter f l).
Proof.
  intros H. apply List.Forall_forall. intros x Hx. apply List.filter_In in Hx.
  rewrite List.Forall_forall in H. apply H. tauto.
Qed.

Lemma otm_puts_priced price puts : priced puts -> priced (otm_puts price puts).
Proof. intros H. apply sort_by_Forall, filter_keeps_Forall, H. Qed.

Lemma otm_calls_priced price calls : priced calls -> priced (otm_calls price calls).
Proof. intros H. apply sort_by_Forall, filter_keeps_Forall, H. Qed.

Lemma length_linspace a b n : length (linspace a b n) = n.
Proof. unfold linspace. rewrite length_map, length_seq. reflexivity. Qed.

(** X23: the payoff diagram agrees with the figures of the setup.  For
    a setup computed from a chain whose premiums are numbers, the net
    credit and the maximum loss are numbers, and at every price at expiry
    the payoff that is drawn is a number that is at most the net credit
    and at least minus the maximum loss; between the two strikes sold it
    equals the net credit.  The diagram, when it is drawn, has 300 points,
    each within these bounds. *)
Theorem X23_payoff_within_reported_figures
    (c : Q) (calls puts : list contract) (ic : condor) :
  iron_condor (Qround_to 2 c) calls puts = Some ic ->
  ic_signal ic <> NotEnough ->
  priced calls -> priced puts ->
  exists k m,
    netCredit ic = Fin k /\ maxLoss ic = Fin m /\ (0 <= m)%Q /\
    (forall p, exists v,
        condor_payoff ic p = Fin v /\ (- m <= v)%Q /\ (v <= k)%Q /\
        ((sellPut ic <= p)%Q -> (p <= sellCall ic)%Q -> (v == k)%Q)) /\
    (forall pts, iron_condor_chart ic = Some pts ->
        length pts = 300%nat /\
        Forall (fun pt => exists v, snd pt = Fin v /\ (- m <= v)%Q /\ (v <= k)%Q) pts).
Proof.
  intros Hic Hsig Hcalls Hputs. set (price := Qround_to 2 c) in *.
  destruct (le_lt_dec 2 (length (otm_puts price puts))) as [Hp|Hp].
  2:{ rewrite iron_condor_short in Hic by (left; exact Hp).
      injection Hic as <-. exfalso. apply Hsig. reflexivity. }
  destruct (le_lt_dec 2 (length (otm_calls price calls))) as [Hc|Hc].
  2:{ rewrite iron_condor_short in Hic by (right; exact Hc).
      injection Hic as <-. exfalso. apply Hsig. reflexivity. }
  destruct (iron_condor_run price calls puts Hp Hc)
    as (sp & bp & sc & bc & jp & jc & Hsp & Hbp & Hjp & _ & Hsc & Hbc & Hjc & _ & Hrun).
  rewrite Hrun in Hic. injection Hic as <-. clear Hsig Hrun. cbn zeta.
  (* the premiums *)
  pose proof (otm_puts_priced price puts Hputs) as Pp.
  pose proof (otm_calls_priced price calls Hcalls) as Pc.
  unfold priced in Pp, Pc. rewrite Forall_forall in Pp, Pc.
  destruct (Pp sp (list_elem_of_lookup_2 _ _ _ Hsp)) as (qsp & Eqsp).
  destruct (Pp bp (list_elem_of_lookup_2 _ _ _ Hbp)) as (qbp & Eqbp).
  destruct (Pc sc (list_elem_of_lookup_2 _ _ _ Hsc)) as (qsc & Eqsc).
  destruct (Pc bc (list_elem_of_lookup_2 _ _ _ Hbc)) as (qbc & Eqbc).
  rewrite Eqsp, Eqbp, Eqsc, Eqbc. unfold nsub. cbn [round nadd nneg].
  (* the strikes *)
  pose proof (otm_puts_below price puts) as Hbelow.
  pose proof (otm_calls_above price calls) as Habove.
  rewrite Forall_forall in Hbelow, Habove.
  assert (Hprice : (Qround_to 2 price == price)%Q) by apply Qround_to_idem.
  assert (O1 : (Qround_to 2 (strike bp) <= Qround_to 2 (strike sp))%Q)
    by (apply Qround_to_mono, (otm_puts_order price puts 1 jp); assumption).
  assert (O2 : (Qround_to 2 (strike sp) <= price)%Q).
  { rewrite <- Hprice. apply Qround_to_mono, Qlt_le_weak, Hbelow.
    eapply list_elem_of_lookup_2, Hsp. }
  assert (O3 : (price <= Qround_to 2 (strike sc))%Q).
  { rewrite <- Hprice. apply Qround_to_mono, Qlt_le_weak, Habove.
    eapply list_elem_of_lookup_2, Hsc. }
  assert (O4 : (Qround_to 2 (strike sc) <= Qround_to 2 (strike bc))%Q)
    by (apply Qround_to_mono, (otm_calls_order price calls 1 jc); assumption).
  set (SP := Qround_to 2 (strike sp)) in *. set (BP := Qround_to 2 (strike bp)) in *.
  set (SC := Qround_to 2 (strike sc)) in *. set (BC := Qround_to 2 (strike bc)) in *.
  pose proof (round_diff 2 (strike sp) (strike bp)) as Wp. fold SP BP in Wp.
  pose proof (round_diff 2 (strike bc) (strike sc)) as Wc. fold SC BC in Wc.
  set (y := (Qround_to 2 qsp + Qround_to 2 qsc
             + - (Qround_to 2 qbp + Qround_to 2 qbc))%Q).
  set (k := Qround_to 2 y).
  set (mw := pymax (Qround_to 2 (SP - BP)) (Qround_to 2 (BC - SC))).
  assert (Hk : (Qround_to 2 k == k)%Q) by apply Qround_to_idem.
  assert (Hmw1 : (SP - BP <= mw)%Q /\ (BC - SC <= mw)%Q).
  { unfold mw.
    destruct (pymax_cases (Qround_to 2 (SP - BP)) (Qround_to 2 (BC - SC)))
      as [(H & ->)|(H & ->)]; lra. }
  assert (Hmw2 : (Qround_to 2 (mw + - k) == mw + - k)%Q /\
                 (Qround_to 2 (k + - mw) == k + - mw)%Q).
  { unfold mw, k.
    destruct (pymax_cases (Qround_to 2 (SP - BP)) (Qround_to 2 (BC - SC)))
      as [(_ & ->)|(_ & ->)]; split; apply round_diff. }
  destruct Hmw1 as (Hw1 & Hw2). destruct Hmw2 as (Hf1 & Hf2).
  set (m := if ngt (Fin mw) (Fin k) then Qround_to 2 (mw + - k) else 0%Q).
  assert (Em : (if ngt (Fin mw) (Fin k)
                then Fin (Qround_to 2 (mw + - k)) else Fin 0) = Fin m)
    by (unfold m; destruct (ngt (Fin mw) (Fin k)); reflexivity).
  assert (Hm : (0 <= m)%Q /\ (k + - mw >= - m)%Q).
  { unfold m. destruct (ngt (Fin mw) (Fin k)) eqn:Hgt.
    - apply ngt_fin in Hgt. rewrite Hf1. split; lra.
    - assert (Hle : (mw <= k)%Q).
      { apply Qnot_lt_le. intros H. apply ngt_fin in H. congruence. }
      split; lra. }
  destruct Hm as (Hm0 & Hm1).
  assert (Hpay : forall p, exists v,
    condor_payoff
      {| sellPut := SP; buyPut := BP; sellCall := SC; buyCall := BC;
         netCredit := Fin k;
         maxLoss := if ngt (Fin mw) (Fin k)
                    then Fin (Qround_to 2 (mw + - k)) else Fin 0;
         ic_signal := if ngt (Fin k) (Fin 0) then NetCredit else NetDebit |} p
    = Fin v /\ (- m <= v)%Q /\ (v <= k)%Q /\
    ((SP <= p)%Q -> (p <= SC)%Q -> (v == k)%Q)).
  { intros p. unfold condor_payoff.
    cbn [sellPut buyPut sellCall buyCall netCredit nadd round].
    destruct (payoff_shape BP SP SC BC p O1 ltac:(lra) O4) as (Hf0 & Hfw & Hfz).
    cbn zeta in Hf0, Hfw, Hfz.
    set (f := (pymax (BP - p) 0 + - pymax (SP - p) 0 + - pymax (p - SC) 0
               + pymax (p - BC) 0)%Q) in *.
    specialize (Hfw mw Hw1 Hw2).
    eexists. split; [reflexivity|].
    split; [|split].
    - assert (Hlow : (k + - mw <= f + k)%Q) by lra.
      apply (Qround_to_mono 2) in Hlow. rewrite Hf2 in Hlow. lra.
    - assert (Hup : (f + k <= k)%Q) by lra.
      apply (Qround_to_mono 2) in Hup. rewrite Hk in Hup. exact Hup.
    - intros Hp1 Hp2. specialize (Hfz Hp1 Hp2).
      assert (Hfk : (f + k == k)%Q) by (rewrite Hfz; ring).
      rewrite (Qround_to_comp 2 _ _ Hfk). exact Hk. }
  exists k, m.
  cbn [netCredit maxLoss]. fold y k mw. rewrite Em.
  split; [reflexivity|]. split; [reflexivity|]. split; [exact Hm0|].
  split.
  - intros p. destruct (Hpay p) as (v & Hv & Hrest).
    exists v. rewrite Em in Hv. split; [exact Hv|exact Hrest].
  - intros pts Hpts. unfold iron_condor_chart in Hpts.
    destruct (Qeq_bool _ 0); [discriminate Hpts|].
    apply (inj Some) in Hpts. subst pts.
    split; [rewrite length_map; apply length_linspace|].
    apply Forall_fmap, Forall_forall. intros p _. unfold compose. cbn [snd].
    destruct (Hpay p) as (v & Hv & H1 & H2 & _).
    exists v. rewrite Em in Hv. split; [exact Hv|]. split; assumption.
Qed.

Lemma X23_payoff_within_reported_figures_witness :
  exists ic k m,
    iron_condor (Qround_to 2 100) chain_calls chain_puts = Some ic /\
    netCredit ic = Fin k /\ maxLoss ic = Fin m /\ (0 <= m)%Q /\
    forall p, exists v,
      condor_payoff ic p = Fin v /\ (- m <= v)%Q /\ (v <= k)%Q.
Proof.
  assert (Hp : (2 <= length (otm_puts (Qround_to 2 100) chain_puts))%nat)
    by (vm_compute; lia).
  assert (Hc : (2 <= length (otm_calls (Qround_to 2 100) chain_calls))%nat)
    by (vm_compute; lia).
  destruct (iron_condor_run (Qround_to 2 100) chain_calls chain_puts Hp Hc)
    as (sp & bp & sc & bc & jp & jc & _ & _ & _ & _ & _ & _ & _ & _ & Hrun).
  cbn zeta in Hrun.
  assert (Hsig : forall nc, (if ngt nc (Fin 0) then NetCredit else NetDebit) <> NotEnough)
    by (intros nc; destruct (ngt nc (Fin 0)); discriminate).
  assert (Pc : priced chain_calls).
  { unfold priced, chain_calls.
    repeat (apply List.Forall_cons; [eexists; reflexivity|]). apply List.Forall_nil. }
  assert (Pp : priced chain_puts).
  { unfold priced, chain_puts.
    repeat (apply List.Forall_cons; [eexists; reflexivity|]). apply List.Forall_nil. }
  destruct (X23_payoff_within_reported_figures 100 chain_calls chain_puts _ Hrun
              (Hsig _) Pc Pp) as (k & m & Hk & Hm & Hm0 & Hpay & _).
  eexists _, k, m. split; [exact Hrun|].
  split; [exact Hk|]. split; [exact Hm|]. split; [exact Hm0|].
  intros p. destruct (Hpay p) as (v & Hv & H1 & H2 & _).
  exists v. repeat split; assumption.
Defined.
